(** * ilovedownload: the download engine of [downloader_gui.py]

    A shallow embedding of [DownloaderEngine] (the retry/orchestration loop,
    its single-attempt routine [download_file], and the cooperative stop
    flag) together with the properties the specification states about it.

    The engine talks to three things it does not control: the
    browser-automation library, the operating system, and the controlling
    (GUI) thread that may call [stop()] at any moment.  All three are
    gathered in an environment [Env]; the engine itself is a program in a
    state-and-exception monad over a [World] that holds the engine object,
    the local variables of [run], and a chronological trace of everything
    the worker did. *)

From Stdlib Require Import List String Ascii ZArith Bool Arith Lia.
Import ListNotations.
Open Scope Z_scope.
Open Scope list_scope.

Set Implicit Arguments.

(** ** Data *)

(** Severity passed as [level] to [DownloaderEngine.log]. *)
Inductive Level := INFO | SUCCESS | WARNING | ERROR.

(** Exceptions the engine distinguishes: [except PlaywrightTimeoutError]
    comes first, [except Exception] catches everything else. *)
Inductive Fault :=
| PlaywrightTimeoutError (msg : string)
| OtherException (msg : string).

(** [str(e)] *)
Definition str (e : Fault) : string :=
  match e with
  | PlaywrightTimeoutError m => m
  | OtherException m => m
  end.

(** The texts handed to [self.log], one constructor per f-string of the
    source, holding the values interpolated into it. *)
Inductive Message :=
| MsgRule (c : ascii) (n : nat)                 (* "=" * 50 and "-" * 40 *)
| MsgStarting                                   (* "Starting downloads..." *)
| MsgUrlsToProcess (n : nat)                    (* "URLs to process: {len(urls)}" *)
| MsgDownloadFolder (path : string)             (* "Download folder: {download_path}" *)
| MsgButtonSelector (selector : string)         (* "Button selector: {selector}" *)
| MsgBrowser (browser_type custom : string)     (* "Browser: {browser_type}" + " ({custom})" *)
| MsgLaunching                                  (* "Launching browser..." *)
| MsgUsingCustom (path : string)                (* "Using custom browser: {path}" *)
| MsgStoppedByUser                              (* "Download stopped by user" *)
| MsgProcessing (index total : nat)             (* "Processing URL {index}/{len(urls)}" *)
| MsgOpening (attempt total : Z) (url : string)    (* "[Attempt a/m] Opening: {url}" *)
| MsgPageLoaded                                 (* "Page loaded successfully" *)
| MsgNotFound (selector : string)               (* "Download button not found: {selector}" *)
| MsgFound                                      (* "Found download button, initiating download..." *)
| MsgDownloading (filename : string)            (* "Downloading: {filename}" *)
| MsgComplete (filename : string) (size : nat)  (* "✓ Complete: {filename} ({size:,} bytes)" *)
| MsgNotSaved (filename : string)               (* "✗ File not saved: {filename}" *)
| MsgTimeout (e : string)                       (* "✗ Timeout: {str(e)}" *)
| MsgError (e : string)                         (* "✗ Error: {str(e)}" *)
| MsgRetrying (delay : Z)                       (* "Retrying in {delay} seconds..." *)
| MsgWaiting (delay : Z)                        (* "Waiting {delay} seconds..." *)
| MsgClosing                                    (* "Closing browser..." *)
| MsgBrowserError (e : string)                  (* "Browser error: {str(e)}" *)
| MsgSummary                                    (* "DOWNLOAD SUMMARY" *)
| MsgTotals (total successful failed : nat)     (* "Total: .. | Success: .. | Failed: .." *)
| MsgFailedHeader                               (* "Failed URLs:" *)
| MsgFailedUrl (url : string)                   (* "  - {url}" *)
| MsgDone.                                      (* "Done!" *)

(** The three Playwright engines [run] can launch. *)
Inductive Family := Chromium | Firefox | WebKit.

(** Calls that leave the engine: into Playwright, the file system, the clock. *)
Inductive Call :=
| Mkdir (path : string)
| StartPlaywright
| PathExists (path : string)
| Launch (family : Family) (headless : bool) (executable_path : option string)
| NewContext
| NewPage
| Goto (url : string) (timeout : Z)
| WaitForTimeout (ms : Z)
| Count (selector : string)
| Click (selector : string)
| ExpectDownload (timeout : Z)
| SaveAs (path : string)
| Exists (path : string)
| GetSize (path : string)
| CloseContext
| CloseBrowser
| StopPlaywright
| Sleep (seconds : Z).

(** The three places where [run] reads the stop flag. *)
Inductive Checkpoint :=
| AtItem       (* line 165, before an item is started *)
| AtAttempt    (* line 175, before each attempt of an item *)
| AtPause.     (* line 197, before the pause that follows an item *)

(** What the worker thread does, in the order it does it. *)
Inductive Event :=
| Log (level : Level) (msg : Message)         (* [self.log(msg, level)] *)
| Do (c : Call)                               (* a call listed above *)
| Poll (place : Checkpoint) (pending : bool)  (* a read of [self.should_stop] *)
| Enter (url : string) (attempt : Z).         (* [download_file] is entered *)

(** The two fields of a [DownloaderEngine] object the claims are about
    ([gui_callback] is the log sink, represented by the [Log] events). *)
Record Engine := { is_running : bool; should_stop : bool }.

(** [DownloaderEngine.__init__] *)
Definition init : Engine := {| is_running := false; should_stop := false |}.

(** [DownloaderEngine.stop]: [self.should_stop = True] *)
Definition stop (e : Engine) : Engine :=
  {| is_running := is_running e; should_stop := true |}.

(** The statistics [run] keeps in local variables. *)
Record Locals := {
  successful : nat;
  failed : nat;
  failed_urls : list string
}.

(** The [settings] dictionary, by key. *)
Record Settings := {
  download_folder : string;
  selector : string;
  max_retries : Z;
  delay : Z;
  headless : bool;
  page_timeout : Z;
  download_timeout : Z;
  browser_type : string;
  custom_browser_path : string
}.

(** How the browser answers during one call of [download_file]: for each
    call made there, the exception it raises or the value it returns. *)
Record PageScript := {
  goto : option Fault;
  wait_for_timeout : option Fault;
  count : Fault + nat;
  click : option Fault;
  download : Fault + string;      (* the download's [suggested_filename] *)
  save_as : option Fault;
  saved : bool;                   (* [os.path.exists(save_path)] *)
  getsize : Fault + nat
}.

(** How the session-level calls of [run] answer. *)
Record SessionScript := {
  mkdir : option Fault;
  start_playwright : option Fault;
  launch : option Fault;
  new_context : option Fault;
  new_page : option Fault;
  close_context : option Fault;
  close_browser : option Fault
}.

(** Everything outside the worker thread. *)
Record Env := {
  (** the controlling thread calls [stop()] just before the worker's
      [n]-th step *)
  stop_at : nat -> bool;
  session : SessionScript;
  (** the browser's behaviour during the [k]-th call of [download_file]
      of the run, counted from 0 *)
  page_script : nat -> PageScript;
  (** [os.path.exists] on the custom browser path *)
  path_exists : string -> bool;
  (** [os.path.join] *)
  path_join : string -> string -> string;
  (** the exception, if any, that [time.sleep] raises for a length that is
      not negative: an [OverflowError] or [OSError] for a length too long
      for the platform (in CPython from about 9.2e9 seconds) *)
  sleep_fault : Z -> option Fault
}.

(** The two threads that touch the engine object. *)
Inductive Actor := Controller | Worker.

(** State of the whole system as the worker advances.  [steps] counts the
    worker's steps and [attempts] the calls of [download_file]; [history]
    is a ghost record of the engine object as each thread leaves it, turn
    by turn. *)
Record World := {
  engine : Engine;
  locals : Locals;
  steps : nat;
  attempts : nat;
  history : list (Actor * Engine)
}.

Definition start (e : Engine) : World :=
  {| engine := e;
     locals := {| successful := 0; failed := 0; failed_urls := [] |};
     steps := 0; attempts := 0; history := [] |}.

(** ** The monad: state over [World], exceptions, and the trace as output *)

Inductive Outcome (A : Type) :=
| Ok (a : A)
| Raised (e : Fault).
Arguments Raised {A} e.

Record Result (A : Type) := {
  outcome : Outcome A;
  after : World;
  events : list Event
}.

Definition M (A : Type) := World -> Result A.

Definition ret {A} (a : A) : M A :=
  fun w => {| outcome := Ok a; after := w; events := [] |}.

Definition raise {A} (e : Fault) : M A :=
  fun w => {| outcome := Raised e; after := w; events := [] |}.

Definition bind {A B} (m : M A) (k : A -> M B) : M B :=
  fun w =>
    match m w with
    | {| outcome := Ok a; after := w1; events := t1 |} =>
        match k a w1 with
        | {| outcome := o; after := w2; events := t2 |} =>
            {| outcome := o; after := w2; events := t1 ++ t2 |}
        end
    | {| outcome := Raised e; after := w1; events := t1 |} =>
        {| outcome := Raised e; after := w1; events := t1 |}
    end.

(** [try: body  except ... as e: handler e] *)
Definition try_except {A} (body : M A) (handler : Fault -> M A) : M A :=
  fun w =>
    match body w with
    | {| outcome := Ok a; after := w1; events := t1 |} =>
        {| outcome := Ok a; after := w1; events := t1 |}
    | {| outcome := Raised e; after := w1; events := t1 |} =>
        match handler e w1 with
        | {| outcome := o; after := w2; events := t2 |} =>
            {| outcome := o; after := w2; events := t1 ++ t2 |}
        end
    end.

(** [with cm: body]: the exit call is made on both ways out, and an
    exception of the body goes on after it. *)
Definition finally {A} (body : M A) (exit : M unit) : M A :=
  fun w =>
    match body w with
    | {| outcome := o; after := w1; events := t1 |} =>
        match exit w1 with
        | {| outcome := o'; after := w2; events := t2 |} =>
            {| outcome := match o, o' with
                          | Raised e, _ => Raised e
                          | Ok _, Raised e => Raised e
                          | Ok a, Ok _ => Ok a
                          end;
               after := w2; events := t1 ++ t2 |}
        end
    end.

Declare Scope monad_scope.
Delimit Scope monad_scope with monad.
Notation "x <- c1 ;; c2" := (bind c1 (fun x => c2))
  (at level 61, c1 at next level, right associativity) : monad_scope.
Notation "c1 ;; c2" := (bind c1 (fun _ => c2))
  (at level 61, right associativity) : monad_scope.
Open Scope monad_scope.

(** [range(lo, hi)] *)
Definition range (lo hi : Z) : list Z :=
  map (fun k => lo + Z.of_nat k) (seq 0 (Z.to_nat (hi - lo))).

(** The controlling thread's turn: it has called [stop()], or it has not. *)
Definition control (stops : bool) (e : Engine) : Engine :=
  if stops then stop e else e.

Section Engine.

Variable env : Env.

(** ** Steps of the worker *)

(** Before each step of the worker the controlling thread has its turn. *)
Definition interleave (w : World) : World :=
  let e := control (stop_at env (steps w)) (engine w) in
  {| engine := e; locals := locals w; steps := S (steps w);
     attempts := attempts w; history := history w ++ [(Controller, e)] |}.

(** The worker assigns to a field of the engine object. *)
Definition with_engine (f : Engine -> Engine) (w : World) : World :=
  let e := f (engine w) in
  {| engine := e; locals := locals w; steps := steps w;
     attempts := attempts w; history := history w ++ [(Worker, e)] |}.

(** The worker assigns to its local variables; no other thread sees them. *)
Definition with_locals (f : Locals -> Locals) (w : World) : World :=
  {| engine := engine w; locals := f (locals w); steps := steps w;
     attempts := attempts w; history := history w |}.

(** One more call of [download_file]. *)
Definition entered (w : World) : World :=
  {| engine := engine w; locals := locals w; steps := steps w;
     attempts := S (attempts w); history := history w |}.

Definition emit (ev : Event) : M unit :=
  fun w => {| outcome := Ok tt; after := interleave w; events := [ev] |}.

(** [self.log(message, level)] *)
Definition log (level : Level) (msg : Message) : M unit :=
  emit (Log level msg).

(** A call that returns nothing, or raises. *)
Definition call (c : Call) (answer : option Fault) : M unit :=
  emit (Do c);;
  match answer with
  | None => ret tt
  | Some e => raise e
  end.

(** A call that returns a value, or raises. *)
Definition ask {A} (c : Call) (answer : Fault + A) : M A :=
  emit (Do c);;
  match answer with
  | inr a => ret a
  | inl e => raise e
  end.

(** A value at hand, or an exception: no call is made. *)
Definition answer {A} (result : Fault + A) : M A :=
  match result with
  | inr a => ret a
  | inl e => raise e
  end.

(** What [time.sleep(seconds)] raises, if anything: a [ValueError] for a
    negative length, and for the others what the platform says. *)
Definition sleep_answer (seconds : Z) : option Fault :=
  if seconds <? 0
  then Some (OtherException "sleep length must be non-negative")
  else sleep_fault env seconds.

(** [time.sleep(seconds)] *)
Definition sleep (seconds : Z) : M unit :=
  call (Sleep seconds) (sleep_answer seconds).

(** A read of [self.should_stop]. *)
Definition read_should_stop (place : Checkpoint) : M bool :=
  fun w =>
    let w' := interleave w in
    let b := should_stop (engine w') in
    {| outcome := Ok b; after := w'; events := [Poll place b] |}.

(** A write to the engine object by the worker. *)
Definition write_engine (f : Engine -> Engine) : M unit :=
  fun w =>
    {| outcome := Ok tt; after := with_engine f (interleave w);
       events := [] |}.

Definition set_is_running (b : bool) : M unit :=
  write_engine (fun e => {| is_running := b; should_stop := should_stop e |}).

Definition set_should_stop (b : bool) : M unit :=
  write_engine (fun e => {| is_running := is_running e; should_stop := b |}).

Definition update_locals (f : Locals -> Locals) : M unit :=
  fun w => {| outcome := Ok tt; after := with_locals f w; events := [] |}.

Definition get_locals : M Locals :=
  fun w => {| outcome := Ok (locals w); after := w; events := [] |}.

(** Entering [download_file]: the call is counted and the browser's script
    for it is fetched. *)
Definition enter (url : string) (attempt : Z) : M PageScript :=
  fun w =>
    {| outcome := Ok (page_script env (attempts w)); after := entered w;
       events := [Enter url attempt] |}.

(** ** [DownloaderEngine.download_file] *)

Definition download_file (url download_path selector : string)
    (attempt max_retries page_timeout download_timeout : Z) : M bool :=
  page <- enter url attempt;;
  try_except
    (log INFO (MsgOpening attempt (max_retries + 1) url);;
     call (Goto url page_timeout) (goto page);;
     log INFO MsgPageLoaded;;
     call (WaitForTimeout 1000) (wait_for_timeout page);;
     n <- ask (Count selector) (count page);;
     if (n =? 0)%nat then
       log WARNING (MsgNotFound selector);;
       ret false
     else
       log INFO MsgFound;;
       emit (Do (ExpectDownload download_timeout));;
       call (Click selector) (click page);;
       filename <- answer (download page);;
       log INFO (MsgDownloading filename);;
       let save_path := path_join env download_path filename in
       call (SaveAs save_path) (save_as page);;
       present <- ask (Exists save_path) (inr (saved page));;
       if present : bool then
         file_size <- ask (GetSize save_path) (getsize page);;
         log SUCCESS (MsgComplete filename file_size);;
         ret true
       else
         log ERROR (MsgNotSaved filename);;
         ret false)
    (fun e =>
       match e with
       | PlaywrightTimeoutError _ =>
           log ERROR (MsgTimeout (str e));; ret false
       | OtherException _ =>
           log ERROR (MsgError (str e));; ret false
       end).

(** ** [DownloaderEngine.run] *)

(** Lines 186-188: [if attempt <= max_retries:] log and sleep. *)
Definition wait_before_retry (settings : Settings) (attempt : Z) : M unit :=
  if attempt <=? max_retries settings
  then log INFO (MsgRetrying (delay settings));;
       sleep (delay settings)
  else ret tt.

(** Lines 197-199: the pause after an item that is not the last one. *)
Definition pause_after_item (settings : Settings) (total index : nat)
  : M unit :=
  if (index <? total)%nat then
    pending <- read_should_stop AtPause;;
    if negb pending then
      log INFO (MsgWaiting (delay settings));;
      sleep (delay settings)
    else ret tt
  else ret tt.

(** The retry loop of one item, lines 174-188:
    [for attempt in range(1, max_retries + 2)] with its two [break]s.
    [success] is the variable of that name; it is what the loop leaves
    behind on every way out. *)
Fixpoint retry (settings : Settings) (url : string) (todo : list Z)
    (success : bool) : M bool :=
  match todo with
  | [] => ret success
  | attempt :: rest =>
      pending <- read_should_stop AtAttempt;;
      if pending : bool then ret success
      else
        success <- download_file url (download_folder settings)
                     (selector settings) attempt (max_retries settings)
                     (page_timeout settings * 1000)
                     (download_timeout settings * 1000);;
        if success : bool then ret success
        else
          wait_before_retry settings attempt;;
          retry settings url rest success
  end.

(** [successful += 1] *)
Definition count_success (l : Locals) : Locals :=
  {| successful := S (successful l); failed := failed l;
     failed_urls := failed_urls l |}.

(** [failed += 1; failed_urls.append(url)] *)
Definition count_failure (url : string) (l : Locals) : Locals :=
  {| successful := successful l; failed := S (failed l);
     failed_urls := failed_urls l ++ [url] |}.

(** The body of the loop over the URLs once the stop check at its top has
    passed, lines 169-199. *)
Definition item (settings : Settings) (total index : nat) (url : string)
  : M unit :=
  log INFO (MsgRule "-" 40);;
  log INFO (MsgProcessing index total);;
  success <- retry settings url (range 1 (max_retries settings + 2)) false;;
  update_locals (if success : bool then count_success
                 else count_failure url);;
  pause_after_item settings total index.

(** [for index, url in enumerate(urls, start=1)], lines 163-199. *)
Fixpoint process (settings : Settings) (total index : nat)
    (urls : list string) : M unit :=
  match urls with
  | [] => ret tt
  | url :: rest =>
      pending <- read_should_stop AtItem;;
      if pending : bool then log WARNING MsgStoppedByUser
      else
        item settings total index url;;
        process settings total (S index) rest
  end.

(** Python's truth value of a string. *)
Definition truthy (s : string) : bool :=
  match s with
  | EmptyString => false
  | String _ _ => true
  end.

(** [str.lower] on the ASCII letters (no other character lower-cases to
    one of [z], [e], [n]). *)
Definition lower_ascii (c : ascii) : ascii :=
  let n := nat_of_ascii c in
  if ((65 <=? n) && (n <=? 90))%nat then ascii_of_nat (n + 32) else c.

Fixpoint lower (s : string) : string :=
  match s with
  | EmptyString => EmptyString
  | String c rest => String (lower_ascii c) (lower rest)
  end.

(** [needle in hay] *)
Fixpoint contains (needle hay : string) : bool :=
  prefix needle hay ||
  match hay with
  | EmptyString => false
  | String _ rest => contains needle rest
  end.

(** The engine launched by the [if]/[elif]/[else] of lines 153-158. *)
Definition choose_family (browser_type custom_browser_path : string)
  : Family :=
  if String.eqb browser_type "Firefox"
     || (truthy custom_browser_path
         && contains "zen" (lower custom_browser_path))
  then Firefox
  else if String.eqb browser_type "WebKit" then WebKit
  else Chromium.

Fixpoint log_failed (urls : list string) : M unit :=
  match urls with
  | [] => ret tt
  | url :: rest => log INFO (MsgFailedUrl url);; log_failed rest
  end.

(** Lines 139-161: the browser is launched and a page opened. *)
Definition open_browser (settings : Settings) : M unit :=
  let custom := custom_browser_path settings in
  log INFO MsgLaunching;;
  executable_path <-
    (if truthy custom then
       present <- ask (PathExists custom) (inr (path_exists env custom));;
       if present : bool then
         log INFO (MsgUsingCustom custom);;
         ret (Some custom)
       else ret None
     else ret None);;
  call (Launch (choose_family (browser_type settings) custom)
               (headless settings) executable_path)
       (launch (session env));;
  call NewContext (new_context (session env));;
  call NewPage (new_page (session env)).

(** Lines 201-203. *)
Definition close_browser_session : M unit :=
  log INFO MsgClosing;;
  call CloseContext (close_context (session env));;
  call CloseBrowser (close_browser (session env)).

(** The body of [with sync_playwright() as playwright:], lines 139-203. *)
Definition browse (urls : list string) (settings : Settings) : M unit :=
  open_browser settings;;
  process settings (List.length urls) 1 urls;;
  close_browser_session.

(** Lines 137-206: the [try] around the session; whatever is raised in it
    is logged and the run goes on to the summary. *)
Definition browse_guarded (urls : list string) (settings : Settings)
  : M unit :=
  try_except
    (call StartPlaywright (start_playwright (session env));;
     finally (browse urls settings) (emit (Do StopPlaywright)))
    (fun e => log ERROR (MsgBrowserError (str e))).

(** Lines 129-135. *)
Definition announce (urls : list string) (settings : Settings) : M unit :=
  log INFO (MsgRule "=" 50);;
  log INFO MsgStarting;;
  log INFO (MsgUrlsToProcess (List.length urls));;
  log INFO (MsgDownloadFolder (download_folder settings));;
  log INFO (MsgButtonSelector (selector settings));;
  log INFO (MsgBrowser (browser_type settings)
                       (custom_browser_path settings));;
  log INFO (MsgRule "=" 50).

(** Lines 208-223: the summary, and the value [run] returns. *)
Definition summarise (urls : list string) : M (nat * nat) :=
  log INFO (MsgRule "=" 50);;
  log INFO MsgSummary;;
  log INFO (MsgRule "=" 50);;
  l <- get_locals;;
  log INFO (MsgTotals (List.length urls) (successful l) (failed l));;
  (match failed_urls l with
   | [] => ret tt
   | _ :: _ => log INFO MsgFailedHeader;; log_failed (failed_urls l)
   end);;
  log INFO (MsgRule "=" 50);;
  log INFO MsgDone;;
  set_is_running false;;
  ret (successful l, failed l).

(** Lines 107-127: the flags are set, the folder made, the counts zeroed. *)
Definition prepare (settings : Settings) : M unit :=
  set_is_running true;;
  set_should_stop false;;
  call (Mkdir (download_folder settings)) (mkdir (session env));;
  update_locals
    (fun _ => {| successful := 0; failed := 0; failed_urls := [] |}).

Definition run (urls : list string) (settings : Settings)
  : M (nat * nat) :=
  prepare settings;;
  announce urls settings;;
  browse_guarded urls settings;;
  summarise urls.

End Engine.

(** Every [time.sleep(seconds)] returns: the length is not negative and
    not too long for the platform. *)
Abbreviation sleeps env seconds := (sleep_answer env seconds = None)
  (only parsing).

Lemma sleeps_not_negative env seconds : sleeps env seconds -> 0 <= seconds.
Proof.
  unfold sleep_answer. destruct (seconds <? 0) eqn:E; [discriminate |].
  intros _. now apply Z.ltb_ge.
Qed.

Arguments interleave : simpl never.
Arguments with_engine : simpl never.
Arguments with_locals : simpl never.
Arguments entered : simpl never.
Arguments download_file : simpl never.
Arguments wait_before_retry : simpl never.
Arguments pause_after_item : simpl never.
Arguments item : simpl never.
Arguments open_browser : simpl never.
Arguments close_browser_session : simpl never.
Arguments browse : simpl never.
Arguments browse_guarded : simpl never.
Arguments prepare : simpl never.
Arguments announce : simpl never.
Arguments summarise : simpl never.

(** * Reasoning about the engine *)

(** ** Relations every part of a program keeps *)

Section Respects.

(** A relation between the world before, the events produced, and the
    world after; it holds of doing nothing and of doing one thing after
    another. *)
Variable R : World -> list Event -> World -> Prop.
Hypothesis R_refl : forall w, R w [] w.
Hypothesis R_trans :
  forall a t1 b t2 c, R a t1 b -> R b t2 c -> R a (t1 ++ t2) c.

(** [m] keeps the relation from every world, on every way out. *)
Definition respects {A} (m : M A) : Prop :=
  forall w, R w (events (m w)) (after (m w)).

Lemma respects_ret A (a : A) : respects (ret a).
Proof. intro w. apply R_refl. Qed.

Lemma respects_raise A (e : Fault) : respects (@raise A e).
Proof. intro w. apply R_refl. Qed.

Lemma respects_bind A B (m : M A) (k : A -> M B) :
  respects m -> (forall a, respects (k a)) -> respects (bind m k).
Proof.
  intros Hm Hk w. unfold bind. specialize (Hm w).
  destruct (m w) as [[a | e] w1 t1]; cbn in *.
  - specialize (Hk a w1). destruct (k a w1) as [o w2 t2]; cbn in *.
    eapply R_trans; eassumption.
  - exact Hm.
Qed.

Lemma respects_try_except A (body : M A) (handler : Fault -> M A) :
  respects body -> (forall e, respects (handler e)) ->
  respects (try_except body handler).
Proof.
  intros Hb Hh w. unfold try_except. specialize (Hb w).
  destruct (body w) as [[a | e] w1 t1]; cbn in *.
  - exact Hb.
  - specialize (Hh e w1). destruct (handler e w1) as [o w2 t2]; cbn in *.
    eapply R_trans; eassumption.
Qed.

Lemma respects_finally A (body : M A) (exit : M unit) :
  respects body -> respects exit -> respects (finally body exit).
Proof.
  intros Hb He w. unfold finally. specialize (Hb w).
  destruct (body w) as [o w1 t1]; cbn in *.
  specialize (He w1). destruct (exit w1) as [o' w2 t2]; cbn in *.
  eapply R_trans; eassumption.
Qed.

End Respects.

Create HintDb keeps.

(** Goes through a program built from [bind], [try_except], [finally],
    conditionals and parts already known to keep the relation. *)
Ltac keeps refl trans :=
  repeat first
    [ assumption
    | apply (respects_ret refl)
    | apply (respects_raise refl)
    | apply (respects_bind trans)
    | apply (respects_try_except trans)
    | apply (respects_finally trans)
    | progress intros
    | progress unfold answer
    | match goal with
      | |- respects _ (if ?b then _ else _) => destruct b
      | |- respects _ (match ?x with _ => _ end) => destruct x
      end
    | solve [eauto with keeps] ].

(** ** What the controlling thread can do to the engine *)

(** A stretch of history is lawful from a flag value [b] when the
    controlling thread only ever raises the flag and the worker leaves it
    as it found it. *)
Fixpoint lawful (b : bool) (h : list (Actor * Engine)) : Prop :=
  match h with
  | [] => True
  | (Controller, e) :: h' =>
      (b = true -> should_stop e = true) /\ lawful (should_stop e) h'
  | (Worker, e) :: h' =>
      should_stop e = b /\ lawful (should_stop e) h'
  end.

(** The flag at the end of a stretch of history that began with [b]. *)
Definition flag_after (b : bool) (h : list (Actor * Engine)) : bool :=
  last (map (fun x => should_stop (snd x)) h) b.

Lemma flag_after_app b h1 h2 :
  flag_after b (h1 ++ h2) = flag_after (flag_after b h1) h2.
Proof.
  unfold flag_after. rewrite map_app.
  induction (map (fun x => should_stop (snd x)) h2) as [| x l IH] using rev_ind.
  - now rewrite app_nil_r.
  - now rewrite app_assoc, !last_last.
Qed.

Lemma lawful_app b h1 h2 :
  lawful b h1 -> lawful (flag_after b h1) h2 -> lawful b (h1 ++ h2).
Proof.
  revert b. induction h1 as [| [who e] h1 IH]; intros b H1 H2.
  - exact H2.
  - assert (E : flag_after b ((who, e) :: h1) = flag_after (should_stop e) h1).
    { change ((who, e) :: h1) with ([(who, e)] ++ h1).
      now rewrite flag_after_app. }
    rewrite E in H2.
    destruct who; cbn in *; destruct H1 as [H1 H1']; split; auto.
Qed.

Section Drift.

Variable env : Env.

(** What holds between two worlds when, in between, the worker has not
    written to the engine object. *)
Record drift (w : World) (t : list Event) (w' : World) : Prop := {
  drift_running : is_running (engine w') = is_running (engine w);
  drift_rises : should_stop (engine w) = true -> should_stop (engine w') = true;
  drift_still : (forall n, stop_at env n = false) -> engine w' = engine w;
  drift_history :
    exists h, history w' = history w ++ h
              /\ lawful (should_stop (engine w)) h
              /\ should_stop (engine w') = flag_after (should_stop (engine w)) h
}.

Lemma drift_refl w : drift w [] w.
Proof.
  split; auto. exists []. now rewrite app_nil_r.
Qed.

Lemma drift_trans a t1 b t2 c :
  drift a t1 b -> drift b t2 c -> drift a (t1 ++ t2) c.
Proof.
  intros [R1 U1 S1 (h1 & E1 & L1 & F1)] [R2 U2 S2 (h2 & E2 & L2 & F2)].
  split.
  - congruence.
  - auto.
  - intros H. rewrite S2, S1; auto.
  - exists (h1 ++ h2). repeat split.
    + now rewrite E2, E1, app_assoc.
    + apply lawful_app; [exact L1 | now rewrite <- F1].
    + now rewrite flag_after_app, <- F1.
Qed.

Lemma drift_interleave w t : drift w t (interleave env w).
Proof.
  unfold interleave, control. split; cbn.
  - now destruct (stop_at env (steps w)).
  - now destruct (stop_at env (steps w)).
  - intros H. now rewrite H.
  - eexists. split; [reflexivity |]. cbn.
    destruct (stop_at env (steps w)); cbn; auto.
Qed.

Lemma drift_with_locals f w t : drift w t (with_locals f w).
Proof.
  split; cbn; auto. exists []. now rewrite app_nil_r.
Qed.

Lemma drift_entered w t : drift w t (entered w).
Proof.
  split; cbn; auto. exists []. now rewrite app_nil_r.
Qed.

Lemma emit_drifts ev : respects drift (emit env ev).
Proof. intro w. apply drift_interleave. Qed.

Lemma log_drifts level msg : respects drift (log env level msg).
Proof. apply emit_drifts. Qed.

Lemma read_should_stop_drifts place :
  respects drift (read_should_stop env place).
Proof. intro w. apply drift_interleave. Qed.

Lemma update_locals_drifts f : respects drift (update_locals f).
Proof. intro w. apply drift_with_locals. Qed.

Lemma get_locals_drifts : respects drift get_locals.
Proof. intro w. apply drift_refl. Qed.

Lemma enter_drifts url attempt : respects drift (enter env url attempt).
Proof. intro w. apply drift_entered. Qed.

Hint Resolve emit_drifts log_drifts read_should_stop_drifts
  update_locals_drifts get_locals_drifts enter_drifts : keeps.

Lemma call_drifts c answer : respects drift (call env c answer).
Proof. unfold call. keeps drift_refl drift_trans. Qed.

Lemma ask_drifts A c (answer : Fault + A) : respects drift (ask env c answer).
Proof. unfold ask. keeps drift_refl drift_trans. Qed.

Hint Resolve call_drifts ask_drifts : keeps.

Lemma sleep_drifts seconds : respects drift (sleep env seconds).
Proof. unfold sleep. auto with keeps. Qed.

Hint Resolve sleep_drifts : keeps.

Lemma download_file_drifts url download_path selector attempt max_retries
    page_timeout download_timeout :
  respects drift (download_file env url download_path selector attempt
                    max_retries page_timeout download_timeout).
Proof. unfold download_file. keeps drift_refl drift_trans. Qed.

Hint Resolve download_file_drifts : keeps.

Lemma wait_before_retry_drifts settings attempt :
  respects drift (wait_before_retry env settings attempt).
Proof. unfold wait_before_retry. keeps drift_refl drift_trans. Qed.

Lemma pause_after_item_drifts settings total index :
  respects drift (pause_after_item env settings total index).
Proof. unfold pause_after_item. keeps drift_refl drift_trans. Qed.

Hint Resolve wait_before_retry_drifts pause_after_item_drifts : keeps.

Lemma retry_drifts settings url todo success :
  respects drift (retry env settings url todo success).
Proof.
  revert success. induction todo as [| attempt rest IH]; intros success; cbn.
  - keeps drift_refl drift_trans.
  - keeps drift_refl drift_trans.
Qed.

Hint Resolve retry_drifts : keeps.

Lemma item_drifts settings total index url :
  respects drift (item env settings total index url).
Proof. unfold item. keeps drift_refl drift_trans. Qed.

Hint Resolve item_drifts : keeps.

Lemma process_drifts settings total index urls :
  respects drift (process env settings total index urls).
Proof.
  revert index. induction urls as [| url rest IH]; intros index; cbn.
  - keeps drift_refl drift_trans.
  - keeps drift_refl drift_trans.
Qed.

Hint Resolve process_drifts : keeps.

Lemma log_failed_drifts urls : respects drift (log_failed env urls).
Proof.
  induction urls as [| url rest IH]; cbn; keeps drift_refl drift_trans.
Qed.

Hint Resolve log_failed_drifts : keeps.

Lemma open_browser_drifts settings :
  respects drift (open_browser env settings).
Proof. unfold open_browser. keeps drift_refl drift_trans. Qed.

Lemma close_browser_session_drifts :
  respects drift (close_browser_session env).
Proof. unfold close_browser_session. keeps drift_refl drift_trans. Qed.

Hint Resolve open_browser_drifts close_browser_session_drifts : keeps.

Lemma browse_drifts urls settings :
  respects drift (browse env urls settings).
Proof. unfold browse. keeps drift_refl drift_trans. Qed.

Hint Resolve browse_drifts : keeps.

Lemma browse_guarded_drifts urls settings :
  respects drift (browse_guarded env urls settings).
Proof. unfold browse_guarded. keeps drift_refl drift_trans. Qed.

Lemma announce_drifts urls settings :
  respects drift (announce env urls settings).
Proof. unfold announce. keeps drift_refl drift_trans. Qed.

End Drift.

(** ** Counting in traces *)

Definition tally (p : Event -> bool) (t : list Event) : nat :=
  List.length (filter p t).

Lemma tally_app p t1 t2 : tally p (t1 ++ t2) = (tally p t1 + tally p t2)%nat.
Proof. unfold tally. now rewrite filter_app, length_app. Qed.

Lemma tally_none p q t :
  forallb q t = true -> (forall ev, q ev = true -> p ev = false) ->
  tally p t = 0%nat.
Proof.
  intros Hq Hpq. unfold tally. induction t as [| ev t IH]; cbn in *.
  - reflexivity.
  - apply andb_true_iff in Hq as [Hev Ht].
    rewrite (Hpq ev Hev). auto.
Qed.

Definition is_enter (ev : Event) : bool :=
  match ev with Enter _ _ => true | _ => false end.

Definition is_processing (ev : Event) : bool :=
  match ev with Log _ (MsgProcessing _ _) => true | _ => false end.

Definition is_retrying (ev : Event) : bool :=
  match ev with Log _ (MsgRetrying _) => true | _ => false end.

Definition is_not_found (ev : Event) : bool :=
  match ev with Log WARNING (MsgNotFound _) => true | _ => false end.

Definition is_click_or_save (ev : Event) : bool :=
  match ev with
  | Do (Click _) | Do (ExpectDownload _) | Do (SaveAs _) => true
  | _ => false
  end.

Definition is_poll (ev : Event) : bool :=
  match ev with Poll _ _ => true | _ => false end.

(** Number of calls of [download_file] in a trace. *)
Definition entries : list Event -> nat := tally is_enter.

(** Number of items started in a trace ("Processing URL i/n"). *)
Definition processed : list Event -> nat := tally is_processing.

(** The events [download_file] produces once entered. *)
Definition attempt_event (ev : Event) : bool :=
  match ev with
  | Log _ (MsgOpening _ _ _) | Log _ MsgPageLoaded | Log _ (MsgNotFound _)
  | Log _ MsgFound | Log _ (MsgDownloading _) | Log _ (MsgComplete _ _)
  | Log _ (MsgNotSaved _) | Log _ (MsgTimeout _) | Log _ (MsgError _) => true
  | Do (Goto _ _) | Do (WaitForTimeout _) | Do (Count _) | Do (Click _)
  | Do (ExpectDownload _) | Do (SaveAs _) | Do (Exists _) | Do (GetSize _) => true
  | _ => false
  end.

(** ** One attempt *)

(** The browser's answers that make an attempt succeed: the page loads, the
    selector matches, the click yields a download, the file is saved, is on
    disk, and its size can be read. *)
Definition succeeds (p : PageScript) : bool :=
  match goto p, wait_for_timeout p, count p with
  | None, None, inr (S _) =>
      match click p, download p, save_as p, getsize p with
      | None, inr _, None, inr _ => saved p
      | _, _, _, _ => false
      end
  | _, _, _ => false
  end.

(** The selector matches nothing on a page that loaded. *)
Definition button_missing (p : PageScript) : Prop :=
  goto p = None /\ wait_for_timeout p = None /\ count p = inr 0%nat.

(** The fault, if any, with which the browser layer interrupts an attempt. *)
Definition interrupted (p : PageScript) : option Fault :=
  match goto p with
  | Some e => Some e
  | None =>
  match wait_for_timeout p with
  | Some e => Some e
  | None =>
  match count p with
  | inl e => Some e
  | inr O => None
  | inr (S _) =>
  match click p with
  | Some e => Some e
  | None =>
  match download p with
  | inl e => Some e
  | inr _ =>
  match save_as p with
  | Some e => Some e
  | None =>
      if saved p then
        match getsize p with inl e => Some e | inr _ => None end
      else None
  end end end end end end.

Ltac unfold_monad :=
  unfold try_except, finally, bind, call, ask, answer, sleep, log, emit, enter,
    read_should_stop, write_engine, update_locals, get_locals, ret, raise.

Ltac split_answers :=
  repeat (cbn;
          match goal with
          | |- context [match ?x with _ => _ end] => is_var x; destruct x
          end).

Section Attempt.

Variable env : Env.
Variables (url download_path selector : string).
Variables (attempt max_retries page_timeout download_timeout : Z).

Let attempt_at (w : World) : Result bool :=
  download_file env url download_path selector attempt max_retries
    page_timeout download_timeout w.

Lemma download_file_spec (w : World) :
  outcome (attempt_at w) = Ok (succeeds (page_script env (attempts w)))
  /\ attempts (after (attempt_at w)) = S (attempts w)
  /\ locals (after (attempt_at w)) = locals w
  /\ exists t, events (attempt_at w) = Enter url attempt :: t
               /\ forallb attempt_event t = true.
Proof.
  unfold attempt_at, download_file, succeeds. unfold_monad. cbn.
  destruct (page_script env (attempts w)) as [g wt c cl d sa sv gs].
  split_answers; repeat split; try reflexivity;
    eexists; split; reflexivity.
Qed.

End Attempt.

(** ** The checkpoints *)

(** A watcher reads a trace and breaks when an attempt is entered that is
    not immediately preceded by a read of the flag at [AtAttempt] that found
    it clear, or when an item is started ("Processing URL") that is not
    preceded, the rule in between, by such a read at [AtItem]. *)
Inductive Watch := Idle | ItemPolled | ItemRuled | AttemptPolled | Broken.

Definition watch (s : Watch) (ev : Event) : Watch :=
  match s, ev with
  | Broken, _ => Broken
  | _, Poll AtItem false => ItemPolled
  | _, Poll AtAttempt false => AttemptPolled
  | ItemPolled, Log _ (MsgRule _ _) => ItemRuled
  | ItemRuled, Log _ (MsgProcessing _ _) => Idle
  | _, Log _ (MsgProcessing _ _) => Broken
  | AttemptPolled, Enter _ _ => Idle
  | _, Enter _ _ => Broken
  | _, _ => Idle
  end.

Definition watches (t : list Event) (s : Watch) : Watch := fold_left watch t s.

(** The trace satisfies the watcher from every state it may be in. *)
Definition checked (t : list Event) : Prop :=
  forall s, s <> Broken -> watches t s <> Broken.

(** A read of the flag that found it set. *)
Definition is_stop_seen (ev : Event) : bool :=
  match ev with Poll _ true => true | _ => false end.

Definition seen (t : list Event) : bool := existsb is_stop_seen t.

(** Events that belong to the winding down of a run: anything but a new
    attempt, a new item, a wait, or a read that finds the flag clear. *)
Definition winding (ev : Event) : bool :=
  match ev with
  | Enter _ _ => false
  | Poll _ false => false
  | Log _ (MsgProcessing _ _) | Log _ (MsgRetrying _) | Log _ (MsgWaiting _) => false
  | Do (Sleep _) => false
  | ev => negb (attempt_event ev)
  end.

(** From the first read that finds the flag set, the trace only winds down. *)
Fixpoint calm (t : list Event) : bool :=
  match t with
  | [] => true
  | ev :: rest => if is_stop_seen ev then forallb winding rest else calm rest
  end.

Lemma watches_app t1 t2 s : watches (t1 ++ t2) s = watches t2 (watches t1 s).
Proof. apply fold_left_app. Qed.

Lemma checked_nil : checked [].
Proof. intros s Hs. exact Hs. Qed.

Lemma checked_app t1 t2 : checked t1 -> checked t2 -> checked (t1 ++ t2).
Proof.
  intros H1 H2 s Hs. rewrite watches_app. apply H2, H1, Hs.
Qed.

Lemma watches_broken t : watches t Broken = Broken.
Proof. induction t as [| ev t IH]; cbn; auto. Qed.

(** Events that mean nothing to the watcher. *)
Definition unwatched (ev : Event) : bool :=
  match ev with
  | Enter _ _ | Log _ (MsgProcessing _ _) => false
  | _ => true
  end.

Lemma watch_unwatched s ev :
  unwatched ev = true -> s <> Broken -> watch s ev <> Broken.
Proof.
  destruct ev as [l [] | c | [] [] | u a]; destruct s; cbn; congruence.
Qed.

Lemma checked_unwatched t : forallb unwatched t = true -> checked t.
Proof.
  induction t as [| ev t IH]; cbn; intros H s Hs.
  - exact Hs.
  - apply andb_true_iff in H as [Hev Ht].
    apply (IH Ht). now apply watch_unwatched.
Qed.

Lemma seen_app t1 t2 : seen (t1 ++ t2) = seen t1 || seen t2.
Proof. apply existsb_app. Qed.

Lemma calm_app t1 t2 :
  calm (t1 ++ t2) =
  calm t1 && (if seen t1 then forallb winding t2 else calm t2).
Proof.
  induction t1 as [| ev t1 IH]; cbn.
  - reflexivity.
  - destruct (is_stop_seen ev); cbn.
    + now rewrite forallb_app.
    + exact IH.
Qed.

Lemma forallb_impl (p q : Event -> bool) t :
  (forall ev, p ev = true -> q ev = true) ->
  forallb p t = true -> forallb q t = true.
Proof.
  intros Hpq. rewrite !forallb_forall. auto.
Qed.

Lemma attempt_event_unwatched ev : attempt_event ev = true -> unwatched ev = true.
Proof. destruct ev as [l [] | [] | [] [] | u a]; cbn; congruence. Qed.

Lemma attempt_event_unseen ev : attempt_event ev = true -> is_stop_seen ev = false.
Proof. destruct ev as [l [] | [] | [] [] | u a]; cbn; congruence. Qed.

Lemma unseen_calm t :
  forallb (fun ev => negb (is_stop_seen ev)) t = true ->
  seen t = false /\ calm t = true.
Proof.
  induction t as [| ev t IH]; cbn; intros H.
  - auto.
  - apply andb_true_iff in H as [Hev Ht].
    destruct (is_stop_seen ev); [discriminate |]. cbn. auto.
Qed.

Lemma attempt_events_calm t :
  forallb attempt_event t = true -> seen t = false /\ calm t = true.
Proof.
  intros H. apply unseen_calm. revert H. apply forallb_impl.
  intros ev Hev. now rewrite attempt_event_unseen.
Qed.

(** ** The fields of a world after a step *)

Lemma locals_interleave env w : locals (interleave env w) = locals w.
Proof. reflexivity. Qed.

Lemma attempts_interleave env w : attempts (interleave env w) = attempts w.
Proof. reflexivity. Qed.

Lemma steps_interleave env w : steps (interleave env w) = S (steps w).
Proof. reflexivity. Qed.

Lemma engine_interleave env w :
  engine (interleave env w) = control (stop_at env (steps w)) (engine w).
Proof. reflexivity. Qed.

Lemma engine_with_locals f w : engine (with_locals f w) = engine w.
Proof. reflexivity. Qed.

Lemma locals_with_locals f w : locals (with_locals f w) = f (locals w).
Proof. reflexivity. Qed.

Lemma attempts_with_locals f w : attempts (with_locals f w) = attempts w.
Proof. reflexivity. Qed.

Lemma steps_with_locals f w : steps (with_locals f w) = steps w.
Proof. reflexivity. Qed.

Lemma engine_entered w : engine (entered w) = engine w.
Proof. reflexivity. Qed.

Lemma locals_entered w : locals (entered w) = locals w.
Proof. reflexivity. Qed.

Lemma attempts_entered w : attempts (entered w) = S (attempts w).
Proof. reflexivity. Qed.

Lemma engine_with_engine f w : engine (with_engine f w) = f (engine w).
Proof. reflexivity. Qed.

Lemma locals_with_engine f w : locals (with_engine f w) = locals w.
Proof. reflexivity. Qed.

Lemma attempts_with_engine f w : attempts (with_engine f w) = attempts w.
Proof. reflexivity. Qed.

Create Rewrite HintDb world.

Hint Rewrite locals_interleave attempts_interleave steps_interleave
  engine_with_locals locals_with_locals attempts_with_locals
  steps_with_locals engine_entered locals_entered attempts_entered
  engine_with_engine locals_with_engine attempts_with_engine : world.

Lemma should_stop_control b e :
  should_stop (control b e) = b || should_stop e.
Proof. now destruct b. Qed.

Lemma is_running_control b e : is_running (control b e) = is_running e.
Proof. now destruct b. Qed.

(** ** Relations kept throughout *)

(** The local variables of [run] are left alone. *)
Definition steady (w : World) (t : list Event) (w' : World) : Prop :=
  locals w' = locals w.

Lemma steady_refl w : steady w [] w.
Proof. reflexivity. Qed.

Lemma steady_trans a t1 b t2 c :
  steady a t1 b -> steady b t2 c -> steady a (t1 ++ t2) c.
Proof. unfold steady. congruence. Qed.

(** The counter of calls of [download_file] agrees with the trace. *)
Definition counted (w : World) (t : list Event) (w' : World) : Prop :=
  attempts w' = (attempts w + entries t)%nat.

Lemma counted_refl w : counted w [] w.
Proof. unfold counted, entries, tally. cbn. lia. Qed.

Lemma counted_trans a t1 b t2 c :
  counted a t1 b -> counted b t2 c -> counted a (t1 ++ t2) c.
Proof. unfold counted, entries. rewrite tally_app. lia. Qed.

(** Every event produced is of a given kind. *)
Definition emits (P : Event -> bool) (w : World) (t : list Event)
    (w' : World) : Prop :=
  forallb P t = true.

Lemma emits_refl P w : emits P w [] w.
Proof. reflexivity. Qed.

Lemma emits_trans P a t1 b t2 c :
  emits P a t1 b -> emits P b t2 c -> emits P a (t1 ++ t2) c.
Proof. unfold emits. rewrite forallb_app. intros -> ->. reflexivity. Qed.

Section Kept.

Variable env : Env.

Lemma emit_steady ev : respects steady (emit env ev).
Proof. intro w. reflexivity. Qed.

Lemma read_should_stop_steady place : respects steady (read_should_stop env place).
Proof. intro w. reflexivity. Qed.

Lemma get_locals_steady : respects steady get_locals.
Proof. intro w. reflexivity. Qed.

Lemma enter_steady url attempt : respects steady (enter env url attempt).
Proof. intro w. reflexivity. Qed.

Lemma emit_counted ev : is_enter ev = false -> respects counted (emit env ev).
Proof.
  intros H w. unfold counted, entries, tally. cbn. rewrite H. cbn.
  autorewrite with world. lia.
Qed.

Lemma read_should_stop_counted place :
  respects counted (read_should_stop env place).
Proof.
  intro w. unfold counted, entries, tally. cbn. autorewrite with world. lia.
Qed.

Lemma update_locals_counted f : respects counted (update_locals f).
Proof.
  intro w. unfold counted, entries, tally. cbn. autorewrite with world. lia.
Qed.

Lemma get_locals_counted : respects counted get_locals.
Proof.
  intro w. unfold counted, entries, tally. cbn. autorewrite with world. lia.
Qed.

Lemma enter_counted url attempt : respects counted (enter env url attempt).
Proof.
  intro w. unfold counted, entries, tally. cbn. autorewrite with world. lia.
Qed.

Lemma emit_emits P ev : P ev = true -> respects (emits P) (emit env ev).
Proof. intros H w. unfold emits. cbn. now rewrite H. Qed.

Lemma read_should_stop_emits P place :
  P (Poll place true) = true -> P (Poll place false) = true ->
  respects (emits P) (read_should_stop env place).
Proof.
  intros Ht Hf w. unfold emits. cbn.
  destruct (should_stop (engine (interleave env w))); now rewrite ?Ht, ?Hf.
Qed.

Lemma update_locals_emits P f : respects (emits P) (update_locals f).
Proof. intro w. reflexivity. Qed.

Lemma get_locals_emits P : respects (emits P) get_locals.
Proof. intro w. reflexivity. Qed.

Lemma enter_emits P url attempt :
  P (Enter url attempt) = true -> respects (emits P) (enter env url attempt).
Proof. intros H w. unfold emits. cbn. now rewrite H. Qed.

End Kept.

#[export] Hint Resolve emit_steady read_should_stop_steady get_locals_steady
  enter_steady emit_counted read_should_stop_counted update_locals_counted
  get_locals_counted enter_counted emit_emits read_should_stop_emits
  update_locals_emits get_locals_emits enter_emits : keeps.

(** Unfolds the calls and logs of a program and goes through it. *)
Ltac keeps_all refl trans :=
  unfold wait_before_retry, pause_after_item, sleep, call, ask, log;
  keeps refl trans.

Section KeptByParts.

Variable env : Env.

Lemma download_file_steady url download_path selector attempt max_retries
    page_timeout download_timeout :
  respects steady (download_file env url download_path selector attempt
                     max_retries page_timeout download_timeout).
Proof. unfold download_file. keeps_all steady_refl steady_trans. Qed.

Lemma download_file_counted url download_path selector attempt max_retries
    page_timeout download_timeout :
  respects counted (download_file env url download_path selector attempt
                      max_retries page_timeout download_timeout).
Proof. unfold download_file. keeps_all counted_refl counted_trans. Qed.

Lemma wait_before_retry_steady settings attempt :
  respects steady (wait_before_retry env settings attempt).
Proof. keeps_all steady_refl steady_trans. Qed.

Lemma wait_before_retry_counted settings attempt :
  respects counted (wait_before_retry env settings attempt).
Proof. keeps_all counted_refl counted_trans. Qed.

Lemma pause_after_item_steady settings total index :
  respects steady (pause_after_item env settings total index).
Proof. keeps_all steady_refl steady_trans. Qed.

Lemma pause_after_item_counted settings total index :
  respects counted (pause_after_item env settings total index).
Proof. keeps_all counted_refl counted_trans. Qed.

Hint Resolve download_file_steady download_file_counted
  wait_before_retry_steady wait_before_retry_counted
  pause_after_item_steady pause_after_item_counted : keeps.

Lemma retry_steady settings url todo success :
  respects steady (retry env settings url todo success).
Proof.
  revert success. induction todo as [| attempt rest IH]; intros success; cbn;
    keeps steady_refl steady_trans.
Qed.

Lemma retry_counted settings url todo success :
  respects counted (retry env settings url todo success).
Proof.
  revert success. induction todo as [| attempt rest IH]; intros success; cbn;
    keeps counted_refl counted_trans.
Qed.

Hint Resolve retry_steady retry_counted : keeps.

Lemma item_counted settings total index url :
  respects counted (item env settings total index url).
Proof. unfold item. keeps_all counted_refl counted_trans. Qed.

Hint Resolve item_counted : keeps.

Lemma process_counted settings total index urls :
  respects counted (process env settings total index urls).
Proof.
  revert index. induction urls as [| url rest IH]; intros index; cbn;
    keeps_all counted_refl counted_trans.
Qed.

End KeptByParts.

(** ** The retry loop *)

(** Events that are neither an attempt entered, nor an item started, nor a
    read of the flag. *)
Definition plain (ev : Event) : bool :=
  negb (is_enter ev || is_processing ev || is_poll ev).

Lemma plain_quiet t :
  forallb plain t = true ->
  entries t = 0%nat /\ processed t = 0%nat /\ checked t
  /\ calm t = true /\ seen t = false.
Proof.
  intros H. repeat split.
  - apply (tally_none is_enter plain); auto.
    intros ev. unfold plain. destruct (is_enter ev); cbn; congruence.
  - apply (tally_none is_processing plain); auto.
    intros ev. unfold plain.
    destruct (is_enter ev), (is_processing ev); cbn; congruence.
  - apply checked_unwatched. revert H. apply forallb_impl.
    intros ev. destruct ev as [l [] | c | p b | u a]; cbn; congruence.
  - apply unseen_calm. revert H. apply forallb_impl.
    intros ev. destruct ev as [l m | c | p [] | u a]; cbn; congruence.
  - apply unseen_calm. revert H. apply forallb_impl.
    intros ev. destruct ev as [l m | c | p [] | u a]; cbn; congruence.
Qed.

Lemma attempt_event_plain ev : attempt_event ev = true -> plain ev = true.
Proof. destruct ev as [l [] | [] | [] [] | u a]; cbn; congruence. Qed.

Lemma checked_attempt u a t :
  checked t -> checked (Poll AtAttempt false :: Enter u a :: t).
Proof.
  intros H s Hs. cbn. apply H. destruct s; cbn; congruence.
Qed.

(** The events of [wait_before_retry]. *)
Definition wait_event (ev : Event) : bool :=
  match ev with
  | Log INFO (MsgRetrying _) | Do (Sleep _) => true
  | _ => false
  end.

Definition retry_event (ev : Event) : bool :=
  attempt_event ev || wait_event ev
  || match ev with
     | Enter _ _ | Poll AtAttempt _ => true
     | _ => false
     end.

Section Retry.

Variable env : Env.
Variable settings : Settings.
Variable url : string.

Lemma wait_before_retry_emits attempt :
  respects (emits wait_event) (wait_before_retry env settings attempt).
Proof. keeps_all (emits_refl wait_event) (@emits_trans wait_event). Qed.

Lemma wait_before_retry_returns attempt w :
  sleeps env (delay settings) ->
  outcome (wait_before_retry env settings attempt w) = Ok tt.
Proof.
  intros Hd. unfold wait_before_retry, sleep, call, log. unfold_monad.
  destruct (attempt <=? max_retries settings); cbn; [| reflexivity].
  now rewrite Hd.
Qed.

(** What the retry loop guarantees from a world [w]. *)
Record retry_post (todo : list Z) (success : bool) (w : World)
    (r : Result bool) : Prop := {
  retry_bounded : (entries (events r) <= List.length todo)%nat;
  retry_events : forallb retry_event (events r) = true;
  retry_checked : checked (events r);
  retry_calm : calm (events r) = true;
  retry_stopped :
    should_stop (engine w) = true ->
    forallb winding (events r) = true /\ outcome r = Ok success;
  retry_seen :
    seen (events r) = true ->
    should_stop (engine (after r)) = true
    /\ (success = false -> outcome r = Ok false);
  retry_returns : sleeps env (delay settings) -> exists b, outcome r = Ok b
}.

Lemma wait_event_plain ev : wait_event ev = true -> plain ev = true.
Proof. destruct ev as [[] [] | [] | [] [] | u a]; cbn; congruence. Qed.

Lemma attempt_event_retry_event ev :
  attempt_event ev = true -> retry_event ev = true.
Proof. intros H. unfold retry_event. now rewrite H. Qed.

Lemma wait_event_retry_event ev :
  wait_event ev = true -> retry_event ev = true.
Proof. intros H. unfold retry_event. rewrite H. now rewrite orb_true_r. Qed.

Lemma retry_spec todo : forall success w,
  retry_post todo success w (retry env settings url todo success w).
Proof.
  induction todo as [| attempt rest IH]; intros success w.
  - cbn. split; cbn; try discriminate; eauto using checked_nil.
  - cbn [retry]. unfold bind at 1. unfold read_should_stop at 1. cbn.
    pose proof (drift_interleave env w []) as Dw.
    destruct (should_stop (engine (interleave env w))) eqn:F.
    { cbn. split; cbn; auto.
      - unfold entries, tally. cbn. lia.
      - intros s Hs. destruct s; cbn; congruence.
      - intros _. split; [exact F | now intros ->].
      - eauto. }
    assert (Hclear : should_stop (engine w) = true -> False).
    { intros H. apply (drift_rises Dw) in H. congruence. }
    unfold bind at 1.
    pose proof (download_file_spec env url (download_folder settings)
      (selector settings) attempt (max_retries settings)
      (page_timeout settings * 1000) (download_timeout settings * 1000)
      (interleave env w)) as (Ho & _ & _ & t & Ht & Hatt).
    destruct (download_file _ _ _ _ _ _ _ _ _) as [o2 w2 t2].
    cbn in Ho, Ht. subst o2 t2.
    assert (Hplain : forallb plain t = true).
    { revert Hatt. apply forallb_impl, attempt_event_plain. }
    destruct (plain_quiet t Hplain) as (Et & _ & Ct & Kt & St).
    unfold seen, entries, tally in *.
    destruct (succeeds _).
    { cbn. rewrite ?app_nil_r. split; cbn; try tauto.
      - lia.
      - revert Hatt. apply forallb_impl, attempt_event_retry_event.
      - now apply checked_attempt.
      - rewrite St. discriminate.
      - eauto. }
    unfold bind at 1.
    pose proof (wait_before_retry_emits attempt w2) as Hw.
    pose proof (wait_before_retry_returns attempt w2) as Hr.
    destruct (wait_before_retry env settings attempt w2) as [o3 w3 t3].
    unfold emits in Hw. cbn in Hw, Hr.
    assert (Hboth : forallb retry_event (t ++ t3) = true).
    { rewrite forallb_app.
      rewrite (forallb_impl _ _ _ attempt_event_retry_event Hatt).
      now rewrite (forallb_impl _ _ _ wait_event_retry_event Hw). }
    assert (Hplain3 : forallb plain (t ++ t3) = true).
    { rewrite forallb_app, Hplain.
      now rewrite (forallb_impl _ _ _ wait_event_plain Hw). }
    destruct (plain_quiet _ Hplain3) as (Et3 & _ & Ct3 & Kt3 & St3).
    unfold seen, entries, tally in *.
    destruct o3 as [[] | e].
    2: { cbn. rewrite ?app_nil_r. split; cbn; try tauto.
         - lia.
         - now apply checked_attempt.
         - rewrite St3. discriminate.
         - intros Hd. specialize (Hr Hd). discriminate. }
    specialize (IH false w3).
    destruct (retry env settings url rest false w3) as [o4 w4 t4].
    destruct IH as [B4 E4 C4 K4 S4 N4 R4]. cbn in *.
    rewrite (app_assoc t t3 t4).
    split; cbn; try tauto.
    + rewrite filter_app, length_app. lia.
    + now rewrite forallb_app, Hboth, E4.
    + now apply checked_attempt, checked_app.
    + rewrite calm_app, Kt3. unfold seen. now rewrite St3.
    + rewrite existsb_app, St3. cbn. intros H.
      destruct (N4 H) as [H1 H2]. auto.
Qed.

End Retry.

(** ** One item *)

Arguments range : simpl never.

(** Attempts made for one item at most: the length of
    [range(1, max_retries + 2)]. *)
Lemma length_range lo hi : List.length (range lo hi) = Z.to_nat (hi - lo).
Proof. unfold range. now rewrite length_map, length_seq. Qed.

Lemma range_cons lo hi : lo < hi -> range lo hi = lo :: range (lo + 1) hi.
Proof.
  intros H. unfold range.
  replace (Z.to_nat (hi - lo)) with (S (Z.to_nat (hi - (lo + 1)))) by lia.
  cbn [seq map]. rewrite <- seq_shift, map_map. f_equal; [lia |].
  apply map_ext. intros k. lia.
Qed.

Definition pause_event (ev : Event) : bool :=
  match ev with
  | Poll AtPause _ | Log INFO (MsgWaiting _) | Do (Sleep _) => true
  | _ => false
  end.

Section Item.

Variable env : Env.
Variable settings : Settings.

Record pause_post (w : World) (r : Result unit) : Prop := {
  pause_events : forallb pause_event (events r) = true;
  pause_calm : calm (events r) = true;
  pause_stopped :
    should_stop (engine w) = true -> forallb winding (events r) = true;
  pause_seen :
    seen (events r) = true -> should_stop (engine (after r)) = true;
  pause_returns : sleeps env (delay settings) -> outcome r = Ok tt
}.

Lemma pause_after_item_spec total index w :
  pause_post w (pause_after_item env settings total index w).
Proof.
  unfold pause_after_item.
  destruct (index <? total)%nat.
  2: { split; cbn; auto. discriminate. }
  unfold bind at 1. unfold read_should_stop at 1. cbn.
  pose proof (drift_interleave env w []) as Dw.
  destruct (should_stop (engine (interleave env w))) eqn:F; cbn.
  - split; cbn; auto.
  - unfold sleep, call, log. unfold_monad. cbn.
    assert (Hclear : should_stop (engine w) = true -> False).
    { intros H. apply (drift_rises Dw) in H. congruence. }
    destruct (sleep_answer env (delay settings)) eqn:D; cbn;
      split; cbn; auto; try tauto; try discriminate.
    congruence.
Qed.

Variable total index : nat.
Variable url : string.

(** The events of an item after its two opening lines. *)
Definition item_event (ev : Event) : bool := retry_event ev || pause_event ev.

Record item_post (w : World) (r : Result unit) : Prop := {
  item_shape :
    exists t,
      events r = Log INFO (MsgRule "-" 40)
                 :: Log INFO (MsgProcessing index total) :: t
      /\ forallb item_event t = true
      /\ (Z.of_nat (entries t) <= Z.max 0 (max_retries settings + 1))
      /\ checked t
      /\ calm t = true
      /\ (seen t = true -> should_stop (engine (after r)) = true);
  item_outcome :
    outcome r = Ok tt ->
    locals (after r) = count_success (locals w)
    \/ locals (after r) = count_failure url (locals w);
  item_stopped :
    In (Poll AtAttempt true) (events r) ->
    locals (after r) = count_failure url (locals w);
  item_returns : sleeps env (delay settings) -> outcome r = Ok tt
}.

Lemma retry_event_item_event ev : retry_event ev = true -> item_event ev = true.
Proof. intros H. unfold item_event. now rewrite H. Qed.

Lemma pause_event_item_event ev : pause_event ev = true -> item_event ev = true.
Proof. intros H. unfold item_event. rewrite H. apply orb_true_r. Qed.

Lemma pause_event_unwatched ev : pause_event ev = true -> unwatched ev = true.
Proof. destruct ev as [[] [] | [] | [] [] | u a]; cbn; congruence. Qed.

Lemma In_seen p t : In (Poll p true) t -> seen t = true.
Proof.
  intros H. apply existsb_exists. exists (Poll p true). now split.
Qed.

Lemma item_spec w : item_post w (item env settings total index url w).
Proof.
  unfold item. unfold_monad. cbn.
  set (w1 := interleave env (interleave env w)).
  set (todo := range 1 (max_retries settings + 2)).
  pose proof (retry_spec env settings url todo false w1) as R.
  pose proof (retry_steady env settings url todo false w1) as RS.
  destruct (retry env settings url todo false w1) as [o2 w2 t2].
  destruct R as [B2 E2 C2 K2 S2 N2 R2]. unfold steady in RS.
  cbn [outcome after events] in *.
  unfold todo in B2. rewrite length_range in B2.
  assert (B2' : Z.of_nat (entries t2) <= Z.max 0 (max_retries settings + 1)) by lia.
  assert (I2 : forallb item_event t2 = true).
  { revert E2. apply forallb_impl, retry_event_item_event. }
  destruct o2 as [b | e].
  2: { cbn. split; cbn [outcome after events].
       - exists t2. repeat split; auto. intros H. now apply N2.
       - discriminate.
       - intros [H | [H | H]]; try discriminate.
         apply In_seen, N2 in H. destruct H as [_ H].
         specialize (H eq_refl). discriminate.
       - intros H. destruct (R2 H). discriminate. }
  cbn.
  set (w2' := with_locals (if b then count_success else count_failure url) w2).
  pose proof (pause_after_item_spec total index w2') as P.
  pose proof (pause_after_item_steady env settings total index w2') as PS.
  pose proof (pause_after_item_drifts env settings total index w2') as PD.
  destruct (pause_after_item env settings total index w2') as [o3 w3 t3].
  destruct P as [E3 K3 S3 N3 R3]. unfold steady in PS.
  cbn [outcome after events] in *.
  assert (L3 : locals w3 = (if b then count_success else count_failure url) (locals w)).
  { rewrite PS. unfold w2'. autorewrite with world. now rewrite RS. }
  assert (F3 : should_stop (engine w2) = true -> should_stop (engine w3) = true).
  { intros H. apply (drift_rises PD). exact H. }
  split; cbn [outcome after events].
  - exists (t2 ++ t3). repeat split.
    + rewrite forallb_app, I2. cbn.
      revert E3. apply forallb_impl, pause_event_item_event.
    + unfold entries in *. rewrite tally_app.
      rewrite (tally_none is_enter pause_event t3 E3); [lia |].
      intros ev. destruct ev as [l m | c | p q | u a]; cbn; congruence.
    + apply checked_app; [exact C2 |]. apply checked_unwatched.
      revert E3. apply forallb_impl, pause_event_unwatched.
    + rewrite calm_app, K2. cbn. destruct (seen t2) eqn:S.
      * apply S3. unfold w2'. autorewrite with world. now apply N2.
      * exact K3.
    + rewrite seen_app. intros H. apply orb_true_iff in H as [H | H].
      * now apply F3, N2.
      * now apply N3.
  - intros _. rewrite L3. destruct b; auto.
  - intros [H | [H | H]]; try discriminate.
    apply in_app_or in H as [H | H].
    + apply In_seen, N2 in H. destruct H as [_ H].
      specialize (H eq_refl). injection H as ->. exact L3.
    + rewrite forallb_forall in E3. apply E3 in H. discriminate.
  - exact R3.
Qed.

End Item.

(** ** What an item can raise *)

Section Excused.

Variable env : Env.
Variable settings : Settings.

(** All that is raised is what [time.sleep] raises for the delay. *)
Definition excused {A} (r : Result A) : Prop :=
  forall e, outcome r = Raised e -> sleep_answer env (delay settings) = Some e.

Lemma wait_before_retry_excused attempt w :
  excused (wait_before_retry env settings attempt w).
Proof.
  unfold excused, wait_before_retry, sleep, call, log. unfold_monad.
  destruct (attempt <=? max_retries settings); cbn; [| discriminate].
  destruct (sleep_answer env (delay settings)); cbn; congruence.
Qed.

Lemma pause_after_item_excused total index w :
  excused (pause_after_item env settings total index w).
Proof.
  unfold excused, pause_after_item, sleep, call, log. unfold_monad.
  destruct (index <? total)%nat; cbn; [| discriminate].
  destruct (should_stop (engine (interleave env w))); cbn; [discriminate |].
  destruct (sleep_answer env (delay settings)); cbn; congruence.
Qed.

Lemma retry_excused url todo : forall success w,
  excused (retry env settings url todo success w).
Proof.
  induction todo as [| attempt rest IH]; intros success w.
  - intros e H. discriminate H.
  - cbn [retry]. unfold bind at 1. unfold read_should_stop at 1. cbn.
    destruct (should_stop (engine (interleave env w))).
    { intros e H. discriminate H. }
    unfold bind at 1.
    pose proof (download_file_spec env url (download_folder settings)
                  (selector settings) attempt (max_retries settings)
                  (page_timeout settings * 1000)
                  (download_timeout settings * 1000) (interleave env w))
      as (O & _).
    destruct (download_file _ _ _ _ _ _ _ _ _) as [o w1 t1].
    cbn [outcome] in O. subst o.
    destruct (succeeds _).
    { intros e H. discriminate H. }
    unfold bind at 1.
    pose proof (wait_before_retry_excused attempt w1) as W.
    destruct (wait_before_retry env settings attempt w1) as [[[] | x] w2 t2].
    + specialize (IH false w2).
      destruct (retry env settings url rest false w2) as [o3 w3 t3].
      intros e H. apply IH. exact H.
    + intros e H. apply W. cbn in *. congruence.
Qed.

Lemma item_excused total index url w :
  excused (item env settings total index url w).
Proof.
  unfold item. unfold log, emit. unfold bind at 1 2.
  cbn [outcome after events]. unfold bind at 1.
  pose proof (retry_excused url (range 1 (max_retries settings + 2)) false
                (interleave env (interleave env w))) as R.
  destruct (retry env settings url _ false _) as [[b | x] w1 t1].
  - unfold bind at 1. unfold update_locals at 1. cbn [outcome after events].
    pose proof (pause_after_item_excused total index
                  (with_locals (if b then count_success else count_failure url)
                     w1)) as P.
    destruct (pause_after_item env settings total index _) as [o2 w2 t2].
    intros e H. apply P. exact H.
  - intros e H. apply R. cbn in *. congruence.
Qed.

End Excused.

(** ** The loop over the items *)

(** [l1] is [l2] with some elements left out, the others in their order. *)
Inductive subseq {A : Type} : list A -> list A -> Prop :=
| subseq_nil : subseq [] []
| subseq_skip x l1 l2 : subseq l1 l2 -> subseq l1 (x :: l2)
| subseq_keep x l1 l2 : subseq l1 l2 -> subseq (x :: l1) (x :: l2).

Lemma subseq_empty A (l : list A) : subseq [] l.
Proof. induction l; constructor; auto. Qed.

Lemma subseq_refl A (l : list A) : subseq l l.
Proof. induction l; [apply subseq_nil | now apply subseq_keep]. Qed.

Lemma subseq_length A (l1 l2 : list A) :
  subseq l1 l2 -> (List.length l1 <= List.length l2)%nat.
Proof. induction 1; cbn; lia. Qed.

Lemma checked_item c n i k t :
  checked t ->
  checked (Poll AtItem false :: Log INFO (MsgRule c n)
           :: Log INFO (MsgProcessing i k) :: t).
Proof.
  intros H s Hs. cbn. apply H. destruct s; cbn; congruence.
Qed.

Lemma item_event_not_processing ev :
  item_event ev = true -> is_processing ev = false.
Proof. destruct ev as [[] [] | [] | [] [] | u a]; cbn; congruence. Qed.

(** The events of the loop over the items. *)
Definition loop_event (ev : Event) : bool :=
  item_event ev
  || match ev with
     | Poll AtItem _ | Log INFO (MsgRule _ _) | Log INFO (MsgProcessing _ _)
     | Log WARNING MsgStoppedByUser => true
     | _ => false
     end.

Lemma item_event_loop_event ev : item_event ev = true -> loop_event ev = true.
Proof. intros H. unfold loop_event. now rewrite H. Qed.

Section Process.

Variable env : Env.
Variable settings : Settings.
Variable total : nat.

Record process_post (urls : list string) (w : World) (r : Result unit)
  : Prop := {
  process_entries :
    Z.of_nat (entries (events r))
    <= Z.of_nat (List.length urls) * Z.max 0 (max_retries settings + 1);
  process_processed : (processed (events r) <= List.length urls)%nat;
  process_events : forallb loop_event (events r) = true;
  process_checked : checked (events r);
  process_calm : calm (events r) = true;
  process_stopped :
    should_stop (engine w) = true ->
    forallb winding (events r) = true
    /\ locals (after r) = locals w /\ outcome r = Ok tt;
  process_seen :
    seen (events r) = true -> should_stop (engine (after r)) = true;
  process_first :
    urls <> [] ->
    exists b t,
      events r = Poll AtItem b :: t
      /\ (b = true ->
          t = [Log WARNING MsgStoppedByUser]
          /\ locals (after r) = locals w /\ outcome r = Ok tt);
  process_tally :
    sleeps env (delay settings) ->
    outcome r = Ok tt
    /\ exists fs,
         failed_urls (locals (after r)) = failed_urls (locals w) ++ fs
         /\ subseq fs urls
         /\ failed (locals (after r)) = (failed (locals w) + List.length fs)%nat
         /\ (successful (locals (after r)) + failed (locals (after r))
             = successful (locals w) + failed (locals w)
               + processed (events r))%nat
         /\ ((processed (events r) < List.length urls)%nat ->
             In (Poll AtItem true) (events r))
}.

Lemma process_spec urls : forall index w,
  process_post urls w (process env settings total index urls w).
Proof.
  induction urls as [| url rest IH]; intros index w.
  - cbn. split; cbn; auto using checked_nil; try lia.
    + congruence.
    + intros _. split; auto. exists []. rewrite app_nil_r.
      repeat split; auto using subseq_nil; lia.
  - cbn [process]. unfold_monad. cbn.
    pose proof (drift_interleave env w []) as Dw.
    destruct (should_stop (engine (interleave env w))) eqn:F.
    { cbn. split; cbn [outcome after events]; auto.
      - unfold entries, tally. cbn [filter is_enter List.length].
        apply Z.mul_nonneg_nonneg; lia.
      - unfold processed, tally. cbn. lia.
      - intros s Hs. destruct s; cbn; congruence.
      - intros _.
        apply (drift_rises (drift_interleave env (interleave env w) [])), F.
      - intros _. exists true, [Log WARNING MsgStoppedByUser]. auto.
      - intros _. split; auto. exists []. rewrite app_nil_r.
        autorewrite with world. unfold processed, tally. cbn.
        repeat split; auto using subseq_empty; lia. }
    assert (Hclear : should_stop (engine w) = true -> False).
    { intros H. apply (drift_rises Dw) in H. congruence. }
    set (w1 := interleave env w).
    pose proof (item_spec env settings total index url w1) as I.
    destruct (item env settings total index url w1) as [o2 w2 t2].
    destruct I as [(t & Et & E2 & B2 & C2 & K2 & N2) O2 _ R2].
    cbn [outcome after events] in *. subst t2.
    assert (P2 : processed t = 0%nat).
    { apply (tally_none is_processing item_event t E2).
      apply item_event_not_processing. }
    assert (L2 : forallb loop_event t = true).
    { revert E2. apply forallb_impl, item_event_loop_event. }
    assert (Hm : 0 <= Z.max 0 (max_retries settings + 1)) by lia.
    remember (Z.max 0 (max_retries settings + 1)) as m eqn:Em.
    assert (M : Z.of_nat (List.length (url :: rest)) * m
                = m + Z.of_nat (List.length rest) * m).
    { cbn [List.length]. lia. }
    assert (Hpos : 0 <= Z.of_nat (List.length rest) * m).
    { apply Z.mul_nonneg_nonneg; lia. }
    destruct o2 as [[] | e].
    2: { cbn. split; cbn [outcome after events].
         - rewrite <- Em, M. unfold entries, tally in *.
           cbn [filter is_enter]. lia.
         - unfold processed, tally in *.
           cbn [filter is_processing List.length]. lia.
         - exact L2.
         - now apply checked_item.
         - exact K2.
         - tauto.
         - exact N2.
         - intros _. exists false. eexists. split; [reflexivity | discriminate].
         - intros H. specialize (R2 H). discriminate. }
    cbn.
    specialize (IH (S index) w2).
    pose proof (process_drifts env settings total (S index) rest w2) as PD.
    destruct (process env settings total (S index) rest w2) as [o3 w3 t3].
    destruct IH as [B3 P3 E3 C3 K3 S3 N3 _ T3].
    cbn [outcome after events] in *.
    split; cbn [outcome after events].
    + rewrite <- Em, M. unfold entries, tally in *.
      cbn [filter is_enter]. rewrite filter_app, length_app. lia.
    + unfold processed, tally in *.
      cbn [filter is_processing List.length].
      rewrite filter_app, length_app. lia.
    + cbn. now rewrite forallb_app, L2, E3.
    + now apply checked_item, checked_app.
    + cbn. rewrite calm_app, K2. cbn. destruct (seen t) eqn:S.
      * now apply S3, N2.
      * exact K3.
    + tauto.
    + cbn. rewrite seen_app. intros H. apply orb_true_iff in H as [H | H].
      * apply (drift_rises PD). now apply N2.
      * now apply N3.
    + intros _. exists false. eexists. split; [reflexivity | discriminate].
    + intros Hd. destruct (T3 Hd) as (-> & fs & Hfu & Hsub & Hf & Hsf & Hp).
      split; [reflexivity |].
      specialize (O2 (R2 Hd)). unfold w1 in O2. autorewrite with world in O2.
      unfold processed, tally in *.
      cbn [filter is_processing List.length].
      rewrite filter_app, length_app, P2.
      destruct O2 as [O2 | O2]; rewrite O2 in *; cbn in Hfu, Hf, Hsf.
      * exists fs. repeat split; auto.
        -- now apply subseq_skip.
        -- lia.
        -- intros H. right. right. right. apply in_or_app. right.
           apply Hp. cbn in H. lia.
      * exists (url :: fs). rewrite <- app_assoc in Hfu. repeat split; auto.
        -- now apply subseq_keep.
        -- cbn. lia.
        -- lia.
        -- intros H. right. right. right. apply in_or_app. right.
           apply Hp. cbn in H. lia.
Qed.

End Process.

(** ** The session around the loop *)

(** The events of [run] around the loop over the items, the summary apart. *)
Definition outer_event (ev : Event) : bool :=
  match ev with
  | Log _ (MsgRule _ _) | Log _ MsgStarting | Log _ (MsgUrlsToProcess _)
  | Log _ (MsgDownloadFolder _) | Log _ (MsgButtonSelector _)
  | Log _ (MsgBrowser _ _) | Log _ MsgLaunching | Log _ (MsgUsingCustom _)
  | Log _ MsgClosing | Log _ (MsgBrowserError _) => true
  | Do (Mkdir _) | Do StartPlaywright | Do (PathExists _) | Do (Launch _ _ _)
  | Do NewContext | Do NewPage | Do CloseContext | Do CloseBrowser
  | Do StopPlaywright => true
  | _ => false
  end.

Lemma outer_event_plain ev : outer_event ev = true -> plain ev = true.
Proof. destruct ev as [l [] | [] | [] [] | u a]; cbn; congruence. Qed.

Lemma outer_event_winding ev : outer_event ev = true -> winding ev = true.
Proof. destruct ev as [l [] | [] | [] [] | u a]; cbn; congruence. Qed.

(** The failed addresses as the summary lists them. *)
Definition reported (t : list Event) : list string :=
  flat_map (fun ev => match ev with
                      | Log _ (MsgFailedUrl u) => [u]
                      | _ => []
                      end) t.

Lemma reported_app t1 t2 : reported (t1 ++ t2) = reported t1 ++ reported t2.
Proof. apply flat_map_app. Qed.

Lemma reported_none p t :
  forallb p t = true ->
  (forall l u, p (Log l (MsgFailedUrl u)) = false) ->
  reported t = [].
Proof.
  intros H Hp. unfold reported. induction t as [| ev t IH]; cbn in *.
  - reflexivity.
  - apply andb_true_iff in H as [Hev Ht]. rewrite (IH Ht), app_nil_r.
    destruct ev as [l [] | c | q b | u a]; try reflexivity.
    now rewrite Hp in Hev.
Qed.

(** What [summarise] logs for given counts. *)
Definition summary_trace (total : nat) (l : Locals) : list Event :=
  [Log INFO (MsgRule "=" 50); Log INFO MsgSummary; Log INFO (MsgRule "=" 50);
   Log INFO (MsgTotals total (successful l) (failed l))]
  ++ match failed_urls l with
     | [] => []
     | _ :: _ =>
         Log INFO MsgFailedHeader
         :: map (fun u => Log INFO (MsgFailedUrl u)) (failed_urls l)
     end
  ++ [Log INFO (MsgRule "=" 50); Log INFO MsgDone].

Lemma reported_map urls :
  reported (map (fun u => Log INFO (MsgFailedUrl u)) urls) = urls.
Proof.
  unfold reported. induction urls as [| u urls IH]; cbn; [reflexivity |].
  now rewrite IH.
Qed.

Lemma reported_summary total l : reported (summary_trace total l) = failed_urls l.
Proof.
  unfold summary_trace. rewrite !reported_app. cbn.
  destruct (failed_urls l) as [| u fs]; cbn.
  - reflexivity.
  - now rewrite app_nil_r, reported_map.
Qed.

(** The events of the summary. *)
Definition summary_event (ev : Event) : bool :=
  match ev with
  | Log INFO (MsgRule _ _) | Log INFO MsgSummary | Log INFO (MsgTotals _ _ _)
  | Log INFO MsgFailedHeader | Log INFO (MsgFailedUrl _) | Log INFO MsgDone => true
  | _ => false
  end.

Lemma summary_event_plain ev : summary_event ev = true -> plain ev = true.
Proof. destruct ev as [[] [] | [] | [] [] | u a]; cbn; congruence. Qed.

Lemma summary_event_winding ev : summary_event ev = true -> winding ev = true.
Proof. destruct ev as [[] [] | [] | [] [] | u a]; cbn; congruence. Qed.

Lemma summary_events total l :
  forallb summary_event (summary_trace total l) = true.
Proof.
  unfold summary_trace. rewrite !forallb_app. cbn.
  destruct (failed_urls l) as [| u fs]; cbn; [reflexivity |].
  rewrite andb_true_r. induction fs as [| v fs IH]; cbn; auto.
Qed.

(** The first fault met while the browser is launched and a page opened. *)
Definition opening_fault (env : Env) : option Fault :=
  match launch (session env) with
  | Some e => Some e
  | None =>
      match new_context (session env) with
      | Some e => Some e
      | None => new_page (session env)
      end
  end.

(** The fault, if any, that keeps the session from starting. *)
Definition session_fault (env : Env) : option Fault :=
  match start_playwright (session env) with
  | Some e => Some e
  | None => opening_fault env
  end.

Section Session.

Variable env : Env.

Lemma log_failed_spec urls w :
  outcome (log_failed env urls w) = Ok tt
  /\ events (log_failed env urls w)
     = map (fun u => Log INFO (MsgFailedUrl u)) urls
  /\ locals (after (log_failed env urls w)) = locals w.
Proof.
  revert w. induction urls as [| u urls IH]; intros w; cbn.
  - auto.
  - unfold_monad. cbn. specialize (IH (interleave env w)).
    destruct (log_failed env urls (interleave env w)) as [o w' t].
    cbn in *. destruct IH as (-> & -> & Hl). autorewrite with world in Hl. auto.
Qed.

Lemma summarise_spec urls w :
  outcome (summarise env urls w) = Ok (successful (locals w), failed (locals w))
  /\ events (summarise env urls w) = summary_trace (List.length urls) (locals w)
  /\ locals (after (summarise env urls w)) = locals w.
Proof.
  unfold summarise, summary_trace. unfold_monad. cbn.
  autorewrite with world.
  destruct (failed_urls (locals w)) as [| u fs] eqn:E; cbn.
  - auto.
  - match goal with
    | |- context [log_failed env ?l ?w'] =>
        pose proof (log_failed_spec l w') as (Ho & He & Hl);
        destruct (log_failed env l w') as [o w'' t]
    end.
    cbn in *. subst o t. cbn [outcome events after].
    autorewrite with world in *. rewrite Hl. auto.
Qed.

Lemma open_browser_outcome settings w :
  outcome (open_browser env settings w)
  = match opening_fault env with
    | None => Ok tt
    | Some e => Raised e
    end.
Proof.
  unfold open_browser, opening_fault, ask, call, log. unfold_monad. cbn.
  destruct (truthy (custom_browser_path settings)); cbn;
    [destruct (path_exists env _); cbn |];
    destruct (launch (session env)); cbn; try reflexivity;
    destruct (new_context (session env)); cbn; try reflexivity;
    destruct (new_page (session env)); reflexivity.
Qed.

Lemma open_browser_emits settings :
  respects (emits outer_event) (open_browser env settings).
Proof.
  unfold open_browser.
  keeps_all (emits_refl outer_event) (@emits_trans outer_event).
Qed.

Lemma open_browser_steady settings : respects steady (open_browser env settings).
Proof. unfold open_browser. keeps_all steady_refl steady_trans. Qed.

Lemma open_browser_counted settings : respects counted (open_browser env settings).
Proof. unfold open_browser. keeps_all counted_refl counted_trans. Qed.

Lemma close_browser_session_emits :
  respects (emits outer_event) (close_browser_session env).
Proof.
  unfold close_browser_session.
  keeps_all (emits_refl outer_event) (@emits_trans outer_event).
Qed.

Lemma close_browser_session_steady : respects steady (close_browser_session env).
Proof. unfold close_browser_session. keeps_all steady_refl steady_trans. Qed.

Lemma announce_emits urls settings :
  respects (emits outer_event) (announce env urls settings).
Proof.
  unfold announce.
  keeps_all (emits_refl outer_event) (@emits_trans outer_event).
Qed.

Lemma announce_steady urls settings : respects steady (announce env urls settings).
Proof. unfold announce. keeps_all steady_refl steady_trans. Qed.

Lemma announce_counted urls settings : respects counted (announce env urls settings).
Proof. unfold announce. keeps_all counted_refl counted_trans. Qed.

Lemma announce_returns urls settings w :
  outcome (announce env urls settings w) = Ok tt.
Proof. reflexivity. Qed.

Lemma drift_any w t w' t' : drift env w t w' -> drift env w t' w'.
Proof. intros [H1 H2 H3 H4]. now split. Qed.

Variable urls : list string.
Variable settings : Settings.

(** What the guarded session guarantees from a world [w]: it never raises,
    and its trace is that of the loop over the items between events of the
    session itself, or, when the session does not start, those alone. *)
Record session_post (w : World) (r : Result unit) : Prop := {
  session_returns : outcome r = Ok tt;
  session_shape :
    exists pre p post,
      events r = pre ++ events p ++ post
      /\ forallb outer_event pre = true
      /\ forallb outer_event post = true
      /\ locals (after r) = locals (after p)
      /\ ((exists wp,
             session_fault env = None
             /\ p = process env settings (List.length urls) 1 urls wp
             /\ locals wp = locals w
             /\ attempts wp = attempts w
             /\ drift env w [] wp)
          \/ (exists e,
                session_fault env = Some e
                /\ p = {| outcome := Ok tt; after := w; events := [] |}
                /\ In (Log ERROR (MsgBrowserError (str e))) post))
}.

Lemma browse_guarded_spec w :
  session_post w (browse_guarded env urls settings w).
Proof.
  unfold browse_guarded, browse, session_fault, call, log. unfold_monad. cbn.
  destruct (start_playwright (session env)) as [e |] eqn:SP; cbn.
  { split; cbn [outcome after events]; [reflexivity |].
    exists [Do StartPlaywright], {| outcome := Ok tt; after := w; events := [] |},
      [Log ERROR (MsgBrowserError (str e))].
    cbn. autorewrite with world. repeat split.
    right. exists e. unfold session_fault. rewrite SP. auto. }
  set (w0 := interleave env w).
  pose proof (open_browser_outcome settings w0) as O1.
  pose proof (open_browser_emits settings w0) as E1.
  pose proof (open_browser_steady settings w0) as S1.
  pose proof (open_browser_counted settings w0) as N1.
  pose proof (open_browser_drifts env settings w0) as D1.
  destruct (open_browser env settings w0) as [o1 w1 t1].
  unfold emits, steady, counted in *. cbn [outcome after events] in *.
  destruct (opening_fault env) as [e |] eqn:OF; subst o1; cbn.
  { split; cbn [outcome after events]; [reflexivity |].
    exists (Do StartPlaywright :: t1),
      {| outcome := Ok tt; after := w; events := [] |},
      [Do StopPlaywright; Log ERROR (MsgBrowserError (str e))].
    cbn. autorewrite with world. rewrite S1. unfold w0.
    autorewrite with world. repeat split; auto.
    - now rewrite <- app_assoc.
    - right. exists e. unfold session_fault. rewrite SP, OF. cbn. auto. }
  set (n := List.length urls).
  pose proof (process_spec env settings n urls 1 w1) as P.
  pose proof (process_drifts env settings n 1 urls w1) as D2.
  destruct (process env settings n 1 urls w1) as [o2 w2 t2] eqn:E2.
  assert (Started : exists wp,
             session_fault env = None
             /\ {| outcome := o2; after := w2; events := t2 |}
                = process env settings n 1 urls wp
             /\ locals wp = locals w
             /\ attempts wp = attempts w
             /\ drift env w [] wp).
  { exists w1. unfold session_fault. rewrite SP, OF, S1.
    split; [reflexivity |]. split; [now rewrite E2 |].
    split; [reflexivity |]. split.
    - rewrite N1. unfold w0. autorewrite with world.
      unfold entries.
      rewrite (tally_none is_enter outer_event t1 E1); [lia |].
      intros ev Hev. apply outer_event_plain in Hev. unfold plain in Hev.
      destruct (is_enter ev); [discriminate | reflexivity].
    - apply (@drift_any w ([] ++ t1) w1 []).
      eapply drift_trans; [apply drift_interleave | exact D1]. }
  clear E2.
  destruct o2 as [[] | e]; cbn.
  2: { split; cbn [outcome after events]; [reflexivity |].
       exists (Do StartPlaywright :: t1),
         {| outcome := Raised e; after := w2; events := t2 |},
         [Do StopPlaywright; Log ERROR (MsgBrowserError (str e))].
       cbn [outcome after events]. autorewrite with world.
       split; [cbn [app]; now rewrite <- ?app_assoc |].
       split; [exact E1 |]. split; [reflexivity |]. split; [reflexivity |].
       left. exact Started. }
  pose proof (close_browser_session_emits w2) as E3.
  pose proof (close_browser_session_steady w2) as S3.
  destruct (close_browser_session env w2) as [o3 w3 t3].
  unfold emits, steady in *. cbn [outcome after events] in *.
  destruct o3 as [[] | e]; cbn.
  - split; cbn [outcome after events]; [reflexivity |].
    exists (Do StartPlaywright :: t1),
      {| outcome := Ok tt; after := w2; events := t2 |},
      (t3 ++ [Do StopPlaywright]).
    cbn [outcome after events]. autorewrite with world.
    split; [cbn [app]; now rewrite <- ?app_assoc |].
    split; [exact E1 |]. split; [now rewrite forallb_app, E3 |].
    split; [exact S3 |]. left. exact Started.
  - split; cbn [outcome after events]; [reflexivity |].
    exists (Do StartPlaywright :: t1),
      {| outcome := Ok tt; after := w2; events := t2 |},
      (t3 ++ [Do StopPlaywright; Log ERROR (MsgBrowserError (str e))]).
    cbn [outcome after events]. autorewrite with world.
    split; [cbn [app]; now rewrite <- ?app_assoc |].
    split; [exact E1 |]. split; [now rewrite forallb_app, E3 |].
    split; [exact S3 |]. left. exact Started.
Qed.

End Session.

(** ** The whole run *)

(** The counts as [run] initialises them. *)
Definition zero : Locals := {| successful := 0; failed := 0; failed_urls := [] |}.

Section Run.

Variable env : Env.
Variable urls : list string.
Variable settings : Settings.

(** The engine as [run] leaves it after its first two assignments, and the
    world after [prepare] when the folder can be made. *)
Definition reset_world (w : World) : World :=
  with_engine (fun e => {| is_running := is_running e; should_stop := false |})
    (interleave env
       (with_engine (fun e => {| is_running := true; should_stop := should_stop e |})
          (interleave env w))).

Definition prepared (w : World) : World :=
  with_locals (fun _ => zero) (interleave env (reset_world w)).

Lemma prepare_spec w :
  mkdir (session env) = None ->
  prepare env settings w
  = {| outcome := Ok tt; after := prepared w;
       events := [Do (Mkdir (download_folder settings))] |}.
Proof.
  intros H. unfold prepare, set_is_running, set_should_stop, call.
  unfold_monad. cbn. rewrite H. reflexivity.
Qed.

Lemma prepare_fails w e :
  mkdir (session env) = Some e ->
  prepare env settings w
  = {| outcome := Raised e; after := interleave env (reset_world w);
       events := [Do (Mkdir (download_folder settings))] |}.
Proof.
  intros H. unfold prepare, set_is_running, set_should_stop, call.
  unfold_monad. cbn. rewrite H. reflexivity.
Qed.

Lemma locals_prepared w : locals (prepared w) = zero.
Proof. reflexivity. Qed.

Lemma attempts_prepared w : attempts (prepared w) = attempts w.
Proof. reflexivity. Qed.

Lemma should_stop_prepared w :
  should_stop (engine (prepared w)) = stop_at env (S (S (steps w))).
Proof.
  unfold prepared, reset_world. autorewrite with world.
  rewrite engine_interleave, should_stop_control.
  autorewrite with world. cbn. apply orb_false_r.
Qed.

(** What [run] does when the download folder can be made: the trace of the
    loop over the items ([p]), between events of the session, followed by
    the summary of the counts the loop left. *)
Lemma run_shape w :
  mkdir (session env) = None ->
  exists pre p post,
    events (run env urls settings w)
    = pre ++ events p ++ post
      ++ summary_trace (List.length urls) (locals (after p))
    /\ forallb outer_event pre = true
    /\ forallb outer_event post = true
    /\ outcome (run env urls settings w)
       = Ok (successful (locals (after p)), failed (locals (after p)))
    /\ locals (after (run env urls settings w)) = locals (after p)
    /\ ((exists wp,
           session_fault env = None
           /\ p = process env settings (List.length urls) 1 urls wp
           /\ locals wp = zero
           /\ attempts wp = attempts w
           /\ drift env (prepared w) [] wp)
        \/ (exists e,
              session_fault env = Some e
              /\ events p = []
              /\ locals (after p) = zero
              /\ In (Log ERROR (MsgBrowserError (str e))) post)).
Proof.
  intros Hm. unfold run. unfold_monad. rewrite (prepare_spec w Hm).
  pose proof (announce_emits env urls settings (prepared w)) as EA.
  pose proof (announce_steady env urls settings (prepared w)) as SA.
  pose proof (announce_counted env urls settings (prepared w)) as NA.
  pose proof (announce_drifts env urls settings (prepared w)) as DA.
  pose proof (announce_returns env urls settings (prepared w)) as RA.
  destruct (announce env urls settings (prepared w)) as [oa wa ta].
  unfold emits, steady, counted in *. cbn [outcome after events] in *.
  subst oa.
  pose proof (browse_guarded_spec env urls settings wa) as [RB SB].
  destruct (browse_guarded env urls settings wa) as [ob wb tb].
  cbn [outcome after events] in *. subst ob.
  destruct SB as (pre & p & post & -> & Epre & Epost & Lb & Cases).
  pose proof (summarise_spec env urls wb) as (OS & ES & LS).
  destruct (summarise env urls wb) as [os ws ts].
  cbn [outcome after events] in *. subst os ts.
  rewrite Lb in *.
  exists (Do (Mkdir (download_folder settings)) :: ta ++ pre), p, post.
  split; [cbn [app]; now rewrite <- !app_assoc |].
  split; [cbn; now rewrite forallb_app, EA, Epre |].
  split; [exact Epost |]. split; [reflexivity |]. split; [exact LS |].
  destruct Cases as [(wp & F & Hp & Lp & Ap & Dp) | (e & F & Hp & Hin)].
  - left. exists wp.
    split; [exact F |]. split; [exact Hp |].
    split; [now rewrite Lp, SA |]. split.
    + rewrite Ap, NA. unfold entries.
      rewrite (tally_none is_enter outer_event ta EA);
        [rewrite attempts_prepared; lia |].
      intros ev Hev. apply outer_event_plain in Hev. unfold plain in Hev.
      destruct (is_enter ev); [discriminate | reflexivity].
    + apply (@drift_any env (prepared w) (ta ++ []) wp []).
      eapply drift_trans; eassumption.
  - right. exists e. subst p. cbn. repeat split; auto.
Qed.

End Run.

(** ** Reading the trace of a run *)

Lemma outer_quiet t :
  forallb outer_event t = true ->
  entries t = 0%nat /\ processed t = 0%nat /\ checked t
  /\ calm t = true /\ seen t = false /\ forallb winding t = true.
Proof.
  intros H.
  assert (Hp : forallb plain t = true).
  { revert H. apply forallb_impl, outer_event_plain. }
  destruct (plain_quiet t Hp) as (H1 & H2 & H3 & H4 & H5).
  repeat split; auto.
  revert H. apply forallb_impl, outer_event_winding.
Qed.

(** A trace the watcher accepts has a clear read of the flag right before
    each attempt. *)
Lemma watches_attempt_polled t s :
  watches t s = AttemptPolled ->
  (t = [] /\ s = AttemptPolled) \/ exists t0, t = t0 ++ [Poll AtAttempt false].
Proof.
  induction t as [| x t' _] using rev_ind; cbn.
  - auto.
  - intros H. right. unfold watches in H. rewrite fold_left_app in H. cbn in H.
    exists t'. f_equal.
    destruct x as [l [] | c | [] [] | u a];
      destruct (fold_left watch t' s); cbn in H; congruence.
Qed.

Lemma watches_item_polled t s :
  watches t s = ItemPolled ->
  (t = [] /\ s = ItemPolled) \/ exists t0, t = t0 ++ [Poll AtItem false].
Proof.
  induction t as [| x t' _] using rev_ind; cbn.
  - auto.
  - intros H. right. unfold watches in H. rewrite fold_left_app in H. cbn in H.
    exists t'. f_equal.
    destruct x as [l [] | c | [] [] | u a];
      destruct (fold_left watch t' s); cbn in H; congruence.
Qed.

Lemma watches_item_ruled t s :
  watches t s = ItemRuled ->
  (t = [] /\ s = ItemRuled)
  \/ exists t0 l c n, t = t0 ++ [Log l (MsgRule c n)] /\ watches t0 s = ItemPolled.
Proof.
  induction t as [| x t' _] using rev_ind; cbn.
  - auto.
  - intros H. right. unfold watches in *. rewrite fold_left_app in H. cbn in H.
    destruct x as [l [] | c | [] [] | u a];
      destruct (fold_left watch t' s) eqn:E; cbn in H; try congruence.
    do 4 eexists. split; [reflexivity | exact E].
Qed.

Lemma checked_enter t t1 u a t2 :
  checked t -> t = t1 ++ Enter u a :: t2 ->
  exists t0, t1 = t0 ++ [Poll AtAttempt false].
Proof.
  intros H ->. specialize (H Idle). rewrite watches_app in H. cbn in H.
  destruct (watches t1 Idle) eqn:E; cbn in H;
    try (rewrite watches_broken in H; exfalso; apply H; congruence).
  apply watches_attempt_polled in E as [[_ E] | E]; [discriminate | exact E].
Qed.

Lemma checked_processing t t1 l i n t2 :
  checked t -> t = t1 ++ Log l (MsgProcessing i n) :: t2 ->
  exists t0 l' c k, t1 = t0 ++ [Poll AtItem false; Log l' (MsgRule c k)].
Proof.
  intros H ->. specialize (H Idle). rewrite watches_app in H. cbn in H.
  destruct (watches t1 Idle) eqn:E; cbn in H;
    try (rewrite watches_broken in H; exfalso; apply H; congruence).
  apply watches_item_ruled in E as [[_ E] | (t0 & l' & c & k & -> & E)];
    [discriminate |].
  apply watches_item_polled in E as [[_ E] | (t00 & ->)]; [discriminate |].
  exists t00, l', c, k. now rewrite <- app_assoc.
Qed.

Lemma calm_split t t1 c t2 :
  calm t = true -> t = t1 ++ Poll c true :: t2 -> forallb winding t2 = true.
Proof.
  intros H ->. induction t1 as [| ev t1 IH]; cbn in H.
  - exact H.
  - destruct (is_stop_seen ev).
    + rewrite forallb_app in H. apply andb_true_iff in H as [_ H].
      cbn in H. exact H.
    + auto.
Qed.

Lemma winding_quiet t :
  forallb winding t = true -> entries t = 0%nat /\ processed t = 0%nat.
Proof.
  intros H. split.
  - apply (tally_none is_enter winding t H).
    intros ev. destruct ev as [l [] | [] | [] [] | u a]; cbn; congruence.
  - apply (tally_none is_processing winding t H).
    intros ev. destruct ev as [l [] | [] | [] [] | u a]; cbn; congruence.
Qed.

Lemma find_app A (f : A -> bool) l1 l2 :
  find f (l1 ++ l2) = match find f l1 with
                      | Some x => Some x
                      | None => find f l2
                      end.
Proof.
  induction l1 as [| x l1 IH]; cbn; [reflexivity |].
  now destruct (f x).
Qed.

Lemma find_plain t : forallb plain t = true -> find is_poll t = None.
Proof.
  induction t as [| ev t IH]; cbn; [reflexivity |].
  intros H. apply andb_true_iff in H as [Hev Ht].
  unfold plain in Hev. destruct (is_poll ev).
  - now rewrite !orb_true_r in Hev.
  - auto.
Qed.

Lemma loop_event_not_reported l u : loop_event (Log l (MsgFailedUrl u)) = false.
Proof. now destruct l. Qed.

Section RunReading.

Variable env : Env.
Variable urls : list string.
Variable settings : Settings.

Lemma run_aborted w e :
  mkdir (session env) = Some e ->
  run env urls settings w
  = {| outcome := Raised e; after := interleave env (reset_world env w);
       events := [Do (Mkdir (download_folder settings))] |}.
Proof.
  intros H. unfold run. unfold_monad. now rewrite (prepare_fails env settings w H).
Qed.

(** The trace of a run read through the trace of its loop. *)
Lemma run_reading w :
  mkdir (session env) = None ->
  exists p,
    entries (events (run env urls settings w)) = entries (events p)
    /\ processed (events (run env urls settings w)) = processed (events p)
    /\ (reported (events p) = [] ->
        reported (events (run env urls settings w)) = failed_urls (locals (after p)))
    /\ (checked (events p) -> checked (events (run env urls settings w)))
    /\ (calm (events p) = true -> calm (events (run env urls settings w)) = true)
    /\ find is_poll (events (run env urls settings w)) = find is_poll (events p)
    /\ (forall ev, In ev (events p) -> In ev (events (run env urls settings w)))
    /\ In (Log INFO (MsgTotals (List.length urls)
                       (successful (locals (after p)))
                       (failed (locals (after p)))))
          (events (run env urls settings w))
    /\ outcome (run env urls settings w)
       = Ok (successful (locals (after p)), failed (locals (after p)))
    /\ locals (after (run env urls settings w)) = locals (after p)
    /\ ((exists wp,
           session_fault env = None
           /\ p = process env settings (List.length urls) 1 urls wp
           /\ locals wp = zero
           /\ attempts wp = attempts w
           /\ drift env (prepared env w) [] wp)
        \/ (exists e,
              session_fault env = Some e
              /\ events p = []
              /\ locals (after p) = zero
              /\ In (Log ERROR (MsgBrowserError (str e)))
                    (events (run env urls settings w)))).
Proof.
  intros Hm.
  destruct (run_shape env urls settings w Hm)
    as (pre & p & post & -> & Epre & Epost & -> & -> & Cases).
  destruct (outer_quiet pre Epre) as (N1 & P1 & C1 & K1 & S1 & W1).
  destruct (outer_quiet post Epost) as (N2 & P2 & C2 & K2 & S2 & W2).
  pose proof (summary_events (List.length urls) (locals (after p))) as Es.
  assert (Ps : forallb plain (summary_trace (List.length urls) (locals (after p))) = true).
  { revert Es. apply forallb_impl, summary_event_plain. }
  assert (Ws : forallb winding (summary_trace (List.length urls) (locals (after p))) = true).
  { revert Es. apply forallb_impl, summary_event_winding. }
  destruct (plain_quiet _ Ps) as (N3 & P3 & C3 & K3 & S3).
  exists p. unfold entries, processed in *.
  rewrite !tally_app, N1, N2, N3, P1, P2, P3.
  split; [lia |]. split; [lia |]. split.
  { intros Hr. rewrite !reported_app, Hr, reported_summary.
    rewrite (reported_none outer_event pre Epre), (reported_none outer_event post Epost);
      auto. }
  split.
  { intros Hc. apply checked_app; [exact C1 |].
    apply checked_app; [exact Hc |]. apply checked_app; [exact C2 | exact C3]. }
  split.
  { intros Hk. rewrite !calm_app, K1, S1, Hk, K2, S2, K3, !forallb_app, W2, Ws.
    now destruct (seen (events p)). }
  split.
  { rewrite !find_app.
    rewrite (find_plain pre), (find_plain post), (find_plain _ Ps).
    - now destruct (find is_poll (events p)).
    - revert Epost. apply forallb_impl, outer_event_plain.
    - revert Epre. apply forallb_impl, outer_event_plain. }
  split.
  { intros ev Hev. apply in_or_app. right. apply in_or_app. now left. }
  split.
  { apply in_or_app. right. apply in_or_app. right. apply in_or_app. right.
    unfold summary_trace. cbn. auto. }
  split; [reflexivity |]. split; [reflexivity |].
  destruct Cases as [Started | (e & F & Hp & Hl & Hin)].
  - left. exact Started.
  - right. exists e. repeat split; auto.
    apply in_or_app. right. apply in_or_app. right. apply in_or_app. now left.
Qed.

End RunReading.

(** ** The first reads of the flag *)

Section FirstRead.

Variable env : Env.

(** What holds between two worlds when, in between, the worker has not
    written to the engine object: the flag is set at the end exactly when
    it was set at the beginning or a [stop()] came at one of the steps in
    between. *)
Definition heard (w : World) (t : list Event) (w' : World) : Prop :=
  (steps w <= steps w')%nat
  /\ (should_stop (engine w') = true
      <-> should_stop (engine w) = true
          \/ exists k, (steps w <= k < steps w')%nat /\ stop_at env k = true).

Lemma heard_refl w : heard w [] w.
Proof.
  split; [lia |]. split; [now left |].
  intros [H | (k & Hk & _)]; [exact H | lia].
Qed.

Lemma heard_trans a t1 b t2 c :
  heard a t1 b -> heard b t2 c -> heard a (t1 ++ t2) c.
Proof.
  intros (S1 & I1) (S2 & I2). split; [lia |]. split.
  - intros H. apply I2 in H as [H | (k & Hk & St)].
    + apply I1 in H as [H | (k & Hk & St)]; [now left |].
      right. exists k. split; [lia | exact St].
    + right. exists k. split; [lia | exact St].
  - intros [H | (k & Hk & St)].
    + apply I2. left. apply I1. now left.
    + destruct (Nat.lt_ge_cases k (steps b)) as [Lt | Ge].
      * apply I2. left. apply I1. right. exists k. split; [lia | exact St].
      * apply I2. right. exists k. split; [lia | exact St].
Qed.

Lemma heard_any w t w' t' : heard w t w' -> heard w t' w'.
Proof. exact (fun H => H). Qed.

Lemma heard_interleave w t : heard w t (interleave env w).
Proof.
  unfold heard. rewrite steps_interleave, engine_interleave, should_stop_control.
  split; [lia |]. split.
  - intros H. apply orb_true_iff in H as [H | H]; [| now left].
    right. exists (steps w). split; [lia | exact H].
  - intros [H | (k & Hk & St)]; [rewrite H; apply orb_true_r |].
    assert (k = steps w) as -> by lia. now rewrite St.
Qed.

Lemma emit_heard ev : respects heard (emit env ev).
Proof. intro w. apply heard_interleave. Qed.

Lemma log_heard level msg : respects heard (log env level msg).
Proof. apply emit_heard. Qed.

Lemma ret_heard A (a : A) : respects heard (ret a).
Proof. intro w. apply heard_refl. Qed.

Lemma raise_heard A (e : Fault) : respects heard (@raise A e).
Proof. intro w. apply heard_refl. Qed.

Hint Resolve emit_heard log_heard ret_heard raise_heard : keeps.

Lemma call_heard c answer : respects heard (call env c answer).
Proof. unfold call. keeps heard_refl heard_trans. Qed.

Lemma ask_heard A c (answer : Fault + A) : respects heard (ask env c answer).
Proof. unfold ask. keeps heard_refl heard_trans. Qed.

Hint Resolve call_heard ask_heard : keeps.

Lemma announce_heard urls settings :
  respects heard (announce env urls settings).
Proof. unfold announce. keeps heard_refl heard_trans. Qed.

Lemma open_browser_heard settings : respects heard (open_browser env settings).
Proof. unfold open_browser. keeps heard_refl heard_trans. Qed.

Variable urls : list string.
Variable settings : Settings.

(** The world in which the loop over the items begins, when the folder can
    be made and the session opens. *)
Definition loop_world (w : World) : World :=
  after (open_browser env settings
           (interleave env (after (announce env urls settings (prepared env w))))).

(** The worker's step at which the loop first reads the flag (line 165),
    when the session opens.  From the start of [run]: the two assignments
    to the flags, [makedirs], seven lines of the opening, the start of
    Playwright, the line about the launch, the test of the custom path if
    there is one and the line that says it is used, the launch, the context
    and the page. *)
Definition first_check (w : World) : nat :=
  steps w + 15
  + (if truthy (custom_browser_path settings)
     then if path_exists env (custom_browser_path settings) then 2 else 1
     else 0).

Lemma first_check_after w : (steps w + 15 <= first_check w)%nat.
Proof.
  unfold first_check.
  destruct (truthy _); [destruct (path_exists _ _) |]; lia.
Qed.

Lemma steps_prepared w : steps (prepared env w) = S (S (S (steps w))).
Proof. reflexivity. Qed.

Lemma steps_loop_world w :
  session_fault env = None -> steps (loop_world w) = first_check w.
Proof.
  unfold session_fault, opening_fault. intros F.
  destruct (start_playwright (session env)); [discriminate |].
  destruct (launch (session env)) eqn:L; [discriminate |].
  destruct (new_context (session env)) eqn:C; [discriminate |].
  unfold loop_world, first_check, open_browser, announce, ask, call, log.
  unfold_monad. cbn.
  destruct (truthy (custom_browser_path settings)); cbn;
    [destruct (path_exists env (custom_browser_path settings)); cbn |];
    rewrite L; cbn; rewrite C; cbn; rewrite F; cbn;
    rewrite !steps_interleave, steps_prepared; lia.
Qed.

Lemma locals_loop_world w : locals (loop_world w) = zero.
Proof.
  unfold loop_world.
  rewrite (open_browser_steady env settings _).
  rewrite locals_interleave.
  now rewrite (announce_steady env urls settings _).
Qed.

Lemma loop_heard w : heard (prepared env w) [] (interleave env (loop_world w)).
Proof.
  unfold loop_world. eapply heard_any.
  eapply heard_trans;
    [eapply heard_trans;
       [apply (announce_heard urls settings (prepared env w))
       | apply heard_interleave with (t := [])]
    | eapply heard_trans;
        [apply open_browser_heard | apply heard_interleave with (t := [])]].
Qed.

(** A [stop()] between the clearing of the flag and the loop's first read
    of it is found by that read. *)
Lemma first_read_hears w k :
  session_fault env = None ->
  (S (S (steps w)) <= k <= first_check w)%nat ->
  stop_at env k = true ->
  should_stop (engine (interleave env (loop_world w))) = true.
Proof.
  intros F Hk St. destruct (loop_heard w) as (_ & I).
  rewrite steps_interleave, (steps_loop_world w F), steps_prepared in I.
  apply I. destruct (Nat.eq_dec k (S (S (steps w)))) as [-> | Ne].
  - left. now rewrite should_stop_prepared.
  - right. exists k. split; [lia | exact St].
Qed.

(** And with no [stop()] in between, that read finds the flag clear. *)
Lemma first_read_clear w :
  session_fault env = None ->
  (forall j, (S (S (steps w)) <= j <= first_check w)%nat ->
             stop_at env j = false) ->
  should_stop (engine (interleave env (loop_world w))) = false.
Proof.
  intros F Hno. destruct (loop_heard w) as (_ & I).
  pose proof (first_check_after w) as Hfc.
  rewrite steps_interleave, (steps_loop_world w F), steps_prepared in I.
  destruct (should_stop (engine (interleave env (loop_world w)))); [| reflexivity].
  destruct (proj1 I eq_refl) as [H | (k & Hk & St)].
  - rewrite should_stop_prepared, Hno in H by lia. discriminate.
  - rewrite Hno in St by lia. discriminate.
Qed.

(** A [stop()] after the loop's first read of the flag and before the read
    that precedes the first attempt (the lines "----" and "Processing URL"
    come in between) is found by the latter. *)
Lemma attempt_read_hears w k :
  session_fault env = None ->
  (first_check w < k <= first_check w + 3)%nat ->
  stop_at env k = true ->
  should_stop
    (engine (interleave env (interleave env (interleave env
               (interleave env (loop_world w)))))) = true.
Proof.
  intros F Hk St.
  set (w1 := interleave env (loop_world w)).
  assert (H : heard w1 [] (interleave env (interleave env (interleave env w1)))).
  { eapply heard_any.
    eapply heard_trans;
      [apply heard_interleave with (t := [])
      | eapply heard_trans; apply heard_interleave with (t := [])]. }
  destruct H as (_ & I). apply I. right. exists k.
  split; [| exact St].
  unfold w1. rewrite !steps_interleave, (steps_loop_world w F). lia.
Qed.

Lemma process_first_read total index u us w :
  exists t,
    events (process env settings total index (u :: us) w)
    = Poll AtItem (should_stop (engine (interleave env w))) :: t.
Proof.
  cbn [process]. unfold bind at 1. unfold read_should_stop at 1.
  cbn [outcome after events].
  match goal with
  | |- context [match ?x with _ => _ end] => destruct x as [o w' t]
  end.
  cbn. eauto.
Qed.

(** An item whose first read of the flag finds it set: no attempt is made
    and the item is counted as failed. *)
Lemma item_stopped_before_attempt total index u w :
  0 <= max_retries settings ->
  should_stop (engine (interleave env (interleave env (interleave env w))))
  = true ->
  let r := item env settings total index u w in
  outcome r = Ok tt
  /\ locals (after r) = count_failure u (locals w)
  /\ should_stop (engine (after r)) = true
  /\ entries (events r) = 0%nat.
Proof.
  intros Hr H r. subst r.
  unfold item. rewrite (@range_cons 1 (max_retries settings + 2)) by lia.
  cbn [retry]. unfold pause_after_item, log. unfold_monad.
  cbn [outcome after events]. rewrite H. cbn [outcome after events app].
  destruct (index <? total)%nat; cbn [outcome after events app].
  - rewrite engine_interleave, should_stop_control, engine_with_locals, H,
      orb_true_r.
    cbn. repeat split.
    now rewrite engine_interleave, should_stop_control, engine_with_locals, H,
      orb_true_r.
  - cbn. repeat split. now rewrite engine_with_locals.
Qed.

(** The loop over the items when the first read of the flag finds it clear
    and the read before the first attempt finds it set. *)
Lemma process_stopped_before_attempt total index u us w :
  0 <= max_retries settings ->
  should_stop (engine (interleave env w)) = false ->
  should_stop
    (engine (interleave env (interleave env (interleave env (interleave env w)))))
  = true ->
  let r := process env settings total index (u :: us) w in
  outcome r = Ok tt
  /\ locals (after r) = count_failure u (locals w)
  /\ entries (events r) = 0%nat.
Proof.
  intros Hr H0 H r. subst r.
  set (P := fun r : Result unit =>
              outcome r = Ok tt
              /\ locals (after r) = count_failure u (locals w)
              /\ entries (events r) = 0%nat).
  change (P (process env settings total index (u :: us) w)).
  cbn [process]. unfold bind at 1. unfold read_should_stop at 1.
  lazy beta zeta. rewrite H0. lazy beta iota.
  unfold bind at 1.
  destruct (item_stopped_before_attempt total index u (interleave env w) Hr H)
    as (O & L & F & E).
  destruct (item env settings total index u (interleave env w)) as [o w1 t1].
  cbn [outcome after events] in *. subst o.
  rewrite locals_interleave in L.
  assert (E' : forall t, entries (Poll AtItem false :: t1 ++ t) = entries t).
  { intros t. unfold entries in *.
    change (Poll AtItem false :: t1 ++ t) with ([Poll AtItem false] ++ t1 ++ t).
    now rewrite !tally_app, E. }
  destruct us as [| u' us'].
  - cbn [process]. unfold ret. unfold P. cbn [outcome after events app].
    split; [reflexivity |]. split; [exact L |]. now rewrite E'.
  - cbn [process]. unfold bind at 1. unfold read_should_stop at 1.
    lazy beta zeta.
    rewrite engine_interleave, should_stop_control, F, orb_true_r.
    unfold log, emit. unfold P. cbn [outcome after events app].
    rewrite !locals_interleave.
    split; [reflexivity |]. split; [exact L |]. now rewrite E'.
Qed.

End FirstRead.

Section RunStarted.

Variable env : Env.
Variable urls : list string.
Variable settings : Settings.

Lemma browse_guarded_started w :
  session_fault env = None ->
  let p := process env settings (List.length urls) 1 urls
             (after (open_browser env settings (interleave env w))) in
  exists pre post,
    events (browse_guarded env urls settings w) = pre ++ events p ++ post
    /\ forallb outer_event pre = true
    /\ forallb outer_event post = true
    /\ locals (after (browse_guarded env urls settings w)) = locals (after p).
Proof.
  intros F p. subst p.
  pose proof (open_browser_outcome env settings (interleave env w)) as O1.
  pose proof (open_browser_emits env settings (interleave env w)) as E1.
  unfold session_fault in F.
  unfold browse_guarded, browse, call, log. unfold_monad. cbn.
  destruct (start_playwright (session env)) as [e |]; [discriminate |]. cbn.
  rewrite F in O1.
  destruct (open_browser env settings (interleave env w)) as [o1 w1 t1].
  unfold emits in E1. cbn [outcome after events] in *. subst o1.
  destruct (process env settings (List.length urls) 1 urls w1)
    as [[[] | e] w2 t2]; cbn [outcome after events].
  - pose proof (close_browser_session_emits env w2) as E3.
    pose proof (close_browser_session_steady env w2) as S3.
    destruct (close_browser_session env w2) as [[[] | e] w3 t3];
      unfold emits, steady in *; cbn [outcome after events] in *.
    + exists (Do StartPlaywright :: t1), (t3 ++ [Do StopPlaywright]).
      autorewrite with world.
      split; [cbn [app]; now rewrite <- ?app_assoc |].
      split; [exact E1 |]. split; [now rewrite forallb_app, E3 | exact S3].
    + exists (Do StartPlaywright :: t1),
        (t3 ++ [Do StopPlaywright; Log ERROR (MsgBrowserError (str e))]).
      autorewrite with world.
      split; [cbn [app]; now rewrite <- ?app_assoc |].
      split; [exact E1 |]. split; [now rewrite forallb_app, E3 | exact S3].
  - exists (Do StartPlaywright :: t1),
      [Do StopPlaywright; Log ERROR (MsgBrowserError (str e))].
    autorewrite with world.
    split; [cbn [app]; now rewrite <- ?app_assoc |].
    split; [exact E1 |]. split; reflexivity.
Qed.

(** A run whose folder can be made and whose session opens, read through
    the loop over the items from the world in which it begins. *)
Lemma run_started w :
  mkdir (session env) = None ->
  session_fault env = None ->
  let p := process env settings (List.length urls) 1 urls
             (loop_world env urls settings w) in
  entries (events (run env urls settings w)) = entries (events p)
  /\ find is_poll (events (run env urls settings w)) = find is_poll (events p)
  /\ outcome (run env urls settings w)
     = Ok (successful (locals (after p)), failed (locals (after p)))
  /\ locals (after (run env urls settings w)) = locals (after p).
Proof.
  intros Hm F p. subst p. unfold loop_world.
  unfold run. unfold_monad. rewrite (prepare_spec env settings w Hm).
  pose proof (announce_emits env urls settings (prepared env w)) as EA.
  pose proof (announce_returns env urls settings (prepared env w)) as RA.
  destruct (announce env urls settings (prepared env w)) as [oa wa ta].
  unfold emits in EA. cbn [outcome after events] in *. subst oa.
  destruct (browse_guarded_started wa F) as (pre & post & E & Epre & Epost & L).
  pose proof (session_returns (browse_guarded_spec env urls settings wa)) as RB.
  destruct (browse_guarded env urls settings wa) as [ob wb tb].
  cbn [outcome after events] in *. subst ob tb.
  pose proof (summarise_spec env urls wb) as (OS & ES & LS).
  destruct (summarise env urls wb) as [os ws ts].
  cbn [outcome after events] in *. subst os ts.
  set (p := process env settings (List.length urls) 1 urls
              (after (open_browser env settings (interleave env wa)))) in *.
  destruct (outer_quiet ta EA) as (N0 & _ & _ & _ & _ & _).
  destruct (outer_quiet pre Epre) as (N1 & _ & _ & _ & _ & _).
  destruct (outer_quiet post Epost) as (N2 & _ & _ & _ & _ & _).
  pose proof (summary_events (List.length urls) (locals wb)) as Es.
  assert (Ps : forallb plain (summary_trace (List.length urls) (locals wb)) = true).
  { revert Es. apply forallb_impl, summary_event_plain. }
  destruct (plain_quiet _ Ps) as (N3 & _).
  split.
  { unfold entries in *. cbn [app]. unfold tally at 1. cbn [filter is_enter].
    fold (tally is_enter (ta ++ (pre ++ events p ++ post)
                          ++ summary_trace (List.length urls) (locals wb))).
    rewrite !tally_app, N0, N1, N2, N3. lia. }
  split.
  { cbn [app find is_poll]. rewrite !find_app.
    rewrite (find_plain ta), (find_plain pre), (find_plain post), (find_plain _ Ps).
    - now destruct (find is_poll (events p)).
    - revert Epost. apply forallb_impl, outer_event_plain.
    - revert Epre. apply forallb_impl, outer_event_plain.
    - revert EA. apply forallb_impl, outer_event_plain. }
  rewrite <- L. split; [reflexivity | exact LS].
Qed.

End RunStarted.

(** When the session opens, the first read of the flag in the trace of a
    run over a job that is not empty is the one the loop makes before its
    first item. *)
Lemma run_first_read env settings u us w :
  mkdir (session env) = None ->
  session_fault env = None ->
  find is_poll (events (run env (u :: us) settings w))
  = Some (Poll AtItem
            (should_stop
               (engine (interleave env (loop_world env (u :: us) settings w))))).
Proof.
  intros Hm F.
  destruct (@run_started env (u :: us) settings w Hm F) as (_ & Fi & _). rewrite Fi.
  destruct (process_first_read env settings (List.length (u :: us)) 1 u us
              (loop_world env (u :: us) settings w)) as (t & ->).
  reflexivity.
Qed.

(** * The claims *)

(** ** Tally of a run *)


(** ** Cancellation *)

Lemma run_monitored env urls settings w :
  checked (events (run env urls settings w))
  /\ calm (events (run env urls settings w)) = true.
Proof.
  destruct (mkdir (session env)) as [e |] eqn:Hm.
  - rewrite (run_aborted env urls settings w Hm). cbn. split; [| reflexivity].
    intros s Hs. destruct s; cbn; congruence.
  - destruct (run_reading env urls settings w Hm)
      as (p & _ & _ & _ & Hc & Hk & _ & _ & _ & _ & _ & Cases).
    destruct Cases as [(wp & _ & -> & _) | (e & _ & Ep & _)].
    + destruct (process_spec env settings (List.length urls) urls 1 wp)
        as [_ _ _ C K _ _ _ _].
      auto.
    + rewrite Ep in *. split; [apply Hc, checked_nil | now apply Hk].
Qed.

(** Claim C2, as amended.  The flag is read before each attempt (the first
    of an item and the later ones) and before each item: in the trace of
    every run an attempt is entered only right after a read at [AtAttempt]
    that found the flag clear, and an item is started only after such a read
    at [AtItem].  Once a read has found the flag set the run only winds
    down: no later attempt, item or wait.  In particular, when [stop()]
    comes after [run] has cleared the flag and before the read of the flag
    that precedes the first attempt, no attempt is made (the retry count
    not being negative, so that this read takes place).  When it comes
    before the loop's first read of the flag (line 165), that is at one of
    the worker's steps from [steps w + 2] to [first_check env settings w],
    or at any moment that makes that first read find the flag set, the
    result is zero successes, zero failures and no failed address.  When it
    first comes after that read, at one of the three steps up to the read
    before the first attempt (line 175), the first item is counted as
    failed without an attempt: zero successes, one failure, its address the
    one failed address. *)
Theorem stop_is_observed (env : Env) (urls : list string)
    (settings : Settings) (w : World) :
  let r := run env urls settings w in
  let first := first_check env settings w in
  (forall t1 u a t2,
      events r = t1 ++ Enter u a :: t2 ->
      exists t0, t1 = t0 ++ [Poll AtAttempt false])
  /\ (forall t1 l i n t2,
        events r = t1 ++ Log l (MsgProcessing i n) :: t2 ->
        exists t0 l' c k, t1 = t0 ++ [Poll AtItem false; Log l' (MsgRule c k)])
  /\ (forall t1 c t2,
        events r = t1 ++ Poll c true :: t2 ->
        forallb winding t2 = true
        /\ entries t2 = 0%nat /\ processed t2 = 0%nat)
  /\ ((exists k, (S (S (steps w)) <= k <= first)%nat /\ stop_at env k = true)
      \/ find is_poll (events r) = Some (Poll AtItem true) ->
      entries (events r) = 0%nat
      /\ (mkdir (session env) = None ->
          outcome r = Ok (0%nat, 0%nat)
          /\ locals (after r) = zero
          /\ reported (events r) = []))
  /\ (forall k,
        (first < k <= first + 3)%nat ->
        stop_at env k = true ->
        0 <= max_retries settings ->
        entries (events r) = 0%nat
        /\ (forall u us,
              urls = u :: us ->
              mkdir (session env) = None ->
              session_fault env = None ->
              (forall j, (S (S (steps w)) <= j <= first)%nat ->
                         stop_at env j = false) ->
              outcome r = Ok (0%nat, 1%nat)
              /\ locals (after r) = count_failure u zero
              /\ reported (events r) = [u])).
Proof.
  intros r first. subst r first.
  destruct (run_monitored env urls settings w) as [C K].
  split; [intros; eapply checked_enter; eauto |].
  split; [intros; eapply checked_processing; eauto |].
  split.
  { intros t1 c t2 E. pose proof (calm_split _ _ _ K E) as W.
    split; [exact W | now apply winding_quiet]. }
  destruct (mkdir (session env)) as [e |] eqn:Hm.
  { rewrite (run_aborted env urls settings w Hm). cbn.
    split; [intros _; split; [reflexivity | discriminate] |].
    intros k _ _ _. split; [reflexivity | discriminate]. }
  destruct (run_reading env urls settings w Hm)
    as (p & Hn & _ & Hrep & _ & _ & Hf & _ & _ & Ho & Hl & Cases).
  destruct Cases as [(wp & Fs & Hp & Lp & _ & D) | (e & Fs & Ep & Lp & _)].
  2: { rewrite Hn, Ho, Hl, Ep, Lp.
       split.
       - intros _. split; [reflexivity |]. intros _.
         repeat split. rewrite Hrep; [now rewrite Lp | now rewrite Ep].
       - intros k _ _ _. split; [reflexivity |]. intros u us _ _ F.
         rewrite Fs in F. discriminate F. }
  pose proof (process_spec env settings (List.length urls) urls 1 wp) as P.
  rewrite <- Hp in P. destruct P as [_ _ E _ _ S _ F _].
  assert (Hrep' : reported (events p) = []).
  { apply (reported_none loop_event _ E), loop_event_not_reported. }
  assert (Hfirst : find is_poll (events p) = Some (Poll AtItem true) ->
                   forallb winding (events p) = true
                   /\ locals (after p) = locals wp).
  { intros Hfind. destruct urls as [| u us].
    - subst p. cbn in Hfind. discriminate.
    - destruct F as (b & t & Et & Hb); [discriminate |].
      rewrite Et in *. cbn in Hfind. injection Hfind as ->.
      destruct (Hb eq_refl) as (-> & L & _). auto. }
  split.
  - intros Hstop.
    assert (Stopped : forallb winding (events p) = true
                      /\ locals (after p) = locals wp).
    { destruct Hstop as [(k & Hk & St) | Hstop].
      - destruct urls as [| u us].
        + subst p. cbn. auto.
        + apply Hfirst. rewrite <- Hf, (@run_first_read env settings u us w Hm Fs).
          now rewrite (@first_read_hears env (u :: us) settings w k Fs Hk St).
      - apply Hfirst. now rewrite <- Hf. }
    destruct Stopped as [W L].
    rewrite Hn, Ho, Hl.
    split; [now apply winding_quiet |].
    intros _. rewrite L, Lp. repeat split.
    now rewrite (Hrep Hrep'), L, Lp.
  - intros k Hk St Hr.
    destruct urls as [| u us].
    { split; [| intros u us Hu; discriminate Hu].
      rewrite Hn. subst p. reflexivity. }
    destruct (@run_started env (u :: us) settings w Hm Fs) as (En & _ & Ou & Lo).
    pose proof (@attempt_read_hears env (u :: us) settings w k Fs Hk St) as Hset.
    destruct (should_stop
                (engine (interleave env (loop_world env (u :: us) settings w))))
      eqn:B.
    + split.
      * rewrite Hn. apply winding_quiet, Hfirst.
        rewrite <- Hf, (@run_first_read env settings u us w Hm Fs).
        now rewrite B.
      * intros u' us' _ _ _ Hno.
        rewrite (@first_read_clear env (u :: us) settings w Fs Hno) in B.
        discriminate B.
    + destruct (@process_stopped_before_attempt env settings
                  (List.length (u :: us)) 1 u us
                  (loop_world env (u :: us) settings w) Hr B Hset)
        as (_ & L & N).
      rewrite locals_loop_world in L.
      split; [now rewrite En |].
      intros u' us' Hu _ _ _. injection Hu as <- <-.
      rewrite Ou, Lo, L. repeat split.
      rewrite (Hrep Hrep'), <- Hl, Lo, L. reflexivity.
Qed.

(** ** A session that does not start *)

(** Claim C7.  When the browser session cannot be started (Playwright does
    not start, the browser does not launch, or no context or page can be
    opened), the run ends there: the fault is logged as an error
    ("Browser error: ..."), no item is started and no attempt made, and the
    run returns zero successes and zero failures, with an empty list of
    failed addresses and a summary that says so. *)
Theorem session_failure_is_fatal (env : Env) (urls : list string)
    (settings : Settings) (w : World) (e : Fault) :
  mkdir (session env) = None ->
  session_fault env = Some e ->
  let r := run env urls settings w in
  outcome r = Ok (0%nat, 0%nat)
  /\ locals (after r) = zero
  /\ In (Log ERROR (MsgBrowserError (str e))) (events r)
  /\ entries (events r) = 0%nat
  /\ processed (events r) = 0%nat
  /\ find is_poll (events r) = None
  /\ In (Log INFO (MsgTotals (List.length urls) 0 0)) (events r)
  /\ reported (events r) = [].
Proof.
  intros Hm Hf r. subst r.
  destruct (run_reading env urls settings w Hm)
    as (p & -> & -> & Hrep & _ & _ & -> & _ & Ht & -> & -> & Cases).
  destruct Cases as [(wp & F & _) | (e' & F & Ep & Lp & Hin)];
    [congruence |].
  assert (e' = e) by congruence. subst e'.
  rewrite Ep, Lp in *. cbn in Ht.
  repeat split; auto.
Qed.

(** ** Faults of the browser layer *)

(** The error line [download_file] logs for a fault it has caught. *)
Definition fault_line (e : Fault) : Event :=
  match e with
  | PlaywrightTimeoutError _ => Log ERROR (MsgTimeout (str e))
  | OtherException _ => Log ERROR (MsgError (str e))
  end.

(** Claim C6.  Whatever the browser layer does during an attempt,
    [download_file] returns a boolean: it never raises.  When a call into
    the browser (navigation, the wait, counting the matches, the click, the
    wait for the download, saving the file, reading its size) raises, the
    attempt returns [False] and the last thing it does is log the fault as
    an error.  Hence an item never raises because of the browser: it
    returns whenever [time.sleep] accepts the delay, and all it can raise
    is what [time.sleep] raises for a delay it does not accept; and once
    the download folder exists the run never raises at all. *)
Theorem faults_stay_inside (env : Env) (url download_path selector : string)
    (attempt max_retries page_timeout download_timeout : Z) (w : World) :
  let r := download_file env url download_path selector attempt max_retries
             page_timeout download_timeout w in
  let page := page_script env (attempts w) in
  outcome r = Ok (succeeds page)
  /\ (forall e, interrupted page = Some e ->
        succeeds page = false
        /\ exists t, events r = t ++ [fault_line e])
  /\ (forall settings total index w',
        sleeps env (delay settings) ->
        outcome (item env settings total index url w') = Ok tt)
  /\ (forall settings total index w' e,
        outcome (item env settings total index url w') = Raised e ->
        sleep_answer env (delay settings) = Some e)
  /\ (forall urls settings w',
        mkdir (session env) = None ->
        exists s f, outcome (run env urls settings w') = Ok (s, f)).
Proof.
  intros r page. subst r page.
  split; [apply download_file_spec |].
  split.
  { unfold download_file, succeeds, interrupted. unfold_monad. cbn.
    destruct (page_script env (attempts w)) as [g wt c cl d sa sv gs].
    intros e. split_answers; intros He; inversion He; subst;
      (split; [reflexivity |]);
      match goal with
      | |- exists t, ?l = _ => exists (removelast l); cbn; reflexivity
      end. }
  split.
  { intros settings total index w' Hd.
    now apply (item_returns (item_spec env settings total index url w')). }
  split.
  { intros settings total index w'. apply item_excused. }
  intros urls settings w' Hm.
  destruct (run_reading env urls settings w' Hm)
    as (p & _ & _ & _ & _ & _ & _ & _ & _ & -> & _).
  eauto.
Qed.

(** ** An item interrupted by a stop *)

(** Claim C10.  When the retry loop of an item is left because the read of
    the flag before an attempt finds it set, the item is recorded as a
    failure: the success count is unchanged, the failure count goes up by
    one and the item's address is appended to the failed addresses; and no
    attempt follows that read. *)
Theorem stopped_item_is_recorded_failed (env : Env) (settings : Settings)
    (total index : nat) (url : string) (w : World) :
  let r := item env settings total index url w in
  In (Poll AtAttempt true) (events r) ->
  successful (locals (after r)) = successful (locals w)
  /\ failed (locals (after r)) = S (failed (locals w))
  /\ failed_urls (locals (after r)) = failed_urls (locals w) ++ [url]
  /\ (forall t1 t2,
        events r = t1 ++ Poll AtAttempt true :: t2 -> entries t2 = 0%nat).
Proof.
  intros r Hin. subst r.
  destruct (item_spec env settings total index url w)
    as [(t & Et & _ & _ & _ & K & _) _ Hs _].
  rewrite (Hs Hin). cbn. repeat split.
  intros t1 t2 E.
  assert (K' : calm (events (item env settings total index url w)) = true).
  { rewrite Et. cbn. exact K. }
  now apply (winding_quiet t2), (calm_split _ _ _ K' E).
Qed.

(** ** The browser engine that is launched *)

(** The spec's reading of the rule: the file name of the path, its last
    component, decides. *)
Definition is_separator (c : ascii) : bool :=
  Ascii.eqb c "/" || Ascii.eqb c (ascii_of_nat 92).

Fixpoint has_separator (s : string) : bool :=
  match s with
  | EmptyString => false
  | String c rest => is_separator c || has_separator rest
  end.

Fixpoint filename (path : string) : string :=
  match path with
  | EmptyString => EmptyString
  | String c rest => if has_separator path then filename rest else path
  end.

(** The engine the operator chose explicitly. *)
Definition chosen_family (browser_type : string) : Family :=
  if String.eqb browser_type "Firefox" then Firefox
  else if String.eqb browser_type "WebKit" then WebKit
  else Chromium.

(** The rule as the spec words it. *)
Definition spec_family (browser_type custom_browser_path : string) : Family :=
  if contains "zen" (lower (filename custom_browser_path)) then Firefox
  else chosen_family browser_type.

Lemma contains_tail needle c rest :
  contains needle rest = true -> contains needle (String c rest) = true.
Proof. intros H. cbn [contains]. rewrite H. apply orb_true_r. Qed.

Lemma contains_filename needle path :
  contains needle (lower (filename path)) = true ->
  contains needle (lower path) = true.
Proof.
  induction path as [| c rest IH]; [auto |].
  cbn [filename]. destruct (has_separator (String c rest)); [| auto].
  intros H. cbn [lower]. apply contains_tail. auto.
Qed.

(** The launch call [open_browser] makes. *)
Definition launch_call (env : Env) (settings : Settings) : Call :=
  let custom := custom_browser_path settings in
  Launch (choose_family (browser_type settings) custom) (headless settings)
         (if truthy custom && path_exists env custom then Some custom
          else None).

(** Claim C8, as amended.  The engine launched is decided by the chosen
    browser type and by the whole custom path, directory part included,
    lower-cased: the Firefox family when the type is "Firefox" or the path
    contains "zen" anywhere; else WebKit when that is the type; else
    Chromium.  A file name that contains "zen" is one such case.  Whether
    the file exists plays no part in this choice: it only decides whether
    the path is passed on as the executable. *)
Theorem family_follows_whole_path (env : Env) (settings : Settings)
    (w : World) :
  let bt := browser_type settings in
  let path := custom_browser_path settings in
  choose_family bt path
  = (if contains "zen" (lower path) then Firefox else chosen_family bt)
  /\ (contains "zen" (lower (filename path)) = true ->
      choose_family bt path = Firefox)
  /\ In (Do (launch_call env settings)) (events (open_browser env settings w)).
Proof.
  intros bt path. subst bt path. split; [| split].
  - unfold choose_family, chosen_family.
    destruct (custom_browser_path settings) as [| c rest]; cbn [truthy].
    + cbn. now destruct (String.eqb (browser_type settings) "Firefox").
    + rewrite andb_true_l.
      destruct (String.eqb (browser_type settings) "Firefox"); cbn [orb].
      * now destruct (contains "zen" (lower (String c rest))).
      * reflexivity.
  - intros H. apply contains_filename in H. unfold choose_family.
    destruct (custom_browser_path settings) as [| c rest].
    + cbn in H. discriminate.
    + cbn [truthy]. rewrite H. now rewrite orb_true_r.
  - unfold open_browser, launch_call, ask, call, log. unfold_monad. cbn.
    destruct (truthy (custom_browser_path settings)); cbn;
      [destruct (path_exists env _); cbn |];
      destruct (launch (session env)); cbn; auto;
      destruct (new_context (session env)); cbn; auto;
      destruct (new_page (session env)); cbn; auto.
Qed.

(** Claim C8 as stated fails: with the browser type left at "Chromium" and
    the custom path "/opt/zen/chrome", whose file name "chrome" does not
    contain "zen", the code launches the Firefox family, not Chromium. *)
Lemma family_ignores_filename_counterexample :
  truthy "/opt/zen/chrome" = true
  /\ contains "zen" (lower (filename "/opt/zen/chrome")) = false
  /\ spec_family "Chromium" "/opt/zen/chrome" = Chromium
  /\ choose_family "Chromium" "/opt/zen/chrome" = Firefox
  /\ ~ (forall browser_type path,
          truthy path = true ->
          choose_family browser_type path = spec_family browser_type path).
Proof.
  repeat split; try reflexivity.
  intros H. specialize (H "Chromium"%string "/opt/zen/chrome"%string eq_refl).
  discriminate H.
Qed.

(** ** The stop flag over time *)

(** The history grows lawfully: this is what is left of [drift] when the
    worker may also write to the engine object without touching the flag. *)
Definition lawfully (w : World) (t : list Event) (w' : World) : Prop :=
  exists h, history w' = history w ++ h
            /\ lawful (should_stop (engine w)) h
            /\ should_stop (engine w') = flag_after (should_stop (engine w)) h.

Lemma lawfully_refl w : lawfully w [] w.
Proof. exists []. now rewrite app_nil_r. Qed.

Lemma lawfully_trans a t1 b t2 c :
  lawfully a t1 b -> lawfully b t2 c -> lawfully a (t1 ++ t2) c.
Proof.
  intros (h1 & E1 & L1 & F1) (h2 & E2 & L2 & F2).
  exists (h1 ++ h2). repeat split.
  - now rewrite E2, E1, app_assoc.
  - apply lawful_app; [exact L1 | now rewrite <- F1].
  - now rewrite flag_after_app, <- F1.
Qed.

Lemma drift_lawfully env A (m : M A) :
  respects (drift env) m -> respects lawfully m.
Proof. intros H w. exact (drift_history (H w)). Qed.

Lemma set_is_running_lawfully env b : respects lawfully (set_is_running env b).
Proof.
  intro w. unfold lawfully, set_is_running, write_engine, with_engine, interleave.
  cbn. rewrite <- app_assoc.
  eexists. split; [reflexivity |]. cbn.
  destruct (stop_at env (steps w)); cbn; auto.
Qed.

Lemma log_lawfully env level msg : respects lawfully (log env level msg).
Proof. apply (drift_lawfully (env := env)), log_drifts. Qed.

Lemma get_locals_lawfully : respects lawfully get_locals.
Proof. intro w. apply lawfully_refl. Qed.

Lemma log_failed_lawfully env urls : respects lawfully (log_failed env urls).
Proof. apply (drift_lawfully (env := env)), log_failed_drifts. Qed.

#[export] Hint Resolve set_is_running_lawfully log_lawfully
  get_locals_lawfully log_failed_lawfully : keeps.

Lemma summarise_lawfully env urls : respects lawfully (summarise env urls).
Proof. unfold summarise. keeps lawfully_refl lawfully_trans. Qed.

(** In a stretch of history: the flag never goes from set to clear, and
    only a turn of the controlling thread, that is a call of [stop()],
    takes it from clear to set. *)
Definition never_lowered (h : list (Actor * Engine)) : Prop :=
  forall h1 x y h2,
    h = h1 ++ x :: y :: h2 ->
    should_stop (snd x) = true -> should_stop (snd y) = true.

Definition raised_by_controller_only (h : list (Actor * Engine)) : Prop :=
  forall h1 x y h2,
    h = h1 ++ x :: y :: h2 ->
    should_stop (snd x) = false -> should_stop (snd y) = true ->
    fst y = Controller.

Lemma lawful_monotone x h :
  lawful (should_stop (snd x)) h ->
  never_lowered (x :: h) /\ raised_by_controller_only (x :: h).
Proof.
  revert x. induction h as [| y h IH]; intros x L.
  - split; intros h1 a b h2 E; destruct h1 as [| ? [| ? ?]]; discriminate.
  - destruct y as [who e]. cbn in L.
    assert (L' : lawful (should_stop (snd (who, e))) h).
    { destruct who; tauto. }
    destruct (IH _ L') as [N R].
    split; intros h1 a b h2 E; destruct h1 as [| z h1].
    + injection E as <- <- <-. cbn. destruct who; destruct L as [L _]; auto.
      intros. congruence.
    + injection E as <- E. eapply N; eauto.
    + injection E as <- <- <-. cbn. destruct who; destruct L as [L _]; auto.
      intros. congruence.
    + injection E as <- E. eapply R; eauto.
Qed.

Lemma history_reset_world env w :
  exists before e,
    history (reset_world env w) = history w ++ before ++ [(Worker, e)]
    /\ List.length before = 3%nat
    /\ engine (reset_world env w) = e
    /\ should_stop e = false.
Proof.
  unfold reset_world, with_engine, interleave. cbn.
  eexists [_; _; _], _. rewrite <- !app_assoc. cbn. repeat split.
Qed.

(** Claim C9, as amended.  From the moment [run] has cleared the flag (its
    second assignment, line 108) to the end of the run, the flag is
    monotonic: in the history of the engine object from that assignment on
    it never goes from set to clear, and it goes from clear to set only in a
    turn of the controlling thread, by [stop()]; the worker does not write
    to it again. *)
Theorem flag_monotone_after_reset (env : Env) (urls : list string)
    (settings : Settings) (w : World) :
  let r := run env urls settings w in
  exists before e h,
    history (after r) = history w ++ before ++ (Worker, e) :: h
    /\ List.length before = 3%nat
    /\ should_stop e = false
    /\ lawful false h
    /\ never_lowered ((Worker, e) :: h)
    /\ raised_by_controller_only ((Worker, e) :: h)
    /\ should_stop (stop e) = true.
Proof.
  intros r. subst r.
  destruct (history_reset_world env w) as (before & e & Hh & Hlen & He & Hf).
  assert (L : lawfully (reset_world env w) [] (after (run env urls settings w))).
  { destruct (mkdir (session env)) as [x |] eqn:Hm.
    - rewrite (run_aborted env urls settings w Hm). cbn.
      apply (drift_history (drift_interleave env (reset_world env w) [])).
    - unfold run. unfold_monad. rewrite (prepare_spec env settings w Hm).
      pose proof (drift_lawfully (announce_drifts env urls settings) (prepared env w)) as LA.
      pose proof (announce_returns env urls settings (prepared env w)) as RA.
      destruct (announce env urls settings (prepared env w)) as [oa wa ta].
      cbn [outcome after events] in *. subst oa.
      pose proof (drift_lawfully (browse_guarded_drifts env urls settings) wa) as LB.
      pose proof (session_returns (browse_guarded_spec env urls settings wa)) as RB.
      destruct (browse_guarded env urls settings wa) as [ob wb tb].
      cbn [outcome after events] in *. subst ob.
      pose proof (summarise_lawfully env urls wb) as LS.
      destruct (summarise env urls wb) as [os ws ts].
      cbn [outcome after events] in *.
      assert (LP : lawfully (reset_world env w) [] (prepared env w)).
      { apply (drift_history
                 (drift_trans (drift_interleave env (reset_world env w) [])
                              (drift_with_locals env (fun _ => zero) _ []))). }
      destruct LP as (h0 & E0 & L0 & F0), LA as (h1 & E1 & L1 & F1),
        LB as (h2 & E2 & L2 & F2), LS as (h3 & E3 & L3 & F3).
      exists (h0 ++ h1 ++ h2 ++ h3). repeat split.
      + now rewrite E3, E2, E1, E0, <- !app_assoc.
      + apply lawful_app; [exact L0 | rewrite <- F0].
        apply lawful_app; [exact L1 | rewrite <- F1].
        apply lawful_app; [exact L2 | now rewrite <- F2].
      + now rewrite !flag_after_app, <- F0, <- F1, <- F2. }
  destruct L as (h & Eh & Lh & _). rewrite He, Hf in Lh.
  exists before, e, h.
  split; [now rewrite Eh, Hh, <- !app_assoc |].
  split; [exact Hlen |]. split; [exact Hf |]. split; [exact Lh |].
  assert (Lh' : lawful (should_stop (snd (Worker, e))) h) by (cbn; now rewrite Hf).
  destruct (lawful_monotone (Worker, e) h Lh') as [N R]. auto.
Qed.

(** ** Runs nobody stops *)

(** What [wait_before_retry] logs and does after a failed attempt. *)
Definition wait_trace (settings : Settings) (attempt : Z) : list Event :=
  if attempt <=? max_retries settings
  then [Log INFO (MsgRetrying (delay settings)); Do (Sleep (delay settings))]
  else [].

(** The attempts and the waits of a trace: the pages entered, the lines
    "Retrying in ..." and "Waiting ...", and the sleeps. *)
Definition is_turn (ev : Event) : bool :=
  match ev with
  | Enter _ _ | Log _ (MsgRetrying _) | Log _ (MsgWaiting _)
  | Do (Sleep _) => true
  | _ => false
  end.

Definition turns (t : list Event) : list Event := filter is_turn t.

(** The turns of the retry loop when no stop comes and the sleeps return,
    from the [k]-th call of [download_file] on: each attempt, followed by
    the wait when it fails. *)
Fixpoint retry_turns (env : Env) (settings : Settings) (url : string)
    (k : nat) (todo : list Z) : list Event :=
  match todo with
  | [] => []
  | attempt :: rest =>
      Enter url attempt
      :: if succeeds (page_script env k) then []
         else wait_trace settings attempt
              ++ retry_turns env settings url (S k) rest
  end.

(** [n] failed attempts numbered from [attempt], each followed by the
    line "Retrying in ..." and the sleep. *)
Fixpoint failed_turns (d : Z) (url : string) (attempt : Z) (n : nat)
  : list Event :=
  match n with
  | O => []
  | S n' =>
      Enter url attempt :: Log INFO (MsgRetrying d) :: Do (Sleep d)
      :: failed_turns d url (attempt + 1) n'
  end.

(** The pause after an item that is not the last one. *)
Definition pause_turns (d : Z) (total index : nat) : list Event :=
  if (index <? total)%nat then [Log INFO (MsgWaiting d); Do (Sleep d)]
  else [].

Lemma turns_app t1 t2 : turns (t1 ++ t2) = turns t1 ++ turns t2.
Proof. apply filter_app. Qed.

Lemma turns_none p t :
  forallb p t = true -> (forall ev, p ev = true -> is_turn ev = false) ->
  turns t = [].
Proof.
  intros H Hp. unfold turns. induction t as [| ev t IH]; [reflexivity |].
  cbn in *. apply andb_true_iff in H as [Hev Ht].
  rewrite (Hp ev Hev). auto.
Qed.

Lemma attempt_event_not_turn ev : attempt_event ev = true -> is_turn ev = false.
Proof. destruct ev as [l [] | [] | [] [] | u a]; cbn; congruence. Qed.

Lemma outer_event_not_turn ev : outer_event ev = true -> is_turn ev = false.
Proof. destruct ev as [l [] | [] | [] [] | u a]; cbn; congruence. Qed.

Lemma summary_event_not_turn ev : summary_event ev = true -> is_turn ev = false.
Proof. destruct ev as [[] [] | [] | [] [] | u a]; cbn; congruence. Qed.

(** An attempt is one page entered and no wait. *)
Lemma attempt_turns env url download_path selector attempt max_retries
    page_timeout download_timeout w :
  turns (events (download_file env url download_path selector attempt
                   max_retries page_timeout download_timeout w))
  = [Enter url attempt].
Proof.
  destruct (download_file_spec env url download_path selector attempt
              max_retries page_timeout download_timeout w)
    as (_ & _ & _ & t & -> & H).
  change (Enter url attempt :: t) with ([Enter url attempt] ++ t).
  rewrite turns_app, (turns_none attempt_event t H attempt_event_not_turn).
  reflexivity.
Qed.

Lemma range_empty lo hi : hi <= lo -> range lo hi = [].
Proof.
  intros H. unfold range. now replace (Z.to_nat (hi - lo)) with 0%nat by lia.
Qed.

(** The turns of the retry loop when the attempt numbered [j] from the
    present one is the first to succeed: [j] failed attempts, each with
    its wait, and the successful one with none. *)
Lemma retry_turns_until_success env settings url j : forall a hi k,
  a + Z.of_nat j < hi ->
  a + Z.of_nat j <= max_retries settings + 1 ->
  (forall i, (i < j)%nat -> succeeds (page_script env (k + i)) = false) ->
  succeeds (page_script env (k + j)) = true ->
  retry_turns env settings url k (range a hi)
  = failed_turns (delay settings) url a j ++ [Enter url (a + Z.of_nat j)].
Proof.
  induction j as [| j IH]; intros a hi k Hhi Hr Hfail Hok.
  - rewrite range_cons by lia. cbn [retry_turns failed_turns app].
    rewrite Nat.add_0_r in Hok. rewrite Hok. now rewrite Z.add_0_r.
  - rewrite range_cons by lia. cbn [retry_turns failed_turns app].
    assert (H0 : succeeds (page_script env k) = false).
    { rewrite <- (Nat.add_0_r k). apply Hfail. lia. }
    rewrite H0. unfold wait_trace.
    replace (a <=? max_retries settings) with true
      by (symmetry; apply Z.leb_le; lia).
    cbn [app]. rewrite (IH (a + 1) hi (S k)).
    + replace (a + 1 + Z.of_nat j) with (a + Z.of_nat (S j)) by lia.
      reflexivity.
    + lia.
    + lia.
    + intros i Hi. replace (S k + i)%nat with (k + S i)%nat by lia.
      apply Hfail. lia.
    + replace (S k + j)%nat with (k + S j)%nat by lia. exact Hok.
Qed.

(** The turns of the retry loop when every attempt fails: a wait after
    each attempt but the last, which is the one numbered
    [max_retries + 1]. *)
Lemma retry_turns_exhausted env settings url n : forall a k,
  a + Z.of_nat n = max_retries settings + 1 ->
  (forall i, (i <= n)%nat -> succeeds (page_script env (k + i)) = false) ->
  retry_turns env settings url k (range a (max_retries settings + 2))
  = failed_turns (delay settings) url a n ++ [Enter url (a + Z.of_nat n)].
Proof.
  induction n as [| n IH]; intros a k Ha Hfail.
  - rewrite range_cons by lia.
    rewrite (@range_empty (a + 1) (max_retries settings + 2)) by lia.
    cbn [retry_turns failed_turns app].
    assert (H0 : succeeds (page_script env k) = false).
    { rewrite <- (Nat.add_0_r k). apply Hfail. lia. }
    rewrite H0. unfold wait_trace.
    replace (a <=? max_retries settings) with false
      by (symmetry; apply Z.leb_gt; lia).
    now rewrite Z.add_0_r.
  - rewrite range_cons by lia. cbn [retry_turns failed_turns app].
    assert (H0 : succeeds (page_script env k) = false).
    { rewrite <- (Nat.add_0_r k). apply Hfail. lia. }
    rewrite H0. unfold wait_trace.
    replace (a <=? max_retries settings) with true
      by (symmetry; apply Z.leb_le; lia).
    cbn [app]. rewrite (IH (a + 1) (S k)).
    + replace (a + 1 + Z.of_nat n) with (a + Z.of_nat (S n)) by lia.
      reflexivity.
    + lia.
    + intros i Hi. replace (S k + i)%nat with (k + S i)%nat by lia.
      apply Hfail. lia.
Qed.

(** The retry loop when no stop comes, as a function of the browser's
    answers from the [k]-th call of [download_file] on: whether the item
    succeeds, and how many times a retry is announced. *)
Fixpoint retry_summary (env : Env) (settings : Settings) (k : nat)
    (todo : list Z) (success : bool) : bool * nat :=
  match todo with
  | [] => (success, 0%nat)
  | attempt :: rest =>
      if succeeds (page_script env k) then (true, 0%nat)
      else
        let (b, n) := retry_summary env settings (S k) rest false in
        (b, ((if (attempt <=? max_retries settings)%Z then 1 else 0) + n)%nat)
  end.

Section Undisturbed.

Variable env : Env.
Variable settings : Settings.

(** The controlling thread never calls [stop()], and every sleep of
    [delay] seconds returns. *)
Hypothesis quiet : forall n, stop_at env n = false.
Hypothesis delay_ok : sleeps env (delay settings).

Lemma engine_interleave_quiet w : engine (interleave env w) = engine w.
Proof. rewrite engine_interleave, quiet. reflexivity. Qed.

Lemma engine_kept A (m : M A) w :
  respects (drift env) m -> engine (after (m w)) = engine w.
Proof. intros H. exact (drift_still (H w) quiet). Qed.

Lemma wait_before_retry_quiet attempt w :
  outcome (wait_before_retry env settings attempt w) = Ok tt
  /\ events (wait_before_retry env settings attempt w) = wait_trace settings attempt
  /\ engine (after (wait_before_retry env settings attempt w)) = engine w
  /\ attempts (after (wait_before_retry env settings attempt w)) = attempts w
  /\ locals (after (wait_before_retry env settings attempt w)) = locals w.
Proof.
  split; [now apply wait_before_retry_returns |].
  split.
  { unfold wait_before_retry, wait_trace, sleep, call, log. unfold_monad.
    destruct (attempt <=? max_retries settings); cbn; [| reflexivity].
    now destruct (sleep_answer env (delay settings)). }
  split; [apply engine_kept, wait_before_retry_drifts |].
  split; [| apply wait_before_retry_steady].
  pose proof (wait_before_retry_counted env settings attempt w) as Hc.
  unfold counted in Hc. rewrite Hc.
  unfold entries.
  rewrite (tally_none is_enter wait_event _ (wait_before_retry_emits env settings attempt w));
    [lia |].
  intros ev. destruct ev as [[] [] | [] | [] [] | u a]; cbn; congruence.
Qed.

Variable url : string.

Let attempt_at (attempt : Z) (w : World) : Result bool :=
  download_file env url (download_folder settings) (selector settings)
    attempt (max_retries settings) (page_timeout settings * 1000)
    (download_timeout settings * 1000) (interleave env w).

(** One turn of the retry loop. *)
Lemma retry_cons_quiet attempt rest success w :
  should_stop (engine w) = false ->
  let d := attempt_at attempt w in
  let p := wait_before_retry env settings attempt (after d) in
  let r := retry env settings url rest false (after p) in
  retry env settings url (attempt :: rest) success w
  = if succeeds (page_script env (attempts w))
    then {| outcome := Ok true; after := after d;
            events := Poll AtAttempt false :: events d |}
    else {| outcome := outcome r; after := after r;
            events := Poll AtAttempt false
                      :: events d ++ wait_trace settings attempt ++ events r |}.
Proof.
  intros F d p r. subst d p r. unfold attempt_at.
  cbn [retry]. unfold_monad. cbn.
  rewrite engine_interleave_quiet, F.
  pose proof (download_file_spec env url (download_folder settings)
    (selector settings) attempt (max_retries settings)
    (page_timeout settings * 1000) (download_timeout settings * 1000)
    (interleave env w)) as (Ho & _).
  autorewrite with world in Ho.
  destruct (download_file _ _ _ _ _ _ _ _ _) as [o2 w2 t2].
  cbn [outcome after events] in *. subst o2.
  destruct (succeeds (page_script env (attempts w))).
  - cbn. now rewrite app_nil_r.
  - destruct (wait_before_retry_quiet attempt w2) as (Ho & He & _).
    destruct (wait_before_retry env settings attempt w2) as [o3 w3 t3].
    cbn [outcome after events] in *. subst o3 t3.
    destruct (retry env settings url rest false w3) as [o4 w4 t4].
    cbn. reflexivity.
Qed.

(** The world in which the next turn starts. *)
Lemma next_turn_quiet attempt w :
  let w' := after (wait_before_retry env settings attempt
                     (after (attempt_at attempt w))) in
  engine w' = engine w /\ attempts w' = S (attempts w) /\ locals w' = locals w.
Proof.
  intros w'. subst w'. unfold attempt_at.
  set (d := download_file _ _ _ _ _ _ _ _ _).
  destruct (wait_before_retry_quiet attempt (after d)) as (_ & _ & He & Ha & Hl).
  rewrite He, Ha, Hl. subst d.
  rewrite (engine_kept _ (download_file_drifts env _ _ _ _ _ _ _)).
  pose proof (download_file_steady env url (download_folder settings)
    (selector settings) attempt (max_retries settings)
    (page_timeout settings * 1000) (download_timeout settings * 1000)
    (interleave env w)) as Hs.
  unfold steady in Hs. rewrite Hs.
  destruct (download_file_spec env url (download_folder settings)
    (selector settings) attempt (max_retries settings)
    (page_timeout settings * 1000) (download_timeout settings * 1000)
    (interleave env w)) as (_ & Ha' & _).
  rewrite Ha'. autorewrite with world.
  now rewrite engine_interleave_quiet.
Qed.

Lemma attempt_not_retrying attempt w :
  tally is_retrying (events (attempt_at attempt w)) = 0%nat.
Proof.
  unfold attempt_at.
  destruct (download_file_spec env url (download_folder settings)
    (selector settings) attempt (max_retries settings)
    (page_timeout settings * 1000) (download_timeout settings * 1000)
    (interleave env w)) as (_ & _ & _ & t & -> & H).
  unfold tally. cbn. apply (tally_none is_retrying attempt_event t H).
  intros ev. destruct ev as [l [] | [] | [] [] | u a]; cbn; congruence.
Qed.

Lemma retry_quiet todo : forall success w,
  should_stop (engine w) = false ->
  let r := retry env settings url todo success w in
  let s := retry_summary env settings (attempts w) todo success in
  outcome r = Ok (fst s)
  /\ tally is_retrying (events r) = snd s
  /\ engine (after r) = engine w.
Proof.
  induction todo as [| attempt rest IH]; intros success w F; cbn zeta.
  - cbn. auto.
  - rewrite (retry_cons_quiet attempt rest success w F). cbn [retry_summary].
    destruct (succeeds (page_script env (attempts w))).
    + cbn [outcome after events fst snd].
      split; [reflexivity |]. split.
      * change (Poll AtAttempt false :: events (attempt_at attempt w))
          with ([Poll AtAttempt false] ++ events (attempt_at attempt w)).
        rewrite tally_app, attempt_not_retrying. reflexivity.
      * unfold attempt_at.
        rewrite (engine_kept _ (download_file_drifts env _ _ _ _ _ _ _)).
        apply engine_interleave_quiet.
    + destruct (next_turn_quiet attempt w) as (He & Ha & _).
      set (w' := after (wait_before_retry env settings attempt
                          (after (attempt_at attempt w)))) in *.
      assert (F' : should_stop (engine w') = false) by now rewrite He.
      destruct (IH false w' F') as (Ho & Ht & Hen). rewrite Ha in *.
      destruct (retry_summary env settings (S (attempts w)) rest false) as [b n].
      cbn [outcome after events fst snd] in *.
      split; [exact Ho |]. split; [| now rewrite Hen].
      change (Poll AtAttempt false :: ?x) with ([Poll AtAttempt false] ++ x).
      rewrite !tally_app, attempt_not_retrying, Ht.
      unfold wait_trace. now destruct (attempt <=? max_retries settings).
Qed.

(** The attempts and waits of the retry loop, in their order. *)
Lemma retry_turns_quiet todo : forall success w,
  should_stop (engine w) = false ->
  turns (events (retry env settings url todo success w))
  = retry_turns env settings url (attempts w) todo.
Proof.
  induction todo as [| attempt rest IH]; intros success w F.
  - reflexivity.
  - rewrite (retry_cons_quiet attempt rest success w F). cbn [retry_turns].
    assert (T : turns (events (attempt_at attempt w)) = [Enter url attempt])
      by apply attempt_turns.
    destruct (succeeds (page_script env (attempts w))).
    + cbn [events].
      change (Poll AtAttempt false :: ?x) with ([Poll AtAttempt false] ++ x).
      now rewrite turns_app, T.
    + destruct (next_turn_quiet attempt w) as (He & Ha & _).
      set (w' := after (wait_before_retry env settings attempt
                          (after (attempt_at attempt w)))) in *.
      assert (F' : should_stop (engine w') = false) by now rewrite He.
      specialize (IH false w' F'). rewrite Ha in IH.
      cbn [events].
      change (Poll AtAttempt false :: ?x) with ([Poll AtAttempt false] ++ x).
      rewrite !turns_app, T, IH. cbn [app]. f_equal. f_equal.
      unfold wait_trace.
      now destruct (attempt <=? max_retries settings).
Qed.

Lemma retry_summary_all_fail k todo :
  (forall j, succeeds (page_script env j) = false) ->
  fst (retry_summary env settings k todo false) = false.
Proof.
  intros H. revert k. induction todo as [| attempt rest IH]; intros k; cbn.
  - reflexivity.
  - rewrite H. specialize (IH (S k)).
    destruct (retry_summary env settings (S k) rest false). exact IH.
Qed.

(** One item. *)
Lemma item_quiet total index w :
  should_stop (engine w) = false ->
  let todo := range 1 (max_retries settings + 2) in
  let r0 := retry env settings url todo false
              (interleave env (interleave env w)) in
  let i := item env settings total index url w in
  exists tp,
    events i = Log INFO (MsgRule "-" 40)
               :: Log INFO (MsgProcessing index total) :: events r0 ++ tp
    /\ forallb pause_event tp = true
    /\ outcome i = Ok tt
    /\ locals (after i)
       = (if fst (retry_summary env settings (attempts w) todo false)
          then count_success else count_failure url) (locals w)
    /\ engine (after i) = engine w.
Proof.
  intros F todo r0 i. subst r0 i todo.
  unfold item. unfold_monad. cbn.
  set (todo := range 1 (max_retries settings + 2)).
  set (w1 := interleave env (interleave env w)).
  assert (F1 : should_stop (engine w1) = false).
  { unfold w1. now rewrite !engine_interleave_quiet. }
  destruct (retry_quiet todo false w1 F1) as (Ho & _ & He).
  pose proof (retry_steady env settings url todo false w1) as Hs.
  unfold steady in Hs.
  replace (attempts w1) with (attempts w) in Ho by reflexivity.
  destruct (retry env settings url todo false w1) as [o2 w2 t2].
  cbn [outcome after events] in *. subst o2.
  set (b := fst (retry_summary env settings (attempts w) todo false)) in *.
  cbn.
  set (w2' := with_locals (if b then count_success else count_failure url) w2).
  destruct (pause_after_item_spec env settings total index w2') as [E3 _ _ _ R3].
  pose proof (pause_after_item_steady env settings total index w2') as S3.
  pose proof (engine_kept w2' (pause_after_item_drifts env settings total index)) as D3.
  unfold steady in S3.
  destruct (pause_after_item env settings total index w2') as [o3 w3 t3].
  cbn [outcome after events] in *. specialize (R3 delay_ok). subst o3.
  cbn. exists t3.
  split; [reflexivity |]. split; [exact E3 |]. split; [reflexivity |].
  split.
  - rewrite S3. unfold w2'. autorewrite with world. now rewrite Hs.
  - rewrite D3. unfold w2'. autorewrite with world. rewrite He.
    unfold w1. now rewrite !engine_interleave_quiet.
Qed.

(** What the pause after an item logs and does. *)
Lemma pause_after_item_quiet total index w :
  should_stop (engine w) = false ->
  events (pause_after_item env settings total index w)
  = if (index <? total)%nat
    then [Poll AtPause false; Log INFO (MsgWaiting (delay settings));
          Do (Sleep (delay settings))]
    else [].
Proof.
  intros F. unfold pause_after_item, sleep, call, log. unfold_monad.
  destruct (index <? total)%nat; [| reflexivity]. cbn.
  rewrite engine_interleave_quiet, F. cbn.
  now destruct (sleep_answer env (delay settings)).
Qed.

(** One item, read through its retry loop and its pause. *)
Lemma item_quiet_trace total index w :
  should_stop (engine w) = false ->
  let r0 := retry env settings url (range 1 (max_retries settings + 2)) false
              (interleave env (interleave env w)) in
  let i := item env settings total index url w in
  outcome i = Ok tt
  /\ engine (after i) = engine w
  /\ (forall b, outcome r0 = Ok b ->
        locals (after i)
        = (if b : bool then count_success else count_failure url) (locals w))
  /\ events i
     = Log INFO (MsgRule "-" 40) :: Log INFO (MsgProcessing index total)
       :: events r0
          ++ (if (index <? total)%nat
              then [Poll AtPause false; Log INFO (MsgWaiting (delay settings));
                    Do (Sleep (delay settings))]
              else []).
Proof.
  intros F r0 i. subst r0 i.
  unfold item. unfold_monad. cbn.
  set (todo := range 1 (max_retries settings + 2)).
  set (w1 := interleave env (interleave env w)).
  assert (F1 : should_stop (engine w1) = false).
  { unfold w1. now rewrite !engine_interleave_quiet. }
  destruct (retry_quiet todo false w1 F1)
    as (Ho & _ & He).
  pose proof (retry_steady env settings url todo false w1) as Hs.
  unfold steady in Hs.
  destruct (retry env settings url todo false w1) as [o2 w2 t2].
  cbn [outcome after events] in *. subst o2.
  set (b := fst (retry_summary env settings (attempts w1) todo false)) in *.
  cbn.
  set (w2' := with_locals (if b then count_success else count_failure url) w2).
  assert (F2 : should_stop (engine w2') = false).
  { unfold w2'. autorewrite with world. now rewrite He. }
  destruct (pause_after_item_spec env settings total index w2') as [_ _ _ _ R3].
  pose proof (pause_after_item_steady env settings total index w2') as S3.
  pose proof (engine_kept w2' (pause_after_item_drifts env settings total index)) as D3.
  pose proof (pause_after_item_quiet total index w2' F2) as E3.
  unfold steady in S3.
  destruct (pause_after_item env settings total index w2') as [o3 w3 t3].
  cbn [outcome after events] in *. specialize (R3 delay_ok). subst o3 t3.
  cbn. split; [reflexivity |]. split.
  { rewrite D3. unfold w2'. autorewrite with world. rewrite He.
    unfold w1. now rewrite !engine_interleave_quiet. }
  split; [| reflexivity].
  intros b' Hb'. injection Hb' as <-.
  rewrite S3. unfold w2'. autorewrite with world. now rewrite Hs.
Qed.

(** The attempts and waits of one item, in their order: those of its
    retry loop, then the pause when the item is not the last. *)
Lemma item_turns_quiet total index w :
  should_stop (engine w) = false ->
  turns (events (item env settings total index url w))
  = retry_turns env settings url (attempts w)
      (range 1 (max_retries settings + 2))
    ++ pause_turns (delay settings) total index.
Proof.
  intros F. destruct (item_quiet_trace total index w F) as (_ & _ & _ & ->).
  set (w1 := interleave env (interleave env w)).
  assert (F1 : should_stop (engine w1) = false).
  { unfold w1. now rewrite !engine_interleave_quiet. }
  change (?a :: ?b :: ?x ++ ?y) with ([a; b] ++ x ++ y).
  rewrite !turns_app, (retry_turns_quiet _ false w1 F1).
  unfold pause_turns. now destruct (index <? total)%nat.
Qed.

End Undisturbed.

(** ** Runs in which every attempt fails *)

Section AllFail.

Variable env : Env.
Variable settings : Settings.
Hypothesis quiet : forall n, stop_at env n = false.
Hypothesis delay_ok : sleeps env (delay settings).
Hypothesis all_fail : forall k, succeeds (page_script env k) = false.

Lemma item_all_fail total index url w :
  should_stop (engine w) = false ->
  let i := item env settings total index url w in
  outcome i = Ok tt
  /\ locals (after i) = count_failure url (locals w)
  /\ engine (after i) = engine w.
Proof.
  intros F i. subst i.
  destruct (@item_quiet env settings quiet delay_ok url total index w F)
    as (tp & _ & _ & Ho & Hl & He).
  rewrite (@retry_summary_all_fail env settings _ _ all_fail) in Hl. auto.
Qed.

Lemma process_all_fail total urls : forall index w,
  should_stop (engine w) = false ->
  let r := process env settings total index urls w in
  outcome r = Ok tt
  /\ successful (locals (after r)) = successful (locals w)
  /\ failed (locals (after r)) = (failed (locals w) + List.length urls)%nat
  /\ failed_urls (locals (after r)) = failed_urls (locals w) ++ urls.
Proof.
  induction urls as [| url rest IH]; intros index w F; cbn zeta.
  - cbn. rewrite app_nil_r. repeat split. lia.
  - cbn [process]. unfold_monad. cbn.
    rewrite (@engine_interleave_quiet env quiet), F.
    set (w1 := interleave env w).
    assert (F1 : should_stop (engine w1) = false).
    { unfold w1. now rewrite (@engine_interleave_quiet env quiet). }
    destruct (item_all_fail total index url w1 F1) as (Ho & Hl & He).
    destruct (item env settings total index url w1) as [o2 w2 t2].
    cbn [outcome after events] in *. subst o2.
    assert (F2 : should_stop (engine w2) = false) by now rewrite He.
    destruct (IH (S index) w2 F2) as (Ho3 & Hs3 & Hf3 & Hu3).
    destruct (process env settings total (S index) rest w2) as [o3 w3 t3].
    cbn [outcome after events] in *. subst o3.
    rewrite Hs3, Hf3, Hu3, Hl. unfold w1. autorewrite with world. cbn.
    rewrite <- app_assoc. repeat split. lia.
Qed.

End AllFail.


(** ** A selector that matches nothing *)

(** What an attempt does when the selector matches nothing. *)
Definition not_found_trace (url selector : string)
    (attempt max_retries page_timeout : Z) : list Event :=
  [Enter url attempt;
   Log INFO (MsgOpening attempt (max_retries + 1) url);
   Do (Goto url page_timeout);
   Log INFO MsgPageLoaded;
   Do (WaitForTimeout 1000);
   Do (Count selector);
   Log WARNING (MsgNotFound selector)].

Lemma button_missing_fails p : button_missing p -> succeeds p = false.
Proof.
  intros (Hg & Hw & Hc). unfold succeeds. now rewrite Hg, Hw, Hc.
Qed.

Lemma download_file_button_missing env url download_path selector attempt
    max_retries page_timeout download_timeout w :
  button_missing (page_script env (attempts w)) ->
  let d := download_file env url download_path selector attempt max_retries
             page_timeout download_timeout w in
  outcome d = Ok false
  /\ events d = not_found_trace url selector attempt max_retries page_timeout.
Proof.
  intros (Hg & Hw & Hc) d. subst d.
  unfold download_file, call, ask, log. unfold_monad. cbn.
  rewrite Hg, Hw, Hc. cbn. auto.
Qed.

Section ButtonMissing.

Variable env : Env.
Variable settings : Settings.
Variable url : string.
Hypothesis quiet : forall n, stop_at env n = false.
Hypothesis delay_ok : sleeps env (delay settings).
Hypothesis missing : forall k, button_missing (page_script env k).

Lemma retry_button_missing todo : forall success w,
  should_stop (engine w) = false ->
  let r := retry env settings url todo success w in
  tally is_not_found (events r) = List.length todo
  /\ tally is_click_or_save (events r) = 0%nat
  /\ entries (events r) = List.length todo.
Proof.
  induction todo as [| attempt rest IH]; intros success w F; cbn zeta.
  - cbn. auto.
  - rewrite (@retry_cons_quiet env settings quiet delay_ok url attempt rest success w F).
    rewrite (button_missing_fails (missing (attempts w))).
    destruct (@next_turn_quiet env settings quiet delay_ok url attempt w)
      as (He & _ & _).
    set (w' := after (wait_before_retry env settings attempt _)) in *.
    assert (F' : should_stop (engine w') = false) by now rewrite He.
    destruct (IH false w' F') as (H1 & H2 & H3).
    destruct (download_file_button_missing env url (download_folder settings)
      (selector settings) attempt (max_retries settings)
      (page_timeout settings * 1000) (download_timeout settings * 1000)
      (interleave env w) (missing _)) as (_ & Hd).
    cbn [outcome after events]. rewrite Hd.
    change (Poll AtAttempt false :: ?x) with ([Poll AtAttempt false] ++ x).
    unfold entries in *. rewrite !tally_app, H1, H2, H3.
    unfold wait_trace, not_found_trace, tally.
    destruct (attempt <=? max_retries settings); cbn; auto.
Qed.

End ButtonMissing.


(** ** Two failures, then a success *)

Lemma outer_event_not_retrying ev : outer_event ev = true -> is_retrying ev = false.
Proof. destruct ev as [l [] | [] | [] [] | u a]; cbn; congruence. Qed.

Lemma summary_event_not_retrying ev :
  summary_event ev = true -> is_retrying ev = false.
Proof. destruct ev as [[] [] | [] | [] [] | u a]; cbn; congruence. Qed.

Lemma pause_event_not_retrying ev : pause_event ev = true -> is_retrying ev = false.
Proof. destruct ev as [[] [] | [] | [] [] | u a]; cbn; congruence. Qed.


(** * Concrete runs *)

Module Demo.

Definition settings : Settings :=
  {| download_folder := "downloads"; selector := "button.download-btn";
     max_retries := 2; delay := 2; headless := false;
     page_timeout := 30; download_timeout := 60;
     browser_type := "Chromium"; custom_browser_path := "" |}.

(** A page that loads and yields a file. *)
Definition good_page : PageScript :=
  {| goto := None; wait_for_timeout := None; count := inr 1%nat;
     click := None; download := inr "file.bin"%string; save_as := None;
     saved := true; getsize := inr 1234%nat |}.

(** A page that does not load in time. *)
Definition slow_page : PageScript :=
  {| goto := Some (PlaywrightTimeoutError "Timeout 30000ms exceeded");
     wait_for_timeout := None; count := inr 1%nat;
     click := None; download := inr "file.bin"%string; save_as := None;
     saved := true; getsize := inr 1234%nat |}.

(** A page on which the selector matches nothing. *)
Definition bare_page : PageScript :=
  {| goto := None; wait_for_timeout := None; count := inr 0%nat;
     click := None; download := inr "file.bin"%string; save_as := None;
     saved := true; getsize := inr 1234%nat |}.

Definition good_session : SessionScript :=
  {| mkdir := None; start_playwright := None; launch := None;
     new_context := None; new_page := None; close_context := None;
     close_browser := None |}.

(** The browser is not installed. *)
Definition no_browser : SessionScript :=
  {| mkdir := None; start_playwright := None;
     launch := Some (OtherException "Executable doesn't exist");
     new_context := None; new_page := None; close_context := None;
     close_browser := None |}.

Definition world (stops : nat -> bool) (s : SessionScript)
    (pages : nat -> PageScript) : Env :=
  {| stop_at := stops; session := s; page_script := pages;
     path_exists := fun _ => false;
     path_join := fun folder name => (folder ++ "/" ++ name)%string;
     sleep_fault := fun _ => None |}.

Definition never : nat -> bool := fun _ => false.

(** Two failures, then success. *)
Definition third_time_lucky : Env :=
  world never good_session
        (fun k => if (k <? 2)%nat then slow_page else good_page).

(** Nothing ever loads. *)
Definition all_slow : Env := world never good_session (fun _ => slow_page).

(** The selector never matches. *)
Definition all_bare : Env := world never good_session (fun _ => bare_page).

(** [stop()] right after the run has cleared the flag. *)
Definition stopped_at_once : Env :=
  world (fun n => (n =? 2)%nat) good_session (fun _ => good_page).

(** [stop()] while the browser is being launched. *)
Definition stopped_while_launching : Env :=
  world (fun n => (n =? 12)%nat) good_session (fun _ => good_page).

(** [stop()] right after the loop's first read of the flag, before the
    first item is announced. *)
Definition stopped_after_first_check : Env :=
  world (fun n => (n =? 16)%nat) good_session (fun _ => good_page).

(** [stop()] while the first attempt of the first item is under way. *)
Definition stopped_midway : Env :=
  world (fun n => (n =? 19)%nat) good_session (fun _ => slow_page).

Definition browser_missing : Env := world never no_browser (fun _ => good_page).

Definition job : list string := ["https://a.test/x"; "https://a.test/y"]%string.

End Demo.

(** The scenario of claim C4, run. *)
Example third_time_lucky_run :
  let r := run Demo.third_time_lucky ["https://a.test/x"%string]
             Demo.settings (start init) in
  outcome r = Ok (1%nat, 0%nat)
  /\ tally is_retrying (events r) = 2%nat
  /\ entries (events r) = 3%nat
  /\ engine (after r) = init.
Proof. vm_compute. repeat split. Qed.

(** A stop while the first item is under way: the item counts as failed
    and the second item is never started. *)
Example stopped_midway_run :
  let r := run Demo.stopped_midway Demo.job Demo.settings (start init) in
  outcome r = Ok (0%nat, 1%nat)
  /\ failed_urls (locals (after r)) = ["https://a.test/x"%string]
  /\ entries (events r) = 1%nat
  /\ processed (events r) = 1%nat
  /\ In (Poll AtAttempt true) (events r)
  /\ engine (after r) = {| is_running := false; should_stop := true |}.
Proof.
  vm_compute. repeat split.
  repeat first [left; reflexivity | right].
Qed.

(** A platform on which [time.sleep] refuses a length of 9223372036
    seconds or more, as CPython does, and pages that never load. *)
Definition short_sleeper : Env :=
  {| stop_at := Demo.never; session := Demo.good_session;
     page_script := fun _ => Demo.slow_page;
     path_exists := fun _ => false;
     path_join := fun folder name => (folder ++ "/" ++ name)%string;
     sleep_fault :=
       fun seconds =>
         if 9223372036 <=? seconds
         then Some (OtherException "timestamp too large to convert to C PyTime_t")
         else None |}.

Definition patient_settings : Settings :=
  {| download_folder := "downloads"; selector := "button.download-btn";
     max_retries := 2; delay := 10000000000; headless := false;
     page_timeout := 30; download_timeout := 60;
     browser_type := "Chromium"; custom_browser_path := "" |}.

(** A delay [time.sleep] does not accept: the wait after the first failed
    attempt raises, the handler around the session logs the exception, and
    the run returns having counted nothing, although one item was started
    and no stop was asked for. *)
Example refused_delay_run :
  let r := run short_sleeper Demo.job patient_settings (start init) in
  sleep_answer short_sleeper (delay patient_settings)
  = Some (OtherException "timestamp too large to convert to C PyTime_t")
  /\ outcome r = Ok (0%nat, 0%nat)
  /\ processed (events r) = 1%nat
  /\ entries (events r) = 1%nat
  /\ tally is_retrying (events r) = 1%nat
  /\ find is_poll (events r) = Some (Poll AtItem false)
  /\ engine (after r) = init.
Proof. vm_compute. repeat split. Qed.

(** ** The theorems at concrete inputs *)


Lemma stop_is_observed_witness :
  (exists k, (S (S (steps (start init))) <= k
              <= first_check Demo.stopped_while_launching Demo.settings
                   (start init))%nat
             /\ stop_at Demo.stopped_while_launching k = true)
  /\ mkdir (session Demo.stopped_while_launching) = None
  /\ (let r := run Demo.stopped_while_launching Demo.job Demo.settings
                 (start init) in
      entries (events r) = 0%nat
      /\ outcome r = Ok (0%nat, 0%nat)
      /\ locals (after r) = zero
      /\ reported (events r) = [])
  /\ (first_check Demo.stopped_after_first_check Demo.settings (start init) < 16
      <= first_check Demo.stopped_after_first_check Demo.settings (start init)
         + 3)%nat
  /\ stop_at Demo.stopped_after_first_check 16 = true
  /\ 0 <= max_retries Demo.settings
  /\ mkdir (session Demo.stopped_after_first_check) = None
  /\ session_fault Demo.stopped_after_first_check = None
  /\ (forall j,
        (S (S (steps (start init))) <= j
         <= first_check Demo.stopped_after_first_check Demo.settings
              (start init))%nat ->
        stop_at Demo.stopped_after_first_check j = false)
  /\ (let r := run Demo.stopped_after_first_check Demo.job Demo.settings
                 (start init) in
      entries (events r) = 0%nat
      /\ outcome r = Ok (0%nat, 1%nat)
      /\ locals (after r) = count_failure "https://a.test/x" zero
      /\ reported (events r) = ["https://a.test/x"%string]).
Proof.
  assert (H1 : exists k,
             (S (S (steps (start init))) <= k
              <= first_check Demo.stopped_while_launching Demo.settings
                   (start init))%nat
             /\ stop_at Demo.stopped_while_launching k = true).
  { exists 12%nat. split; [vm_compute; lia | reflexivity]. }
  assert (H2 : (first_check Demo.stopped_after_first_check Demo.settings
                  (start init) < 16
                <= first_check Demo.stopped_after_first_check Demo.settings
                     (start init) + 3)%nat).
  { vm_compute. lia. }
  assert (H3 : 0 <= max_retries Demo.settings).
  { simpl. lia. }
  assert (H4 : forall j,
             (S (S (steps (start init))) <= j
              <= first_check Demo.stopped_after_first_check Demo.settings
                   (start init))%nat ->
             stop_at Demo.stopped_after_first_check j = false).
  { intros j Hj.
    change (first_check Demo.stopped_after_first_check Demo.settings
              (start init)) with 15%nat in Hj.
    apply Nat.eqb_neq. lia. }
  assert (T4 := stop_is_observed Demo.stopped_while_launching Demo.job
                  Demo.settings (start init)).
  assert (T5 := stop_is_observed Demo.stopped_after_first_check Demo.job
                  Demo.settings (start init)).
  cbv zeta in T4, T5.
  destruct T4 as (_ & _ & _ & T4 & _).
  destruct T5 as (_ & _ & _ & _ & T5).
  destruct (T4 (or_introl H1)) as (N4 & R4).
  destruct (R4 eq_refl) as (O4 & L4 & P4).
  destruct (T5 16%nat H2 eq_refl H3) as (N5 & R5).
  destruct (R5 _ _ eq_refl eq_refl eq_refl H4) as (O5 & L5 & P5).
  repeat split; try assumption; try reflexivity; apply H2.
Defined.




Lemma faults_stay_inside_witness :
  interrupted (page_script Demo.all_slow (attempts (start init)))
  = Some (PlaywrightTimeoutError "Timeout 30000ms exceeded")
  /\ (let r := download_file Demo.all_slow "https://a.test/x" "downloads"
                 "button.download-btn" 1 2 30000 60000 (start init) in
      succeeds (page_script Demo.all_slow (attempts (start init))) = false
      /\ exists t,
           events r
           = t ++ [fault_line (PlaywrightTimeoutError "Timeout 30000ms exceeded")])
  /\ sleeps Demo.all_slow (delay Demo.settings)
  /\ outcome (item Demo.all_slow Demo.settings 2 1 "https://a.test/x"
                (start init)) = Ok tt
  /\ outcome (item short_sleeper patient_settings 2 1 "https://a.test/x"
                (start init))
     = Raised (OtherException "timestamp too large to convert to C PyTime_t")
  /\ sleep_answer short_sleeper (delay patient_settings)
     = Some (OtherException "timestamp too large to convert to C PyTime_t")
  /\ mkdir (session Demo.all_slow) = None
  /\ exists s f,
       outcome (run Demo.all_slow Demo.job Demo.settings (start init))
       = Ok (s, f).
Proof.
  assert (T := faults_stay_inside Demo.all_slow "https://a.test/x"
                 "downloads" "button.download-btn" 1 2 30000 60000
                 (start init)).
  assert (T' := faults_stay_inside short_sleeper "https://a.test/x"
                  "downloads" "button.download-btn" 1 2 30000 60000
                  (start init)).
  cbv zeta in T, T'.
  destruct T as (_ & T2 & T3 & _ & T5).
  destruct T' as (_ & _ & _ & T4 & _).
  assert (S : sleeps Demo.all_slow (delay Demo.settings)) by reflexivity.
  assert (R : outcome (item short_sleeper patient_settings 2 1
                         "https://a.test/x" (start init))
              = Raised (OtherException
                          "timestamp too large to convert to C PyTime_t")).
  { vm_compute. reflexivity. }
  split; [reflexivity |].
  split; [apply T2; reflexivity |].
  split; [exact S |].
  split; [exact (T3 Demo.settings 2%nat 1%nat (start init) S) |].
  split; [exact R |].
  split; [exact (T4 patient_settings 2%nat 1%nat (start init) _ R) |].
  split; [reflexivity |].
  exact (T5 Demo.job Demo.settings (start init) eq_refl).
Defined.

Lemma session_failure_is_fatal_witness :
  mkdir (session Demo.browser_missing) = None
  /\ session_fault Demo.browser_missing
     = Some (OtherException "Executable doesn't exist")
  /\ (let r := run Demo.browser_missing Demo.job Demo.settings (start init) in
      outcome r = Ok (0%nat, 0%nat)
      /\ locals (after r) = zero
      /\ In (Log ERROR (MsgBrowserError
                          (str (OtherException "Executable doesn't exist"))))
            (events r)
      /\ entries (events r) = 0%nat
      /\ processed (events r) = 0%nat
      /\ find is_poll (events r) = None
      /\ In (Log INFO (MsgTotals (List.length Demo.job) 0 0)) (events r)
      /\ reported (events r) = []).
Proof.
  split; [reflexivity |]. split; [reflexivity |].
  apply (session_failure_is_fatal Demo.browser_missing Demo.job Demo.settings
           (start init));
    reflexivity.
Defined.

(** [stop()] during the first attempt of an item run on its own. *)
Definition stopped_in_item : Env :=
  Demo.world (fun n => (n =? 4)%nat) Demo.good_session (fun _ => Demo.slow_page).

Lemma stopped_item_is_recorded_failed_witness :
  let r := item stopped_in_item Demo.settings 2 1 "https://a.test/x"
             (start init) in
  In (Poll AtAttempt true) (events r)
  /\ successful (locals (after r)) = successful (locals (start init))
  /\ failed (locals (after r)) = S (failed (locals (start init)))
  /\ failed_urls (locals (after r))
     = failed_urls (locals (start init)) ++ ["https://a.test/x"%string]
  /\ (forall t1 t2,
        events r = t1 ++ Poll AtAttempt true :: t2 -> entries t2 = 0%nat).
Proof.
  assert (H : In (Poll AtAttempt true)
                 (events (item stopped_in_item Demo.settings 2 1
                            "https://a.test/x" (start init)))).
  { vm_compute. repeat first [left; reflexivity | right]. }
  split; [exact H |].
  exact (stopped_item_is_recorded_failed stopped_in_item Demo.settings 2 1
           "https://a.test/x" (start init) H).
Defined.

(** The path the GUI suggests for the Zen browser. *)
Definition zen_settings : Settings :=
  {| download_folder := "downloads"; selector := "button.download-btn";
     max_retries := 2; delay := 2; headless := false;
     page_timeout := 30; download_timeout := 60;
     browser_type := "Custom";
     custom_browser_path := "C:/Users/me/AppData/Local/Zen Browser/zen.exe" |}.

Lemma family_follows_whole_path_witness :
  contains "zen" (lower (filename (custom_browser_path zen_settings))) = true
  /\ choose_family (browser_type zen_settings) (custom_browser_path zen_settings)
     = Firefox.
Proof.
  split; [reflexivity |].
  apply (proj1 (proj2 (family_follows_whole_path Demo.all_slow zen_settings
                         (start init)))).
  reflexivity.
Defined.

(** Claim C9 as stated: while the run is in progress, no step takes the
    flag from set back to clear. *)
Definition flag_monotone_in_run (h : list (Actor * Engine)) : Prop :=
  forall h1 x y h2,
    h = h1 ++ x :: y :: h2 ->
    is_running (snd x) = true ->
    should_stop (snd x) = true -> should_stop (snd y) = true.

(** Claim C9 as stated fails at the start of a run.  A run stopped by the
    user leaves the flag set; the next run on the same engine object marks
    itself as running and then, in its second assignment, takes the flag
    from set to clear. *)
Lemma flag_lowered_at_start_counterexample :
  let left_over :=
    engine (after (run Demo.stopped_midway Demo.job Demo.settings (start init))) in
  let h :=
    history (after (run Demo.third_time_lucky Demo.job Demo.settings
                      (start left_over))) in
  left_over = {| is_running := false; should_stop := true |}
  /\ nth_error h 2 = Some (Controller, {| is_running := true; should_stop := true |})
  /\ nth_error h 3 = Some (Worker, {| is_running := true; should_stop := false |})
  /\ ~ flag_monotone_in_run h.
Proof.
  cbv zeta. split; [vm_compute; reflexivity |].
  split; [vm_compute; reflexivity |]. split; [vm_compute; reflexivity |].
  intros H.
  set (h := history _) in H.
  specialize (H (firstn 2 h)
                (Controller, {| is_running := true; should_stop := true |})
                (Worker, {| is_running := true; should_stop := false |})
                (skipn 4 h)).
  assert (E : h = firstn 2 h
                  ++ (Controller, {| is_running := true; should_stop := true |})
                  :: (Worker, {| is_running := true; should_stop := false |})
                  :: skipn 4 h).
  { vm_compute. reflexivity. }
  specialize (H E eq_refl eq_refl). discriminate H.
Qed.

(** Claim C2 as stated: a [stop()] that comes before any item is started,
    whenever that is, keeps the run from making any attempt. *)
Definition early_stop_prevents_attempts : Prop :=
  forall env urls settings w n,
    (n <= S (S (steps w)))%nat ->
    stop_at env n = true ->
    entries (events (run env urls settings w)) = 0%nat.

(** Claim C2 as stated, on the result: after a [stop()] that comes once the
    flag has been cleared and before the first item is announced (its
    "Processing URL" line is the second step after the loop's first read of
    the flag), the result counts nothing, no item having been completed. *)
Definition early_stop_leaves_nothing : Prop :=
  forall env urls settings w n,
    mkdir (session env) = None ->
    (S (S (steps w)) <= n <= first_check env settings w + 2)%nat ->
    stop_at env n = true ->
    outcome (run env urls settings w) = Ok (0%nat, 0%nat).

(** [stop()] just before the first step of the run. *)
Definition stopped_too_early : Env :=
  Demo.world (fun n => (n =? 0)%nat) Demo.good_session (fun _ => Demo.good_page).

(** Claim C2 as stated fails for a [stop()] that comes before [run] clears
    the flag: the request is wiped out by the clearing and the run goes on
    to download everything.  The same happens when [stop()] was called on
    the engine before [run] was.  And a [stop()] that comes after the
    clearing and before the first item is announced does not always leave
    the result empty: right after the loop's first read of the flag it
    still keeps the run from making any attempt, but the first item is
    counted as failed. *)
Lemma stop_before_reset_is_lost_counterexample :
  stop_at stopped_too_early (steps (start init)) = true
  /\ (let r := run stopped_too_early Demo.job Demo.settings (start init) in
      entries (events r) = 2%nat /\ outcome r = Ok (2%nat, 0%nat))
  /\ (let r := run Demo.third_time_lucky Demo.job Demo.settings
                 (start (stop init)) in
      entries (events r) = 4%nat /\ outcome r = Ok (2%nat, 0%nat))
  /\ ~ early_stop_prevents_attempts
  /\ first_check Demo.stopped_after_first_check Demo.settings (start init)
     = 15%nat
  /\ stop_at Demo.stopped_after_first_check 16 = true
  /\ (let r := run Demo.stopped_after_first_check Demo.job Demo.settings
                 (start init) in
      entries (events r) = 0%nat
      /\ processed (events r) = 1%nat
      /\ outcome r = Ok (0%nat, 1%nat)
      /\ failed_urls (locals (after r)) = ["https://a.test/x"%string])
  /\ ~ early_stop_leaves_nothing.
Proof.
  split; [reflexivity |]. split; [vm_compute; auto |].
  split; [vm_compute; auto |].
  split.
  { intros H.
    specialize (H stopped_too_early Demo.job Demo.settings (start init) 0%nat).
    cbn in H. specialize (H ltac:(lia) eq_refl).
    vm_compute in H. discriminate H. }
  split; [reflexivity |]. split; [reflexivity |].
  split; [vm_compute; auto |].
  intros H.
  specialize (H Demo.stopped_after_first_check Demo.job Demo.settings
                (start init) 16%nat eq_refl).
  assert (W : (S (S (steps (start init))) <= 16
               <= first_check Demo.stopped_after_first_check Demo.settings
                    (start init) + 2)%nat).
  { vm_compute. lia. }
  specialize (H W eq_refl). vm_compute in H. discriminate H.
Qed.

(** * More about the engine *)

(** ** The parts of a run *)

(** A run whose download folder can be made, cut into its parts: the
    folder, the opening lines, the guarded session, the summary. *)
Lemma run_parts env urls settings w :
  mkdir (session env) = None ->
  let a := announce env urls settings (prepared env w) in
  let b := browse_guarded env urls settings (after a) in
  let s := summarise env urls (after b) in
  outcome (run env urls settings w)
  = Ok (successful (locals (after b)), failed (locals (after b)))
  /\ after (run env urls settings w) = after s
  /\ events (run env urls settings w)
     = Do (Mkdir (download_folder settings))
       :: events a ++ events b
          ++ summary_trace (List.length urls) (locals (after b)).
Proof.
  intros Hm a b s. subst a b s.
  unfold run. unfold_monad. rewrite (prepare_spec env settings w Hm).
  pose proof (announce_returns env urls settings (prepared env w)) as RA.
  destruct (announce env urls settings (prepared env w)) as [oa wa ta].
  cbn [outcome after events] in *. subst oa.
  pose proof (session_returns (browse_guarded_spec env urls settings wa)) as RB.
  destruct (browse_guarded env urls settings wa) as [ob wb tb].
  cbn [outcome after events] in *. subst ob.
  pose proof (summarise_spec env urls wb) as (OS & ES & _).
  destruct (summarise env urls wb) as [os ws ts].
  cbn [outcome after events] in *. subst os ts.
  cbn [app]. repeat split.
Qed.

(** The last thing [run] does is to clear [is_running]. *)
Lemma summarise_idle env urls w :
  exists e,
    is_running e = false
    /\ engine (after (summarise env urls w)) = e
    /\ exists h, history (after (summarise env urls w)) = h ++ [(Worker, e)].
Proof.
  unfold summarise, set_is_running. unfold_monad. cbn.
  autorewrite with world.
  destruct (failed_urls (locals w)) as [| u fs]; cbn.
  - eexists. split; [| split; [reflexivity |]]; [reflexivity |].
    unfold with_engine. cbn. eexists. reflexivity.
  - match goal with
    | |- context [log_failed env ?l ?w'] =>
        pose proof (log_failed_spec env l w') as (Ho & _);
        destruct (log_failed env l w') as [o w'' t]
    end.
    cbn in Ho. subst o. cbn.
    eexists. split; [| split; [reflexivity |]]; [reflexivity |].
    unfold with_engine. cbn. eexists. reflexivity.
Qed.

(** ** The [is_running] flag *)

(** [DownloaderGUI.on_closing]: the window is destroyed, after a question
    or without one, or it stays.  [askokcancel] is the operator's answer to
    "Download in progress. Stop and quit?", should the question be asked. *)
Inductive Closing :=
| Destroyed (asked : bool) (e : Engine)
| Kept (e : Engine).

Definition on_closing (askokcancel : bool) (e : Engine) : Closing :=
  if is_running e then
    if askokcancel then Destroyed true (stop e) else Kept e
  else Destroyed false e.

(** Every state of the engine object recorded in a stretch of history says
    that a run is under way. *)
Definition all_running (h : list (Actor * Engine)) : Prop :=
  Forall (fun x => is_running (snd x) = true) h.

(** From a world in which [is_running] is set, it stays set. *)
Definition busy (w : World) (t : list Event) (w' : World) : Prop :=
  is_running (engine w) = true ->
  is_running (engine w') = true
  /\ exists h, history w' = history w ++ h /\ all_running h.

Lemma busy_refl w : busy w [] w.
Proof.
  intros H. split; [exact H |]. exists []. split; [now rewrite app_nil_r |].
  constructor.
Qed.

Lemma busy_trans a t1 b t2 c :
  busy a t1 b -> busy b t2 c -> busy a (t1 ++ t2) c.
Proof.
  intros H1 H2 Ha. destruct (H1 Ha) as (Hb & h1 & E1 & F1).
  destruct (H2 Hb) as (Hc & h2 & E2 & F2).
  split; [exact Hc |]. exists (h1 ++ h2).
  split; [now rewrite E2, E1, app_assoc | now apply Forall_app].
Qed.

Lemma busy_then w w1 t w2 : busy w [] w1 -> busy w1 t w2 -> busy w [] w2.
Proof. intros B1 B2. exact (busy_trans B1 B2). Qed.

Section Busy.

Variable env : Env.

Lemma busy_interleave w t : busy w t (interleave env w).
Proof.
  intros H. unfold interleave. cbn. rewrite is_running_control.
  split; [exact H |]. eexists. split; [reflexivity |].
  constructor; [| constructor]. cbn. now rewrite is_running_control.
Qed.

Lemma busy_then_interleave w w1 :
  busy w [] w1 -> busy w [] (interleave env w1).
Proof. intros B. exact (busy_then B (busy_interleave w1 [])). Qed.

Lemma busy_with_engine f w :
  (forall e, is_running (f e) = is_running e) -> busy w [] (with_engine f w).
Proof.
  intros Hf H. unfold with_engine. cbn. rewrite Hf.
  split; [exact H |]. eexists. split; [reflexivity |].
  constructor; [| constructor]. cbn. now rewrite Hf.
Qed.

Lemma emit_busy ev : respects busy (emit env ev).
Proof. intro w. apply busy_interleave. Qed.

Lemma read_should_stop_busy place : respects busy (read_should_stop env place).
Proof. intro w. apply busy_interleave. Qed.

Lemma update_locals_busy f : respects busy (update_locals f).
Proof.
  intros w H. cbn. split; [exact H |]. exists [].
  split; [now rewrite app_nil_r | constructor].
Qed.

Lemma get_locals_busy : respects busy get_locals.
Proof. intro w. apply busy_refl. Qed.

Lemma enter_busy url attempt : respects busy (enter env url attempt).
Proof.
  intros w H. cbn. split; [exact H |]. exists [].
  split; [now rewrite app_nil_r | constructor].
Qed.

End Busy.

#[export] Hint Resolve emit_busy read_should_stop_busy update_locals_busy
  get_locals_busy enter_busy : keeps.

Section BusyByParts.

Variable env : Env.

Lemma download_file_busy url download_path selector attempt max_retries
    page_timeout download_timeout :
  respects busy (download_file env url download_path selector attempt
                   max_retries page_timeout download_timeout).
Proof. unfold download_file. keeps_all busy_refl busy_trans. Qed.

Lemma wait_before_retry_busy settings attempt :
  respects busy (wait_before_retry env settings attempt).
Proof. keeps_all busy_refl busy_trans. Qed.

Lemma pause_after_item_busy settings total index :
  respects busy (pause_after_item env settings total index).
Proof. keeps_all busy_refl busy_trans. Qed.

Hint Resolve download_file_busy wait_before_retry_busy
  pause_after_item_busy : keeps.

Lemma retry_busy settings url todo success :
  respects busy (retry env settings url todo success).
Proof.
  revert success. induction todo as [| attempt rest IH]; intros success; cbn;
    keeps busy_refl busy_trans.
Qed.

Hint Resolve retry_busy : keeps.

Lemma item_busy settings total index url :
  respects busy (item env settings total index url).
Proof. unfold item. keeps_all busy_refl busy_trans. Qed.

Hint Resolve item_busy : keeps.

Lemma process_busy settings total index urls :
  respects busy (process env settings total index urls).
Proof.
  revert index. induction urls as [| url rest IH]; intros index; cbn;
    keeps_all busy_refl busy_trans.
Qed.

Hint Resolve process_busy : keeps.

Lemma log_failed_busy urls : respects busy (log_failed env urls).
Proof.
  induction urls as [| url rest IH]; cbn; keeps_all busy_refl busy_trans.
Qed.

Lemma browse_guarded_busy urls settings :
  respects busy (browse_guarded env urls settings).
Proof.
  unfold browse_guarded, browse, open_browser, close_browser_session.
  keeps_all busy_refl busy_trans.
Qed.

Lemma announce_busy urls settings :
  respects busy (announce env urls settings).
Proof. unfold announce. keeps_all busy_refl busy_trans. Qed.

(** The summary up to its last step, which clears the flag. *)
Lemma summarise_busy urls w :
  is_running (engine w) = true ->
  exists h e,
    history (after (summarise env urls w)) = history w ++ h ++ [(Worker, e)]
    /\ all_running h
    /\ engine (after (summarise env urls w)) = e.
Proof.
  intros H.
  assert (Step : forall w0 w1 (f : Engine -> Engine),
             busy w0 [] w1 -> is_running (engine w0) = true ->
             exists h e,
               history (with_engine f (interleave env w1))
               = history w0 ++ h ++ [(Worker, e)]
               /\ all_running h
               /\ engine (with_engine f (interleave env w1)) = e).
  { intros w0 w1 f B H0.
    pose proof (busy_then_interleave env B) as B'.
    destruct (B' H0) as (_ & h & Eh & Fh).
    exists h. eexists. unfold with_engine. cbn [history engine].
    rewrite Eh, <- app_assoc. repeat split. exact Fh. }
  unfold summarise, set_is_running. unfold_monad. cbn.
  autorewrite with world.
  destruct (failed_urls (locals w)) as [| u fs]; cbn.
  - apply Step; [| exact H].
    repeat apply busy_then_interleave. apply busy_refl.
  - match goal with
    | |- context [log_failed env ?l ?w'] =>
        pose proof (log_failed_spec env l w') as (Ho & _);
        pose proof (log_failed_busy l w') as B;
        destruct (log_failed env l w') as [o w'' t]
    end.
    cbn in Ho, B. subst o. cbn.
    apply Step; [| exact H].
    repeat apply busy_then_interleave.
    refine (busy_then _ B).
    repeat apply busy_then_interleave. apply busy_refl.
Qed.

End BusyByParts.

(** [run] leaves the engine idle, unless it could not make the download
    folder: then it raises what [mkdir] raised, having logged nothing and
    called nothing else, and [is_running] stays set for good, so that
    closing the window afterwards still asks whether to stop a download. *)
Theorem run_ends_idle_unless_folder_fails (env : Env) (urls : list string)
    (settings : Settings) (w : World) (askokcancel : bool) :
  let r := run env urls settings w in
  match mkdir (session env) with
  | None =>
      (exists s f, outcome r = Ok (s, f))
      /\ is_running (engine (after r)) = false
      /\ on_closing askokcancel (engine (after r))
         = Destroyed false (engine (after r))
  | Some e =>
      outcome r = Raised e
      /\ events r = [Do (Mkdir (download_folder settings))]
      /\ is_running (engine (after r)) = true
      /\ on_closing askokcancel (engine (after r))
         = if askokcancel then Destroyed true (stop (engine (after r)))
           else Kept (engine (after r))
  end.
Proof.
  intros r. subst r. destruct (mkdir (session env)) as [e |] eqn:Hm.
  - rewrite (run_aborted env urls settings w Hm). cbn [outcome events after].
    assert (R : is_running (engine (interleave env (reset_world env w))) = true).
    { unfold reset_world. rewrite engine_interleave, is_running_control.
      autorewrite with world. cbn.
      rewrite engine_interleave, is_running_control.
      autorewrite with world. reflexivity. }
    unfold on_closing. rewrite R. auto.
  - destruct (run_parts env urls settings w Hm) as (Ho & Ha & _).
    rewrite Ho, Ha.
    destruct (summarise_idle env urls
                (after (browse_guarded env urls settings
                          (after (announce env urls settings (prepared env w))))))
      as (e & He & Ee & _).
    unfold on_closing. rewrite Ee, He. eauto.
Qed.

(** From the first assignment of [run] to its last, [is_running] is set in
    every state the engine object goes through, whoever wrote it: the
    history of a run is the controlling thread's turn before the first
    assignment, that assignment, states that all say "running", and at the
    end, when the folder could be made, the assignment that clears the
    flag. *)
Theorem running_while_run_lasts (env : Env) (urls : list string)
    (settings : Settings) (w : World) :
  let r := run env urls settings w in
  exists e0 e1 h tail,
    history (after r) = history w ++ (Controller, e0) :: (Worker, e1) :: h ++ tail
    /\ is_running e1 = true
    /\ all_running h
    /\ tail = match mkdir (session env) with
              | None => [(Worker, engine (after r))]
              | Some _ => []
              end.
Proof.
  intros r. subst r.
  set (w1 := with_engine
               (fun e => {| is_running := true; should_stop := should_stop e |})
               (interleave env w)).
  assert (H1 : is_running (engine w1) = true) by reflexivity.
  assert (E1 : history w1
               = history w ++ [(Controller, engine (interleave env w));
                               (Worker, engine w1)]).
  { unfold w1, with_engine, interleave. cbn. now rewrite <- app_assoc. }
  assert (B2 : busy w1 [] (interleave env (reset_world env w))).
  { unfold reset_world. fold w1.
    apply busy_then_interleave.
    refine (busy_then _ (busy_with_engine _ _ _)); [| reflexivity].
    apply busy_interleave. }
  exists (engine (interleave env w)), (engine w1).
  destruct (mkdir (session env)) as [e |] eqn:Hm.
  - rewrite (run_aborted env urls settings w Hm). cbn [after].
    destruct (B2 H1) as (_ & h & Eh & Fh).
    exists h, []. rewrite Eh, E1, <- app_assoc, app_nil_r. cbn. auto.
  - destruct (run_parts env urls settings w Hm) as (_ & Ha & _). rewrite Ha.
    set (wa := after (announce env urls settings (prepared env w))).
    set (wb := after (browse_guarded env urls settings wa)).
    assert (B : busy w1 [] wb).
    { refine (busy_then _ (browse_guarded_busy env urls settings wa)).
      refine (busy_then _ (announce_busy env urls settings (prepared env w))).
      exact (busy_then B2 (update_locals_busy (fun _ => zero) _)). }
    destruct (B H1) as (Hb & h & Eh & Fh).
    destruct (summarise_busy env urls wb Hb) as (h' & e & Eh' & Fh' & Ee).
    exists (h ++ h'), [(Worker, e)].
    rewrite Eh', Eh, E1, Ee, <- !app_assoc. cbn.
    repeat split; auto. now apply Forall_app.
Qed.

(** ** What a run can log and call *)

Definition Level_eqb (a b : Level) : bool :=
  match a, b with
  | INFO, INFO | SUCCESS, SUCCESS | WARNING, WARNING | ERROR, ERROR => true
  | _, _ => false
  end.

Definition Family_eqb (a b : Family) : bool :=
  match a, b with
  | Chromium, Chromium | Firefox, Firefox | WebKit, WebKit => true
  | _, _ => false
  end.

(** The level at which the source logs each of its texts. *)
Definition level_of (m : Message) : Level :=
  match m with
  | MsgComplete _ _ => SUCCESS
  | MsgNotSaved _ | MsgTimeout _ | MsgError _ | MsgBrowserError _ => ERROR
  | MsgNotFound _ | MsgStoppedByUser => WARNING
  | _ => INFO
  end.

(** [u in urls] *)
Definition among (urls : list string) (u : string) : bool :=
  existsb (String.eqb u) urls.

(** An attempt number of [range(1, max_retries + 2)]. *)
Definition attempt_number (settings : Settings) (a : Z) : bool :=
  (1 <=? a) && (a <=? max_retries settings + 1).

(** The lines a run of [urls] with [settings] can log, with the values
    they carry. *)
Definition expected_line (settings : Settings) (urls : list string)
    (m : Message) : bool :=
  match m with
  | MsgRule c n =>
      (Ascii.eqb c "=" && (n =? 50)%nat) || (Ascii.eqb c "-" && (n =? 40)%nat)
  | MsgUrlsToProcess n => (n =? List.length urls)%nat
  | MsgDownloadFolder p => String.eqb p (download_folder settings)
  | MsgButtonSelector s | MsgNotFound s => String.eqb s (selector settings)
  | MsgBrowser bt c =>
      String.eqb bt (browser_type settings)
      && String.eqb c (custom_browser_path settings)
  | MsgUsingCustom p =>
      truthy (custom_browser_path settings)
      && String.eqb p (custom_browser_path settings)
  | MsgProcessing i n =>
      (n =? List.length urls)%nat && (1 <=? i)%nat && (i <=? n)%nat
  | MsgOpening a t u =>
      attempt_number settings a && (t =? max_retries settings + 1)
      && among urls u
  | MsgRetrying d | MsgWaiting d => d =? delay settings
  | MsgTotals t _ _ => (t =? List.length urls)%nat
  | _ => true
  end.

(** The calls a run can make once the download folder exists, with their
    arguments. *)
Definition expected_call (settings : Settings) (urls : list string)
    (c : Call) : bool :=
  match c with
  | Mkdir _ => false
  | PathExists p =>
      truthy (custom_browser_path settings)
      && String.eqb p (custom_browser_path settings)
  | Launch family h exe =>
      Family_eqb family (choose_family (browser_type settings)
                                       (custom_browser_path settings))
      && Bool.eqb h (headless settings)
      && match exe with
         | None => true
         | Some p =>
             truthy (custom_browser_path settings)
             && String.eqb p (custom_browser_path settings)
         end
  | Goto u t => among urls u && (t =? page_timeout settings * 1000)
  | WaitForTimeout ms => ms =? 1000
  | Count s | Click s => String.eqb s (selector settings)
  | ExpectDownload t => t =? download_timeout settings * 1000
  | Sleep d => d =? delay settings
  | _ => true
  end.

Definition expected (settings : Settings) (urls : list string)
    (ev : Event) : bool :=
  match ev with
  | Log l m => Level_eqb l (level_of m) && expected_line settings urls m
  | Do c => expected_call settings urls c
  | Poll _ _ => true
  | Enter u a => among urls u && attempt_number settings a
  end.

Lemma Level_eqb_eq a b : Level_eqb a b = true <-> a = b.
Proof. destruct a, b; cbn; split; congruence. Qed.

Lemma Family_eqb_refl a : Family_eqb a a = true.
Proof. now destruct a. Qed.

Lemma among_In urls u : among urls u = true <-> In u urls.
Proof.
  unfold among. rewrite existsb_exists. split.
  - intros (x & Hx & E). apply String.eqb_eq in E. now subst.
  - intros H. exists u. split; [exact H | apply String.eqb_refl].
Qed.

Lemma attempt_number_range settings :
  forallb (attempt_number settings) (range 1 (max_retries settings + 2)) = true.
Proof.
  apply forallb_forall. intros a Ha. unfold range in Ha.
  apply in_map_iff in Ha as (k & <- & Hk). apply in_seq in Hk.
  unfold attempt_number. apply andb_true_iff. split; apply Z.leb_le; lia.
Qed.

Ltac expected_now :=
  cbv beta iota delta [expected expected_line expected_call level_of Level_eqb];
  rewrite ?Z.eqb_refl, ?String.eqb_refl, ?Nat.eqb_refl, ?Family_eqb_refl,
    ?Bool.eqb_reflx, ?Ascii.eqb_refl;
  repeat match goal with
         | H : _ = true |- _ => rewrite H
         end;
  reflexivity.

Section Expected.

Variable env : Env.
Variable settings : Settings.
Variable urls : list string.

Let fits := expected settings urls.

Hint Extern 2 (_ = true) => solve [expected_now] : keeps.

Lemma download_file_expected url attempt :
  among urls url = true ->
  attempt_number settings attempt = true ->
  respects (emits fits)
    (download_file env url (download_folder settings) (selector settings)
       attempt (max_retries settings) (page_timeout settings * 1000)
       (download_timeout settings * 1000)).
Proof.
  intros Hu Ha. unfold download_file, fits.
  keeps_all (emits_refl (expected settings urls))
            (@emits_trans (expected settings urls)).
Qed.

Lemma wait_before_retry_expected attempt :
  respects (emits fits) (wait_before_retry env settings attempt).
Proof.
  unfold fits.
  keeps_all (emits_refl (expected settings urls))
            (@emits_trans (expected settings urls)).
Qed.

Lemma pause_after_item_expected total index :
  respects (emits fits) (pause_after_item env settings total index).
Proof.
  unfold fits.
  keeps_all (emits_refl (expected settings urls))
            (@emits_trans (expected settings urls)).
Qed.

Hint Resolve download_file_expected wait_before_retry_expected
  pause_after_item_expected : keeps.

Lemma retry_expected url todo : forall success,
  among urls url = true ->
  forallb (attempt_number settings) todo = true ->
  respects (emits fits) (retry env settings url todo success).
Proof.
  induction todo as [| attempt rest IH]; intros success Hu Ht; cbn [retry].
  - intro w. reflexivity.
  - cbn in Ht. apply andb_true_iff in Ht as [Ha Hr].
    specialize (fun s => IH s Hu Hr). unfold fits in *.
    keeps (emits_refl (expected settings urls))
          (@emits_trans (expected settings urls)).
Qed.

Lemma item_expected index url :
  among urls url = true ->
  (1 <= index <= List.length urls)%nat ->
  respects (emits fits) (item env settings (List.length urls) index url).
Proof.
  intros Hu [H1 H2].
  pose proof (retry_expected url (range 1 (max_retries settings + 2)) false Hu
                (attempt_number_range settings)) as R.
  apply Nat.leb_le in H1, H2.
  unfold item, fits in *.
  keeps_all (emits_refl (expected settings urls))
            (@emits_trans (expected settings urls)).
Qed.

Lemma process_expected rest : forall index,
  incl rest urls ->
  (1 <= index)%nat ->
  (index + List.length rest = S (List.length urls))%nat ->
  respects (emits fits) (process env settings (List.length urls) index rest).
Proof.
  induction rest as [| url rest IH]; intros index Hin H1 Hlen; cbn [process].
  - intro w. reflexivity.
  - assert (Hu : among urls url = true).
    { apply among_In, Hin. now left. }
    pose proof (item_expected url Hu (index := index)) as I.
    assert (Hidx : (1 <= index <= List.length urls)%nat) by (cbn in Hlen; lia).
    specialize (I Hidx).
    assert (IH' : respects (emits fits)
                    (process env settings (List.length urls) (S index) rest)).
    { apply IH.
      - intros u Hr. apply Hin. now right.
      - lia.
      - cbn in Hlen. lia. }
    unfold fits in *.
    keeps_all (emits_refl (expected settings urls))
              (@emits_trans (expected settings urls)).
Qed.

Lemma open_browser_expected :
  respects (emits fits) (open_browser env settings).
Proof.
  intro w. unfold emits, fits, open_browser, ask, call, log. unfold_monad. cbn.
  destruct (truthy (custom_browser_path settings)) eqn:T; cbn;
    [destruct (path_exists env _); cbn |];
    destruct (launch (session env)); cbn;
    try destruct (new_context (session env)); cbn;
    try destruct (new_page (session env)); cbn;
    rewrite ?T, ?String.eqb_refl, ?Family_eqb_refl, ?Bool.eqb_reflx;
    reflexivity.
Qed.

Lemma browse_guarded_expected :
  respects (emits fits) (browse_guarded env urls settings).
Proof.
  pose proof (process_expected (incl_refl urls) (index := 1)) as P.
  assert (H : respects (emits fits)
                (process env settings (List.length urls) 1 urls)).
  { apply P; lia. }
  clear P.
  pose proof open_browser_expected as O.
  unfold browse_guarded, browse, close_browser_session, fits in *.
  keeps_all (emits_refl (expected settings urls))
            (@emits_trans (expected settings urls)).
Qed.

Lemma announce_expected :
  respects (emits fits) (announce env urls settings).
Proof.
  unfold announce, fits.
  keeps_all (emits_refl (expected settings urls))
            (@emits_trans (expected settings urls)).
Qed.

Lemma summary_expected l :
  forallb fits (summary_trace (List.length urls) l) = true.
Proof.
  unfold summary_trace, fits. rewrite !forallb_app. cbn.
  rewrite Nat.eqb_refl. cbn.
  destruct (failed_urls l) as [| u fs]; cbn; [reflexivity |].
  rewrite andb_true_r. induction fs as [| v fs IH]; cbn; auto.
Qed.

(** Every run begins by making the download folder; what follows is
    made of the lines and calls above. *)
Lemma run_expected w :
  exists t,
    events (run env urls settings w)
    = Do (Mkdir (download_folder settings)) :: t
    /\ forallb fits t = true
    /\ (mkdir (session env) <> None -> t = []).
Proof.
  destruct (mkdir (session env)) as [e |] eqn:Hm.
  - rewrite (run_aborted env urls settings w Hm). cbn. eauto.
  - destruct (run_parts env urls settings w Hm) as (_ & _ & ->).
    eexists. split; [reflexivity |]. split; [| congruence].
    rewrite !forallb_app.
    pose proof (announce_expected (prepared env w)) as A. unfold emits in A.
    rewrite A.
    pose proof (browse_guarded_expected
                  (after (announce env urls settings (prepared env w)))) as B.
    unfold emits in B. rewrite B.
    now rewrite summary_expected.
Qed.

End Expected.

(** ** The folder comes first *)

Definition is_mkdir (ev : Event) : bool :=
  match ev with Do (Mkdir _) => true | _ => false end.

(** Whatever happens afterwards, the first thing a run does, before it logs
    a line or touches the browser, is to make the download folder named in
    the settings; it does so once. *)
Theorem folder_is_made_first (env : Env) (urls : list string)
    (settings : Settings) (w : World) :
  exists t,
    events (run env urls settings w)
    = Do (Mkdir (download_folder settings)) :: t
    /\ tally is_mkdir t = 0%nat.
Proof.
  destruct (run_expected env settings urls w) as (t & E & F & _).
  exists t. split; [exact E |].
  apply (tally_none is_mkdir (expected settings urls) t F).
  intros ev. destruct ev as [l m | [] | p b | u a]; cbn; congruence.
Qed.

(** ** Pages, attempt numbers and settings *)

(** The pages a run opens are addresses of the job, each attempt carries a
    number from 1 to [max_retries + 1], which is also what the "Opening"
    line shows, and the progress line "Processing URL i/n" has [n] the
    length of the job and [i] between 1 and [n]. *)
Theorem attempts_stay_in_the_job (env : Env) (urls : list string)
    (settings : Settings) (w : World) :
  Forall (fun ev =>
            match ev with
            | Enter u a => In u urls /\ 1 <= a <= max_retries settings + 1
            | Do (Goto u _) => In u urls
            | Log _ (MsgOpening a t u) =>
                In u urls /\ 1 <= a <= t /\ t = max_retries settings + 1
            | Log _ (MsgProcessing i n) =>
                n = List.length urls /\ (1 <= i <= n)%nat
            | _ => True
            end)
         (events (run env urls settings w)).
Proof.
  destruct (run_expected env settings urls w) as (t & -> & F & _).
  constructor; [exact I |].
  apply Forall_forall. intros ev Hin.
  rewrite forallb_forall in F. specialize (F ev Hin).
  destruct ev as [l [] | [] | p b | u a]; try exact I; cbn in F;
    unfold attempt_number in F;
    repeat match goal with
           | H : _ && _ = true |- _ => apply andb_true_iff in H as [? ?]
           end;
    repeat match goal with
           | H : among _ _ = true |- _ => apply among_In in H
           | H : (_ <=? _)%Z = true |- _ => apply Z.leb_le in H
           | H : (_ =? _)%Z = true |- _ => apply Z.eqb_eq in H
           | H : (_ <=? _)%nat = true |- _ => apply Nat.leb_le in H
           | H : (_ =? _)%nat = true |- _ => apply Nat.eqb_eq in H
           end;
    repeat split; auto; try lia.
  destruct index; [discriminate | lia].
Qed.

(** The values of the settings reach the calls unchanged, but for the two
    timeouts, given in seconds and passed on in milliseconds: every
    navigation is given [page_timeout * 1000], every wait for a download
    [download_timeout * 1000]; the pause for dynamic content is always
    1000 ms; the selector counted and clicked is the configured one; every
    sleep lasts [delay]; and the browser is launched with the configured
    [headless] flag and, as executable, the custom path or none. *)
Theorem settings_reach_the_calls (env : Env) (urls : list string)
    (settings : Settings) (w : World) :
  Forall (fun ev =>
            match ev with
            | Do (Goto _ t) => t = page_timeout settings * 1000
            | Do (ExpectDownload t) => t = download_timeout settings * 1000
            | Do (WaitForTimeout ms) => ms = 1000
            | Do (Count s) | Do (Click s) => s = selector settings
            | Do (Sleep d) => d = delay settings
            | Do (Launch family h exe) =>
                family = choose_family (browser_type settings)
                                       (custom_browser_path settings)
                /\ h = headless settings
                /\ (exe = None \/ exe = Some (custom_browser_path settings))
            | _ => True
            end)
         (events (run env urls settings w)).
Proof.
  destruct (run_expected env settings urls w) as (t & -> & F & _).
  constructor; [exact I |].
  apply Forall_forall. intros ev Hin.
  rewrite forallb_forall in F. specialize (F ev Hin).
  destruct ev as [l m | [] | p b | u a]; try exact I; cbn in F;
    repeat match goal with
           | H : _ && _ = true |- _ => apply andb_true_iff in H as [? ?]
           end;
    repeat match goal with
           | H : (_ =? _)%Z = true |- _ => apply Z.eqb_eq in H
           | H : String.eqb _ _ = true |- _ => apply String.eqb_eq in H
           | H : Bool.eqb _ _ = true |- _ => apply Bool.eqb_prop in H
           end;
    auto.
  repeat split; auto.
  - destruct family, (choose_family _ _); cbn in *; congruence.
  - destruct executable_path as [p |]; [right | now left].
    match goal with
    | H : _ && String.eqb _ _ = true |- _ =>
        apply andb_true_iff in H as [_ H]; apply String.eqb_eq in H
    end.
    now subst.
Qed.

(** ** The progress lines *)

(** The pairs [(i, n)] of the lines "Processing URL i/n" of a trace. *)
Definition progress (t : list Event) : list (nat * nat) :=
  flat_map (fun ev => match ev with
                      | Log _ (MsgProcessing i n) => [(i, n)]
                      | _ => []
                      end) t.

Lemma progress_app t1 t2 : progress (t1 ++ t2) = progress t1 ++ progress t2.
Proof. apply flat_map_app. Qed.

Lemma progress_none p t :
  forallb p t = true ->
  (forall l i n, p (Log l (MsgProcessing i n)) = false) ->
  progress t = [].
Proof.
  intros H Hp. unfold progress. induction t as [| ev t IH]; cbn in *.
  - reflexivity.
  - apply andb_true_iff in H as [Hev Ht]. rewrite (IH Ht), app_nil_r.
    destruct ev as [l [] | c | q b | u a]; try reflexivity.
    now rewrite Hp in Hev.
Qed.

Lemma item_event_no_progress l i n : item_event (Log l (MsgProcessing i n)) = false.
Proof. now destruct l. Qed.

Lemma outer_event_no_progress l i n : outer_event (Log l (MsgProcessing i n)) = false.
Proof. reflexivity. Qed.

Lemma summary_event_no_progress l i n :
  summary_event (Log l (MsgProcessing i n)) = false.
Proof. now destruct l. Qed.

Lemma process_progress env settings total urls : forall index w,
  let r := process env settings total index urls w in
  progress (events r)
  = map (fun i => (i, total)) (seq index (processed (events r))).
Proof.
  induction urls as [| url rest IH]; intros index w; cbn zeta.
  - reflexivity.
  - cbn [process]. unfold_monad. cbn.
    destruct (should_stop (engine (interleave env w))); [reflexivity |].
    set (w1 := interleave env w).
    destruct (item_spec env settings total index url w1)
      as [(t & Et & E2 & _) _ _ _].
    destruct (item env settings total index url w1) as [o2 w2 t2].
    cbn [outcome after events] in *. subst t2.
    assert (P2 : processed t = 0%nat).
    { apply (tally_none is_processing item_event t E2).
      apply item_event_not_processing. }
    assert (G2 : progress t = []).
    { apply (progress_none item_event t E2), item_event_no_progress. }
    destruct o2 as [[] | e]; cbn [outcome after events].
    + specialize (IH (S index) w2).
      destruct (process env settings total (S index) rest w2) as [o3 w3 t3].
      cbn [outcome after events] in *. cbn [app].
      change (Poll AtItem false :: ?a :: ?b :: t ++ t3)
        with ([Poll AtItem false; a; b] ++ t ++ t3).
      unfold processed in *. rewrite !progress_app, !tally_app, G2, P2, IH.
      reflexivity.
    + cbn [app].
      change (Poll AtItem false :: ?a :: ?b :: t)
        with ([Poll AtItem false; a; b] ++ t).
      unfold processed in *. rewrite !progress_app, !tally_app, G2, P2.
      reflexivity.
Qed.

(** The progress lines of a run count the items from 1 on, one by one, out
    of the length of the job: they read 1/n, 2/n, ..., k/n for the [k]
    items the run started. *)
Theorem progress_counts_up (env : Env) (urls : list string)
    (settings : Settings) (w : World) :
  let r := run env urls settings w in
  progress (events r)
  = map (fun i => (i, List.length urls)) (seq 1 (processed (events r)))
  /\ (processed (events r) <= List.length urls)%nat.
Proof.
  intros r. subst r.
  destruct (mkdir (session env)) as [e |] eqn:Hm.
  { rewrite (run_aborted env urls settings w Hm). cbn. split; [reflexivity | lia]. }
  destruct (run_shape env urls settings w Hm)
    as (pre & p & post & -> & Epre & Epost & _ & _ & Cases).
  pose proof (summary_events (List.length urls) (locals (after p))) as Es.
  unfold processed. rewrite !progress_app, !tally_app.
  rewrite (progress_none outer_event pre Epre outer_event_no_progress),
    (progress_none outer_event post Epost outer_event_no_progress),
    (progress_none summary_event _ Es summary_event_no_progress).
  destruct (outer_quiet pre Epre) as (_ & P1 & _).
  destruct (outer_quiet post Epost) as (_ & P2 & _).
  assert (P3 : processed (summary_trace (List.length urls) (locals (after p))) = 0%nat).
  { apply (tally_none is_processing summary_event _ Es).
    intros ev. destruct ev as [[] [] | [] | [] [] | u a]; cbn; congruence. }
  unfold processed in *. rewrite P1, P2, P3, app_nil_r, Nat.add_0_r. cbn [app Nat.add].
  destruct Cases as [(wp & _ & -> & _) | (e & _ & -> & _)].
  - split; [apply process_progress |].
    apply (process_processed
             (process_spec env settings (List.length urls) urls 1 wp)).
  - cbn. split; [reflexivity | lia].
Qed.

(** ** The browser session is closed *)

Definition is_log (ev : Event) : bool :=
  match ev with Log _ _ => true | _ => false end.

Definition is_start_playwright (ev : Event) : bool :=
  match ev with Do StartPlaywright => true | _ => false end.

Definition is_stop_playwright (ev : Event) : bool :=
  match ev with Do StopPlaywright => true | _ => false end.

Definition is_launch (ev : Event) : bool :=
  match ev with Do (Launch _ _ _) => true | _ => false end.

Definition is_close_context (ev : Event) : bool :=
  match ev with Do CloseContext => true | _ => false end.

Definition is_close_browser (ev : Event) : bool :=
  match ev with Do CloseBrowser => true | _ => false end.

(** How often a trace starts and stops Playwright, launches a browser,
    closes the context and closes the browser. *)
Definition session_calls (t : list Event) : list nat :=
  [tally is_start_playwright t; tally is_launch t; tally is_close_context t;
   tally is_close_browser t; tally is_stop_playwright t].

Definition add_calls (a b : list nat) : list nat :=
  map (fun xy => (fst xy + snd xy)%nat) (combine a b).

Lemma session_calls_app t1 t2 :
  session_calls (t1 ++ t2) = add_calls (session_calls t1) (session_calls t2).
Proof. unfold session_calls, add_calls. cbn. now rewrite !tally_app. Qed.

Lemma session_calls_cons ev t :
  session_calls (ev :: t) = add_calls (session_calls [ev]) (session_calls t).
Proof. apply (session_calls_app [ev] t). Qed.

(** Events that are none of those calls. *)
Definition no_session_call (ev : Event) : bool :=
  negb (is_start_playwright ev || is_launch ev || is_close_context ev
        || is_close_browser ev || is_stop_playwright ev).

Lemma session_calls_none t :
  forallb no_session_call t = true -> session_calls t = [0; 0; 0; 0; 0]%nat.
Proof.
  intros H. unfold session_calls.
  rewrite (tally_none is_start_playwright no_session_call t H),
    (tally_none is_launch no_session_call t H),
    (tally_none is_close_context no_session_call t H),
    (tally_none is_close_browser no_session_call t H),
    (tally_none is_stop_playwright no_session_call t H);
    try reflexivity;
    intros ev; destruct ev as [l m | [] | p b | u a]; cbn; congruence.
Qed.

Lemma loop_event_no_session_call ev :
  loop_event ev = true -> no_session_call ev = true.
Proof. destruct ev as [[] [] | [] | [] [] | u a]; cbn; congruence. Qed.

Lemma is_log_no_session_call ev : is_log ev = true -> no_session_call ev = true.
Proof. destruct ev as [l m | [] | p b | u a]; cbn; congruence. Qed.

Lemma summary_logs total l : forallb is_log (summary_trace total l) = true.
Proof.
  generalize (summary_events total l). apply forallb_impl.
  intros ev. destruct ev as [[] [] | [] | [] [] | u a]; cbn; congruence.
Qed.

Lemma announce_logs env urls settings :
  respects (emits is_log) (announce env urls settings).
Proof.
  unfold announce. keeps_all (emits_refl is_log) (@emits_trans is_log).
Qed.

(** The session-level calls of a browser that is opened. *)
Lemma open_browser_calls env settings w :
  session_calls (events (open_browser env settings w)) = [0; 1; 0; 0; 0]%nat.
Proof.
  unfold open_browser, ask, call, log. unfold_monad. cbn.
  destruct (truthy (custom_browser_path settings)); cbn;
    [destruct (path_exists env _); cbn |];
    destruct (launch (session env)); cbn; try reflexivity;
    destruct (new_context (session env)); cbn; try reflexivity;
    destruct (new_page (session env)); reflexivity.
Qed.

(** One for "yes". *)
Definition once (b : bool) : nat := if b then 1%nat else 0%nat.

Definition answered (a : option Fault) : bool :=
  match a with None => true | Some _ => false end.

(** The session-level calls of the guarded session, and what follows the
    stopping of Playwright. *)
Lemma browse_guarded_calls env urls settings w :
  sleeps env (delay settings) ->
  let b := browse_guarded env urls settings w in
  let started := answered (start_playwright (session env)) in
  let opened := answered (session_fault env) in
  session_calls (events b)
  = [1%nat; once started; once opened;
     once (opened && answered (close_context (session env)));
     once started]
  /\ (started = true ->
      exists before rest,
        events b = before ++ Do StopPlaywright :: rest
        /\ forallb is_log rest = true).
Proof.
  intros Hd b started opened. subst b started opened.
  unfold browse_guarded, browse, session_fault, call, log. unfold_monad. cbn.
  destruct (start_playwright (session env)) as [e |] eqn:SP; cbn.
  { split; [reflexivity | discriminate]. }
  set (w0 := interleave env w).
  pose proof (open_browser_outcome env settings w0) as O1.
  pose proof (open_browser_calls env settings w0) as C1.
  destruct (open_browser env settings w0) as [o1 w1 t1].
  cbn [outcome after events] in *.
  destruct (opening_fault env) as [e |] eqn:OF; subst o1; cbn.
  { rewrite session_calls_cons, !session_calls_app, C1. split; [reflexivity |].
    intros _. exists (Do StartPlaywright :: t1),
      [Log ERROR (MsgBrowserError (str e))].
    split; [cbn; rewrite <- app_assoc; reflexivity | reflexivity]. }
  set (n := List.length urls).
  pose proof (process_spec env settings n urls 1 w1) as P.
  destruct (process env settings n 1 urls w1) as [o2 w2 t2].
  destruct P as [_ _ E2 _ _ _ _ _ T2]. cbn [outcome after events] in *.
  destruct (T2 Hd) as [-> _].
  assert (C2 : session_calls t2 = [0; 0; 0; 0; 0]%nat).
  { apply session_calls_none. revert E2.
    apply forallb_impl, loop_event_no_session_call. }
  unfold close_browser_session, call, log. unfold_monad. cbn.
  destruct (close_context (session env)) as [e |]; cbn;
    [| destruct (close_browser (session env)) as [e |]; cbn];
    rewrite session_calls_cons, !session_calls_app, C1, C2;
    (split; [reflexivity |]); intros _.
  - exists (Do StartPlaywright :: t1 ++ t2
            ++ [Log INFO MsgClosing; Do CloseContext]).
    exists [Log ERROR (MsgBrowserError (str e))]. split; [| reflexivity].
    cbn. rewrite <- !app_assoc. cbn. reflexivity.
  - exists (Do StartPlaywright :: t1 ++ t2
            ++ [Log INFO MsgClosing; Do CloseContext; Do CloseBrowser]).
    exists [Log ERROR (MsgBrowserError (str e))]. split; [| reflexivity].
    cbn. rewrite <- !app_assoc. cbn. reflexivity.
  - exists (Do StartPlaywright :: t1 ++ t2
            ++ [Log INFO MsgClosing; Do CloseContext; Do CloseBrowser]).
    exists []. split; [| reflexivity].
    cbn. rewrite <- !app_assoc. cbn. reflexivity.
Qed.

(** Whenever the browser was opened, the run closes it again, once,
    whether it went through the whole job or was stopped on the way:
    with a delay that [time.sleep] accepts, a run starts Playwright once; if
    that succeeds it launches one browser and stops Playwright once, after
    which it only logs; and if the browser, its context and its page could
    be opened it calls [context.close()] once and then, unless that call
    raised, [browser.close()] once.  A session that did not open is not
    closed. *)
Theorem session_is_closed (env : Env) (urls : list string)
    (settings : Settings) (w : World) :
  mkdir (session env) = None ->
  sleeps env (delay settings) ->
  let t := events (run env urls settings w) in
  let started := answered (start_playwright (session env)) in
  let opened := answered (session_fault env) in
  tally is_start_playwright t = 1%nat
  /\ tally is_launch t = once started
  /\ tally is_close_context t = once opened
  /\ tally is_close_browser t
     = once (opened && answered (close_context (session env)))
  /\ tally is_stop_playwright t = once started
  /\ (started = true ->
      exists before rest,
        t = before ++ Do StopPlaywright :: rest
        /\ forallb is_log rest = true).
Proof.
  intros Hm Hd t started opened. subst t started opened.
  destruct (run_parts env urls settings w Hm) as (_ & _ & ->).
  set (a := announce env urls settings (prepared env w)).
  destruct (browse_guarded_calls env urls settings (after a) Hd) as [C S].
  pose proof (announce_logs env urls settings (prepared env w)) as LA.
  fold a in LA. unfold emits in LA.
  pose proof (summary_logs (List.length urls)
                (locals (after (browse_guarded env urls settings (after a)))))
    as LS.
  assert (Calls :
    session_calls (Do (Mkdir (download_folder settings))
                   :: events a ++ events (browse_guarded env urls settings (after a))
                      ++ summary_trace (List.length urls)
                           (locals (after (browse_guarded env urls settings (after a)))))
    = [1%nat; once (answered (start_playwright (session env)));
       once (answered (session_fault env));
       once (answered (session_fault env)
             && answered (close_context (session env)));
       once (answered (start_playwright (session env)))]).
  { change (Do (Mkdir ?f) :: ?x) with ([Do (Mkdir f)] ++ x).
    rewrite !session_calls_app, C.
    rewrite (session_calls_none (events a)),
      (session_calls_none (summary_trace _ _)).
    - cbn. now rewrite !Nat.add_0_r.
    - revert LS. apply forallb_impl, is_log_no_session_call.
    - revert LA. apply forallb_impl, is_log_no_session_call. }
  unfold session_calls in Calls.
  injection Calls as C1 C2 C3 C4 C5.
  repeat (split; [assumption |]).
  intros Hs. destruct (S Hs) as (before & rest & E & L).
  exists (Do (Mkdir (download_folder settings)) :: events a ++ before),
    (rest ++ summary_trace (List.length urls)
               (locals (after (browse_guarded env urls settings (after a))))).
  split.
  - rewrite E. cbn. rewrite <- !app_assoc. reflexivity.
  - now rewrite forallb_app, L, LS.
Qed.

(** ** How many attempts an item takes *)

Definition is_sleep (ev : Event) : bool :=
  match ev with Do (Sleep _) => true | _ => false end.

Definition is_waiting (ev : Event) : bool :=
  match ev with Log _ (MsgWaiting _) => true | _ => false end.

(** One call of [download_file] in the trace is one attempt entered, and
    nothing that is not an attempt's own. *)
Lemma attempt_entries env url download_path selector attempt max_retries
    page_timeout download_timeout w :
  entries (events (download_file env url download_path selector attempt
                     max_retries page_timeout download_timeout w)) = 1%nat.
Proof.
  destruct (download_file_spec env url download_path selector attempt
              max_retries page_timeout download_timeout w)
    as (_ & _ & _ & t & -> & H).
  unfold entries, tally. cbn. f_equal.
  apply (tally_none is_enter attempt_event t H).
  intros ev. destruct ev as [l [] | [] | [] [] | u a]; cbn; congruence.
Qed.

Lemma attempt_tally (p : Event -> bool) env url download_path selector attempt
    max_retries page_timeout download_timeout w :
  p (Enter url attempt) = false ->
  (forall ev, attempt_event ev = true -> p ev = false) ->
  tally p (events (download_file env url download_path selector attempt
                     max_retries page_timeout download_timeout w)) = 0%nat.
Proof.
  intros He Hp.
  destruct (download_file_spec env url download_path selector attempt
              max_retries page_timeout download_timeout w)
    as (_ & _ & _ & t & -> & H).
  unfold tally. cbn. rewrite He. apply (tally_none p attempt_event t H Hp).
Qed.

Lemma attempt_event_not_retrying ev : attempt_event ev = true -> is_retrying ev = false.
Proof. destruct ev as [l [] | [] | [] [] | u a]; cbn; congruence. Qed.

Lemma retry_event_not_waiting ev : retry_event ev = true -> is_waiting ev = false.
Proof. destruct ev as [[] [] | [] | [] [] | u a]; cbn; congruence. Qed.

Lemma pause_event_not_entering ev : pause_event ev = true -> is_enter ev = false.
Proof. destruct ev as [[] [] | [] | [] [] | u a]; cbn; congruence. Qed.

(** The attempts of [range(1, max_retries + 2)] after which a retry is
    announced: all but the last. *)
Lemma retries_in_range r :
  0 <= r ->
  List.length (filter (fun a => a <=? r) (range 1 (r + 2))) = Z.to_nat r.
Proof.
  intros Hr. unfold range.
  replace (Z.to_nat (r + 2 - 1)) with (S (Z.to_nat r)) by lia.
  rewrite seq_S, map_app, filter_app, length_app. cbn [map filter Nat.add].
  replace (1 + Z.of_nat (Z.to_nat r) <=? r) with false
    by (symmetry; apply Z.leb_gt; lia).
  cbn [List.length]. rewrite Nat.add_0_r.
  rewrite forallb_filter_id.
  - now rewrite length_map, length_seq.
  - apply forallb_forall. intros a Ha.
    apply in_map_iff in Ha as (k & <- & Hk). apply in_seq in Hk.
    apply Z.leb_le. lia.
Qed.

Lemma firstn_seq_bound j : forall s n k,
  In k (firstn j (seq s n)) -> (s <= k < s + j)%nat.
Proof.
  induction j as [| j IH]; intros s n k H.
  - destruct H.
  - destruct n as [| n]; cbn in H; [destruct H |].
    destruct H as [<- | H]; [lia |]. apply IH in H. lia.
Qed.

Lemma firstn_range j r :
  (j <= Z.to_nat r)%nat ->
  forall a, In a (firstn j (range 1 (r + 2))) -> a <= r.
Proof.
  intros Hj a Ha. unfold range in Ha. rewrite firstn_map in Ha.
  apply in_map_iff in Ha as (k & <- & Hk).
  apply firstn_seq_bound in Hk. lia.
Qed.

Section Turns.

Variable env : Env.
Variable settings : Settings.
Hypothesis quiet : forall n, stop_at env n = false.
Hypothesis delay_ok : sleeps env (delay settings).
Variable url : string.

(** The retry loop when the attempt numbered [j] from the present one is
    the first to succeed. *)
Lemma retry_until_success j : forall todo success w,
  should_stop (engine w) = false ->
  (j < List.length todo)%nat ->
  (forall i, (i < j)%nat -> succeeds (page_script env (attempts w + i)) = false) ->
  succeeds (page_script env (attempts w + j)) = true ->
  (forall a, In a (firstn j todo) -> a <= max_retries settings) ->
  let r := retry env settings url todo success w in
  outcome r = Ok true
  /\ entries (events r) = S j
  /\ tally is_retrying (events r) = j
  /\ tally is_sleep (events r) = j.
Proof.
  induction j as [| j IH]; intros todo success w F Hlen Hfail Hok Hle;
    destruct todo as [| attempt rest]; try (cbn in Hlen; lia); cbn zeta;
    rewrite (@retry_cons_quiet env settings quiet delay_ok url attempt rest success w F).
  - rewrite Nat.add_0_r in Hok. rewrite Hok. cbn [outcome events].
    change (Poll AtAttempt false :: ?x) with ([Poll AtAttempt false] ++ x).
    unfold entries. rewrite !tally_app.
    fold (entries (events (download_file env url (download_folder settings)
      (selector settings) attempt (max_retries settings)
      (page_timeout settings * 1000) (download_timeout settings * 1000)
      (interleave env w)))).
    rewrite attempt_entries, !attempt_tally; auto.
    + intros ev. destruct ev as [l [] | [] | [] [] | u a]; cbn; congruence.
    + apply attempt_event_not_retrying.
  - assert (H0 : succeeds (page_script env (attempts w)) = false).
    { rewrite <- (Nat.add_0_r (attempts w)). apply Hfail. lia. }
    rewrite H0. cbn [outcome events].
    destruct (@next_turn_quiet env settings quiet delay_ok url attempt w)
      as (He & Ha & _).
    set (w' := after (wait_before_retry env settings attempt _)) in *.
    assert (F' : should_stop (engine w') = false) by now rewrite He.
    destruct (IH rest false w' F') as (Ho & Hn & Hr & Hs).
    + cbn in Hlen. lia.
    + intros i Hi. rewrite Ha. replace (S (attempts w) + i)%nat
        with (attempts w + S i)%nat by lia. apply Hfail. lia.
    + rewrite Ha. replace (S (attempts w) + j)%nat
        with (attempts w + S j)%nat by lia. exact Hok.
    + intros a Hin. apply Hle. cbn. now right.
    + split; [exact Ho |].
      change (Poll AtAttempt false :: ?x) with ([Poll AtAttempt false] ++ x).
      unfold entries in *. rewrite !tally_app, Hn, Hr, Hs.
      fold (entries (events (download_file env url (download_folder settings)
        (selector settings) attempt (max_retries settings)
        (page_timeout settings * 1000) (download_timeout settings * 1000)
        (interleave env w)))).
      rewrite attempt_entries, !attempt_tally; auto.
      * unfold wait_trace.
        replace (attempt <=? max_retries settings) with true
          by (symmetry; apply Z.leb_le, Hle; cbn; now left).
        cbn. auto.
      * intros ev. destruct ev as [l [] | [] | [] [] | u a]; cbn; congruence.
      * apply attempt_event_not_retrying.
Qed.

(** The retry loop when every attempt it makes fails. *)
Lemma retry_exhausted : forall todo success w,
  should_stop (engine w) = false ->
  (forall i, (i < List.length todo)%nat ->
             succeeds (page_script env (attempts w + i)) = false) ->
  let r := retry env settings url todo success w in
  (todo <> [] -> outcome r = Ok false)
  /\ entries (events r) = List.length todo
  /\ tally is_retrying (events r)
     = List.length (filter (fun a => a <=? max_retries settings) todo)
  /\ tally is_sleep (events r)
     = List.length (filter (fun a => a <=? max_retries settings) todo).
Proof.
  induction todo as [| attempt rest IH]; intros success w F Hfail; cbn zeta.
  - cbn. repeat split. congruence.
  - rewrite (@retry_cons_quiet env settings quiet delay_ok url attempt rest success w F).
    assert (H0 : succeeds (page_script env (attempts w)) = false).
    { rewrite <- (Nat.add_0_r (attempts w)). apply Hfail. cbn. lia. }
    rewrite H0. cbn [outcome events].
    destruct (@next_turn_quiet env settings quiet delay_ok url attempt w)
      as (He & Ha & _).
    set (w' := after (wait_before_retry env settings attempt _)) in *.
    assert (F' : should_stop (engine w') = false) by now rewrite He.
    destruct (IH false w' F') as (Ho & Hn & Hr & Hs).
    { intros i Hi. rewrite Ha. replace (S (attempts w) + i)%nat
        with (attempts w + S i)%nat by lia. apply Hfail. cbn. lia. }
    split.
    { intros _. destruct rest as [| a rest'].
      - reflexivity.
      - apply Ho. discriminate. }
    change (Poll AtAttempt false :: ?x) with ([Poll AtAttempt false] ++ x).
    unfold entries in *. rewrite !tally_app, Hn, Hr, Hs.
    fold (entries (events (download_file env url (download_folder settings)
      (selector settings) attempt (max_retries settings)
      (page_timeout settings * 1000) (download_timeout settings * 1000)
      (interleave env w)))).
    rewrite attempt_entries, !attempt_tally; auto.
    + unfold wait_trace. cbn [filter].
      destruct (attempt <=? max_retries settings); cbn; auto.
    + intros ev. destruct ev as [l [] | [] | [] [] | u a]; cbn; congruence.
    + apply attempt_event_not_retrying.
Qed.

End Turns.

Lemma pause_tail_tally (p : Event -> bool) (b : bool) d :
  p (Poll AtPause false) = false -> p (Do (Sleep d)) = false ->
  tally p (if b then [Poll AtPause false; Log INFO (MsgWaiting d); Do (Sleep d)]
           else [])
  = if p (Log INFO (MsgWaiting d)) then once b else 0%nat.
Proof.
  intros H1 H2. unfold tally. destruct b; cbn; rewrite ?H1, ?H2;
    destruct (p (Log INFO (MsgWaiting d))); reflexivity.
Qed.

Lemma tally_cons p ev t :
  tally p (ev :: t) = ((if p ev then 1 else 0) + tally p t)%nat.
Proof. unfold tally. cbn. now destruct (p ev). Qed.

Lemma seen_cons ev t : seen (ev :: t) = is_stop_seen ev || seen t.
Proof. reflexivity. Qed.

Lemma pause_tail_sleeps (b : bool) d :
  tally is_sleep
    (if b then [Poll AtPause false; Log INFO (MsgWaiting d); Do (Sleep d)]
     else [])
  = once b.
Proof. now destruct b. Qed.

(** When nobody calls [stop()], [time.sleep] accepts the delay and the
    attempt numbered [j + 1] of an item is its first to succeed, [j] being
    at most [max_retries], the item takes exactly [j + 1] attempts,
    announces a retry and sleeps after each of the [j] failed ones and not
    after the successful one, and counts as a success.  It sleeps once
    more, for the pause between items, unless it is the last item of the
    job.  The attempts and waits come in this order: each failed attempt
    followed by its announcement and its sleep, the successful attempt,
    then the pause. *)
Theorem first_success_ends_the_item (env : Env) (settings : Settings)
    (total index : nat) (url : string) (w : World) (j : nat) :
  (forall n, stop_at env n = false) ->
  should_stop (engine w) = false ->
  sleeps env (delay settings) ->
  Z.of_nat j <= max_retries settings ->
  (forall i, (i < j)%nat -> succeeds (page_script env (attempts w + i)) = false) ->
  succeeds (page_script env (attempts w + j)) = true ->
  let i := item env settings total index url w in
  outcome i = Ok tt
  /\ entries (events i) = S j
  /\ tally is_retrying (events i) = j
  /\ tally is_sleep (events i) = (j + once (index <? total)%nat)%nat
  /\ locals (after i) = count_success (locals w)
  /\ turns (events i)
     = failed_turns (delay settings) url 1 j
       ++ [Enter url (1 + Z.of_nat j)]
       ++ pause_turns (delay settings) total index.
Proof.
  intros Hq F Hd Hj Hfail Hok i. subst i.
  assert (Tu : turns (events (item env settings total index url w))
               = failed_turns (delay settings) url 1 j
                 ++ [Enter url (1 + Z.of_nat j)]
                 ++ pause_turns (delay settings) total index).
  { rewrite (@item_turns_quiet env settings Hq Hd url total index w F).
    rewrite (@retry_turns_until_success env settings url j 1
               (max_retries settings + 2) (attempts w));
      [now rewrite <- app_assoc | lia | lia | exact Hfail | exact Hok]. }
  destruct (@item_quiet_trace env settings Hq Hd url total index w F)
    as (Ho & _ & Hl & Ev).
  set (w1 := interleave env (interleave env w)) in *.
  assert (F1 : should_stop (engine w1) = false).
  { unfold w1. now rewrite !(@engine_interleave_quiet env Hq). }
  destruct (@retry_until_success env settings Hq Hd url j
              (range 1 (max_retries settings + 2)) false w1 F1)
    as (Hr & Hn & Ht & Hs).
  - rewrite length_range. lia.
  - exact Hfail.
  - exact Hok.
  - apply firstn_range. lia.
  - split; [exact Ho |]. rewrite (Hl true Hr).
    assert (Counts :
      entries (events (item env settings total index url w)) = S j
      /\ tally is_retrying (events (item env settings total index url w)) = j
      /\ tally is_sleep (events (item env settings total index url w))
         = (j + once (index <? total)%nat)%nat).
    { rewrite Ev.
      change (?a :: ?b :: ?x ++ ?y) with ([a; b] ++ x ++ y).
      unfold entries in *.
      rewrite !tally_app, Hn, Ht, Hs, pause_tail_sleeps,
        (pause_tail_tally is_enter), (pause_tail_tally is_retrying);
        try reflexivity.
      repeat split; cbn -[Nat.ltb once]; lia. }
    destruct Counts as (C1 & C2 & C3). repeat split; assumption.
Qed.

(** When nobody calls [stop()], [time.sleep] accepts the delay and every
    attempt of an item fails, the item takes all its [max_retries + 1]
    attempts, announces a retry and sleeps after each but the last, and
    counts as a failure.  The attempts and waits come in this order: each
    attempt but the last followed by its announcement and its sleep, the
    last attempt, then the pause when the item is not the last of the
    job. *)
Theorem exhausted_item_waits_between_attempts (env : Env)
    (settings : Settings) (total index : nat) (url : string) (w : World) :
  (forall n, stop_at env n = false) ->
  should_stop (engine w) = false ->
  sleeps env (delay settings) ->
  0 <= max_retries settings ->
  (forall i, (i <= Z.to_nat (max_retries settings))%nat ->
             succeeds (page_script env (attempts w + i)) = false) ->
  let i := item env settings total index url w in
  outcome i = Ok tt
  /\ entries (events i) = S (Z.to_nat (max_retries settings))
  /\ tally is_retrying (events i) = Z.to_nat (max_retries settings)
  /\ tally is_sleep (events i)
     = (Z.to_nat (max_retries settings) + once (index <? total)%nat)%nat
  /\ locals (after i) = count_failure url (locals w)
  /\ turns (events i)
     = failed_turns (delay settings) url 1 (Z.to_nat (max_retries settings))
       ++ [Enter url (max_retries settings + 1)]
       ++ pause_turns (delay settings) total index.
Proof.
  intros Hq F Hd Hr Hfail i. subst i.
  assert (Tu : turns (events (item env settings total index url w))
               = failed_turns (delay settings) url 1
                   (Z.to_nat (max_retries settings))
                 ++ [Enter url (max_retries settings + 1)]
                 ++ pause_turns (delay settings) total index).
  { rewrite (@item_turns_quiet env settings Hq Hd url total index w F).
    rewrite (@retry_turns_exhausted env settings url
               (Z.to_nat (max_retries settings)) 1 (attempts w));
      [| lia | exact Hfail].
    rewrite <- app_assoc.
    now replace (1 + Z.of_nat (Z.to_nat (max_retries settings)))
      with (max_retries settings + 1) by lia. }
  destruct (@item_quiet_trace env settings Hq Hd url total index w F)
    as (Ho & _ & Hl & Ev).
  set (w1 := interleave env (interleave env w)) in *.
  assert (F1 : should_stop (engine w1) = false).
  { unfold w1. now rewrite !(@engine_interleave_quiet env Hq). }
  destruct (@retry_exhausted env settings Hq Hd url
              (range 1 (max_retries settings + 2)) false w1 F1)
    as (Hfalse & Hn & Ht & Hs).
  { intros k Hk. rewrite length_range in Hk. apply Hfail. lia. }
  rewrite length_range in Hn. rewrite retries_in_range in Ht, Hs by exact Hr.
  assert (Hne : range 1 (max_retries settings + 2) <> []).
  { intros E. apply (f_equal (@List.length Z)) in E.
    rewrite length_range in E. cbn in E. lia. }
  split; [exact Ho |]. rewrite (Hl false (Hfalse Hne)).
  assert (Counts :
    entries (events (item env settings total index url w))
    = S (Z.to_nat (max_retries settings))
    /\ tally is_retrying (events (item env settings total index url w))
       = Z.to_nat (max_retries settings)
    /\ tally is_sleep (events (item env settings total index url w))
       = (Z.to_nat (max_retries settings) + once (index <? total)%nat)%nat).
  { rewrite Ev.
    change (?a :: ?b :: ?x ++ ?y) with ([a; b] ++ x ++ y).
    unfold entries in *.
    rewrite !tally_app, Hn, Ht, Hs, pause_tail_sleeps,
      (pause_tail_tally is_enter), (pause_tail_tally is_retrying);
      try reflexivity.
    repeat split; cbn -[Nat.ltb once]; lia. }
  destruct Counts as (C1 & C2 & C3). repeat split; assumption.
Qed.

(** ** The pause between items *)

(** The progress lines and the lines of the pause between items. *)
Definition is_mark (ev : Event) : bool := is_processing ev || is_waiting ev.

Definition marks (t : list Event) : list Event := filter is_mark t.

(** What [n] items numbered from [index] show of these: the progress line
    of each, followed by the line of the pause unless the item is the
    last of the job. *)
Fixpoint item_marks (d : Z) (total index n : nat) : list Event :=
  match n with
  | O => []
  | S n' =>
      Log INFO (MsgProcessing index total)
      :: (if (index <? total)%nat then [Log INFO (MsgWaiting d)] else [])
         ++ item_marks d total (S index) n'
  end.

Lemma marks_app t1 t2 : marks (t1 ++ t2) = marks t1 ++ marks t2.
Proof. apply filter_app. Qed.

Lemma marks_none p t :
  forallb p t = true -> (forall ev, p ev = true -> is_mark ev = false) ->
  marks t = [].
Proof.
  intros H Hp. unfold marks. induction t as [| ev t IH]; [reflexivity |].
  cbn in *. apply andb_true_iff in H as [Hev Ht].
  rewrite (Hp ev Hev). auto.
Qed.

Lemma retry_event_not_mark ev : retry_event ev = true -> is_mark ev = false.
Proof. destruct ev as [[] [] | [] | [] [] | u a]; cbn; congruence. Qed.

Lemma outer_event_not_mark ev : outer_event ev = true -> is_mark ev = false.
Proof. destruct ev as [l [] | [] | [] [] | u a]; cbn; congruence. Qed.

Lemma summary_event_not_mark ev : summary_event ev = true -> is_mark ev = false.
Proof. destruct ev as [[] [] | [] | [] [] | u a]; cbn; congruence. Qed.

Section Pacing.

Variable env : Env.
Variable settings : Settings.
Variable total : nat.
Hypothesis quiet : forall n, stop_at env n = false.
Hypothesis delay_ok : sleeps env (delay settings).

Lemma process_quiet_counts urls : forall index w,
  should_stop (engine w) = false ->
  (index + List.length urls = S total)%nat ->
  let r := process env settings total index urls w in
  outcome r = Ok tt
  /\ marks (events r)
     = item_marks (delay settings) total index (List.length urls)
  /\ processed (events r) = List.length urls
  /\ tally is_waiting (events r) = Nat.pred (List.length urls)
  /\ seen (events r) = false.
Proof.
  induction urls as [| url rest IH]; intros index w F Hlen; cbn zeta.
  - cbn. auto.
  - cbn [process]. unfold_monad. cbn.
    rewrite (@engine_interleave_quiet env quiet), F.
    set (w1 := interleave env w).
    assert (F1 : should_stop (engine w1) = false).
    { unfold w1. now rewrite (@engine_interleave_quiet env quiet). }
    destruct (@item_quiet_trace env settings quiet delay_ok url total index w1 F1)
      as (Ho & He & _ & Ev).
    set (w2 := interleave env (interleave env w1)) in *.
    pose proof (retry_spec env settings url
                  (range 1 (max_retries settings + 2)) false w2) as R.
    assert (F2 : should_stop (engine w2) = false).
    { unfold w2. now rewrite !(@engine_interleave_quiet env quiet). }
    destruct (@retry_quiet env settings quiet delay_ok url
                (range 1 (max_retries settings + 2)) false w2 F2) as (_ & _ & Her).
    set (r0 := retry env settings url (range 1 (max_retries settings + 2)) false w2) in *.
    assert (S0 : seen (events r0) = false).
    { destruct (seen (events r0)) eqn:S; [| reflexivity].
      destruct (retry_seen R S) as [Hs _]. rewrite Her in Hs. congruence. }
    assert (W0 : tally is_waiting (events r0) = 0%nat).
    { apply (tally_none is_waiting retry_event _ (retry_events R)).
      apply retry_event_not_waiting. }
    assert (P0 : processed (events r0) = 0%nat).
    { apply (tally_none is_processing retry_event _ (retry_events R)).
      intros ev Hev. apply item_event_not_processing.
      now apply retry_event_item_event. }
    destruct (item env settings total index url w1) as [o2 w2' t2].
    cbn [outcome after events] in *. subst o2 t2.
    assert (F3 : should_stop (engine w2') = false) by now rewrite He.
    assert (M0 : marks (events r0) = []).
    { apply (marks_none retry_event _ (retry_events R)).
      apply retry_event_not_mark. }
    destruct (IH (S index) w2' F3) as (Ho3 & Hm3 & Hp3 & Hw3 & Hs3).
    { cbn in Hlen. lia. }
    destruct (process env settings total (S index) rest w2') as [o3 w3 t3].
    cbn [outcome after events] in *. subst o3.
    split; [reflexivity |].
    split.
    { change (Poll AtItem false :: ?x) with ([Poll AtItem false] ++ x).
      change (?a :: ?b :: events r0 ++ ?y) with ([a; b] ++ events r0 ++ y).
      rewrite !marks_app, M0, Hm3.
      change (match total with
              | 0%nat => false
              | S m' => (index <=? m')%nat
              end) with (index <? total)%nat.
      now destruct (index <? total)%nat. }
    cbn [app].
    unfold processed in *.
    rewrite !tally_cons, !seen_cons, !tally_app, !seen_app, P0, W0, S0, Hp3, Hw3, Hs3.
    rewrite !pause_tail_tally by reflexivity.
    cbn [is_processing is_waiting is_stop_seen orb].
    assert (Sp : forall b : bool,
               seen (if b then [Poll AtPause false;
                                Log INFO (MsgWaiting (delay settings));
                                Do (Sleep (delay settings))]
                     else []) = false) by (now intros []).
    rewrite Sp.
    assert (Hlast : (index <? total)%nat = negb (List.length rest =? 0)%nat).
    { cbn in Hlen. destruct (Nat.ltb_spec index total), (Nat.eqb_spec (List.length rest) 0);
        cbn; auto; lia. }
    rewrite Hlast. destruct (List.length rest); cbn; auto.
Qed.

End Pacing.

Lemma outer_event_not_waiting ev : outer_event ev = true -> is_waiting ev = false.
Proof. destruct ev as [l [] | [] | [] [] | u a]; cbn; congruence. Qed.

Lemma summary_event_not_waiting ev : summary_event ev = true -> is_waiting ev = false.
Proof. destruct ev as [[] [] | [] | [] [] | u a]; cbn; congruence. Qed.

(** In a run nobody stops, whose session starts and in which [time.sleep]
    accepts the delay, every item of the job is processed and gets its
    outcome, and between two items the run logs "Waiting ..." and sleeps:
    once after each item but the last, whether the item succeeded or
    failed, so [N - 1] times for [N] addresses.  The progress lines and
    the pause lines alternate: "Processing URL 1/N", "Waiting ...",
    "Processing URL 2/N", "Waiting ...", and so on to "Processing URL
    N/N", which no pause follows. *)
Theorem undisturbed_run_pauses_between_items (env : Env)
    (urls : list string) (settings : Settings) (w : World) :
  mkdir (session env) = None ->
  session_fault env = None ->
  (forall n, stop_at env n = false) ->
  sleeps env (delay settings) ->
  let r := run env urls settings w in
  let l := locals (after r) in
  processed (events r) = List.length urls
  /\ (successful l + failed l)%nat = List.length urls
  /\ outcome r = Ok (successful l, failed l)
  /\ tally is_waiting (events r) = Nat.pred (List.length urls)
  /\ seen (events r) = false
  /\ marks (events r)
     = item_marks (delay settings) (List.length urls) 1 (List.length urls).
Proof.
  intros Hm Hs Hq Hd r l. subst r l.
  destruct (run_shape env urls settings w Hm)
    as (pre & p & post & -> & Epre & Epost & -> & -> & Cases).
  destruct Cases as [(wp & _ & Hp & Lp & _ & D) | (e & F & _)];
    [| congruence].
  assert (Fp : should_stop (engine wp) = false).
  { rewrite (drift_still D Hq), should_stop_prepared. apply Hq. }
  destruct (@process_quiet_counts env settings (List.length urls) Hq Hd urls 1 wp Fp)
    as (_ & Hmarks & Hproc & Hwait & Hseen); [lia |].
  pose proof (process_spec env settings (List.length urls) urls 1 wp) as P.
  destruct (process_tally P Hd) as (_ & fs & _ & _ & _ & Hsum & _).
  rewrite <- Hp in *. rewrite Lp in Hsum. cbn in Hsum.
  destruct (outer_quiet pre Epre) as (_ & P1 & _ & _ & S1 & _).
  destruct (outer_quiet post Epost) as (_ & P2 & _ & _ & S2 & _).
  pose proof (summary_events (List.length urls) (locals (after p))) as Es.
  assert (Ps : forallb plain (summary_trace (List.length urls) (locals (after p))) = true).
  { revert Es. apply forallb_impl, summary_event_plain. }
  destruct (plain_quiet _ Ps) as (_ & P3 & _ & _ & S3).
  unfold processed in *.
  rewrite !tally_app, !seen_app, P1, P2, P3, S1, S2, S3, Hproc, Hwait, Hseen.
  rewrite (tally_none is_waiting outer_event pre Epre outer_event_not_waiting),
    (tally_none is_waiting outer_event post Epost outer_event_not_waiting),
    (tally_none is_waiting summary_event _ Es summary_event_not_waiting).
  rewrite !marks_app, Hmarks,
    (marks_none outer_event pre Epre outer_event_not_mark),
    (marks_none outer_event post Epost outer_event_not_mark),
    (marks_none summary_event _ Es summary_event_not_mark), app_nil_r.
  repeat split; lia.
Qed.

(** ** A negative retry count *)

Lemma process_without_attempts env settings total urls : forall index w,
  max_retries settings < 0 ->
  successful (locals (after (process env settings total index urls w)))
  = successful (locals w).
Proof.
  induction urls as [| url rest IH]; intros index w Hr.
  - reflexivity.
  - cbn [process]. unfold_monad. cbn.
    destruct (should_stop (engine (interleave env w))); [reflexivity |].
    set (w1 := interleave env w).
    assert (I : successful (locals (after (item env settings total index url w1)))
                = successful (locals w)).
    { unfold item. rewrite range_empty by lia. cbn [retry]. unfold_monad. cbn.
      match goal with
      | |- context [pause_after_item env settings total index ?w'] =>
          pose proof (pause_after_item_steady env settings total index w') as S;
          destruct (pause_after_item env settings total index w') as [o3 w3 t3]
      end.
      unfold steady in S. cbn [after] in *. rewrite S. reflexivity. }
    destruct (item env settings total index url w1) as [[[] | e] w2 t2];
      cbn [outcome after events] in *; [| exact I].
    specialize (IH (S index) w2 Hr).
    destruct (process env settings total (S index) rest w2) as [o3 w3 t3].
    cbn [outcome after events] in *. congruence.
Qed.

Lemma pause_event_not_processing ev :
  pause_event ev = true -> is_processing ev = false.
Proof. destruct ev as [[] [] | [] | [] [] | u a]; cbn; congruence. Qed.

Lemma process_failures_without_attempts env settings total urls :
  forall index w,
  max_retries settings < 0 ->
  let p := process env settings total index urls w in
  failed (locals (after p)) = (failed (locals w) + processed (events p))%nat.
Proof.
  induction urls as [| url rest IH]; intros index w Hr; cbn zeta.
  - cbn. unfold processed, tally. cbn. lia.
  - cbn [process]. unfold_monad. cbn -[processed].
    destruct (should_stop (engine (interleave env w)));
      [unfold processed, tally; cbn; autorewrite with world; lia |].
    set (w1 := interleave env w).
    assert (I : let i := item env settings total index url w1 in
                failed (locals (after i)) = S (failed (locals w))
                /\ processed (events i) = 1%nat).
    { cbn zeta. unfold item. rewrite range_empty by lia. cbn [retry].
      unfold_monad. cbn -[processed].
      match goal with
      | |- context [pause_after_item env settings total index ?w'] =>
          pose proof (pause_after_item_steady env settings total index w') as S;
          pose proof (pause_events
                        (pause_after_item_spec env settings total index w')) as E;
          destruct (pause_after_item env settings total index w') as [o3 w3 t3]
      end.
      unfold steady in S. cbn [after events] in *. rewrite S.
      split; [reflexivity |].
      change (?a :: ?b :: t3) with ([a; b] ++ t3).
      unfold processed. rewrite tally_app.
      rewrite (tally_none is_processing pause_event t3 E
                 pause_event_not_processing).
      reflexivity. }
    cbn zeta in I. destruct I as [If Ip].
    fold w1.
    destruct (item env settings total index url w1) as [[[] | e] w2 t2];
      cbn [outcome after events] in If, Ip.
    + specialize (IH (S index) w2 Hr). cbn zeta in IH.
      destruct (process env settings total (S index) rest w2) as [o3 w3 t3].
      cbn [outcome after events] in *.
      change (Poll AtItem false :: t2 ++ t3)
        with ([Poll AtItem false] ++ t2 ++ t3).
      unfold processed in *. rewrite !tally_app, Ip, IH, If.
      change (tally is_processing [Poll AtItem false]) with 0%nat. lia.
    + cbn [outcome after events].
      change (Poll AtItem false :: t2) with ([Poll AtItem false] ++ t2).
      unfold processed in *. rewrite !tally_app, Ip, If.
      change (tally is_processing [Poll AtItem false]) with 0%nat. lia.
Qed.

(** With a negative [max_retries], [range(1, max_retries + 2)] is empty:
    the run makes no attempt at all, never opens a page, and every item it
    processes is counted as failed. *)
Theorem negative_retry_count_means_no_attempt (env : Env)
    (urls : list string) (settings : Settings) (w : World) :
  mkdir (session env) = None ->
  max_retries settings < 0 ->
  let r := run env urls settings w in
  let l := locals (after r) in
  entries (events r) = 0%nat
  /\ outcome r = Ok (0%nat, failed l)
  /\ (0 <= delay settings -> failed l = processed (events r)).
Proof.
  intros Hm Hr r l. subst r l.
  destruct (run_reading env urls settings w Hm)
    as (p & -> & -> & _ & _ & _ & _ & _ & _ & -> & -> & Cases).
  destruct Cases as [(wp & _ & -> & Lp & _) | (e & _ & -> & -> & _)].
  - pose proof (process_spec env settings (List.length urls) urls 1 wp) as P.
    pose proof (process_entries P) as B.
    rewrite Z.max_l, Z.mul_0_r in B by lia.
    pose proof (process_without_attempts env settings (List.length urls) urls 1 wp Hr) as S.
    rewrite Lp in S. cbn in S. rewrite S.
    split; [lia |]. split; [reflexivity |].
    intros _.
    pose proof (process_failures_without_attempts env settings
                  (List.length urls) urls 1 wp Hr) as Hsum.
    cbn zeta in Hsum. rewrite Lp in Hsum. cbn in Hsum. lia.
  - cbn. auto.
Qed.

(** ** The theorems above at concrete inputs *)

Lemma session_is_closed_witness :
  mkdir (session Demo.stopped_midway) = None
  /\ sleeps Demo.stopped_midway (delay Demo.settings)
  /\ (let t := events (run Demo.stopped_midway Demo.job Demo.settings (start init)) in
      tally is_start_playwright t = 1%nat
      /\ tally is_launch t = 1%nat
      /\ tally is_close_context t = 1%nat
      /\ tally is_close_browser t = 1%nat
      /\ tally is_stop_playwright t = 1%nat
      /\ (true = true ->
          exists before rest,
            t = before ++ Do StopPlaywright :: rest
            /\ forallb is_log rest = true)).
Proof.
  split; [reflexivity |]. split; [first [reflexivity | simpl; lia] |].
  apply (session_is_closed Demo.stopped_midway Demo.job Demo.settings (start init));
    [reflexivity | first [reflexivity | simpl; lia]].
Defined.

Lemma first_success_ends_the_item_witness :
  (forall n, stop_at Demo.third_time_lucky n = false)
  /\ should_stop (engine (start init)) = false
  /\ sleeps Demo.third_time_lucky (delay Demo.settings)
  /\ Z.of_nat 2 <= max_retries Demo.settings
  /\ (let i := item Demo.third_time_lucky Demo.settings 1 1 "https://a.test/x"
                 (start init) in
      outcome i = Ok tt
      /\ entries (events i) = 3%nat
      /\ tally is_retrying (events i) = 2%nat
      /\ tally is_sleep (events i) = (2 + once (1 <? 1)%nat)%nat
      /\ locals (after i) = count_success (locals (start init))
      /\ turns (events i)
         = [Enter "https://a.test/x" 1;
            Log INFO (MsgRetrying 2); Do (Sleep 2);
            Enter "https://a.test/x" 2;
            Log INFO (MsgRetrying 2); Do (Sleep 2);
            Enter "https://a.test/x" 3]).
Proof.
  split; [intros n; reflexivity |]. split; [reflexivity |].
  split; [first [reflexivity | simpl; lia] |]. split; [first [reflexivity | simpl; lia] |].
  apply (@first_success_ends_the_item Demo.third_time_lucky Demo.settings 1 1
           "https://a.test/x" (start init) 2).
  - intros n. reflexivity.
  - reflexivity.
  - first [reflexivity | simpl; lia].
  - first [reflexivity | simpl; lia].
  - intros i Hi. destruct i as [| [| i]]; [reflexivity | reflexivity | lia].
  - reflexivity.
Defined.

Lemma exhausted_item_waits_between_attempts_witness :
  (forall n, stop_at Demo.all_slow n = false)
  /\ should_stop (engine (start init)) = false
  /\ sleeps Demo.all_slow (delay Demo.settings)
  /\ 0 <= max_retries Demo.settings
  /\ (let i := item Demo.all_slow Demo.settings 2 1 "https://a.test/x"
                 (start init) in
      outcome i = Ok tt
      /\ entries (events i) = 3%nat
      /\ tally is_retrying (events i) = 2%nat
      /\ tally is_sleep (events i) = 3%nat
      /\ locals (after i) = count_failure "https://a.test/x" (locals (start init))
      /\ turns (events i)
         = [Enter "https://a.test/x" 1;
            Log INFO (MsgRetrying 2); Do (Sleep 2);
            Enter "https://a.test/x" 2;
            Log INFO (MsgRetrying 2); Do (Sleep 2);
            Enter "https://a.test/x" 3;
            Log INFO (MsgWaiting 2); Do (Sleep 2)]).
Proof.
  split; [intros n; reflexivity |]. split; [reflexivity |].
  split; [first [reflexivity | simpl; lia] |]. split; [first [reflexivity | simpl; lia] |].
  apply (exhausted_item_waits_between_attempts Demo.all_slow Demo.settings 2 1
           "https://a.test/x" (start init)).
  - intros n. reflexivity.
  - reflexivity.
  - first [reflexivity | simpl; lia].
  - first [reflexivity | simpl; lia].
  - intros i Hi. reflexivity.
Defined.

Lemma undisturbed_run_pauses_between_items_witness :
  mkdir (session Demo.third_time_lucky) = None
  /\ session_fault Demo.third_time_lucky = None
  /\ (forall n, stop_at Demo.third_time_lucky n = false)
  /\ sleeps Demo.third_time_lucky (delay Demo.settings)
  /\ (let r := run Demo.third_time_lucky Demo.job Demo.settings (start init) in
      let l := locals (after r) in
      processed (events r) = 2%nat
      /\ (successful l + failed l)%nat = 2%nat
      /\ outcome r = Ok (successful l, failed l)
      /\ tally is_waiting (events r) = 1%nat
      /\ seen (events r) = false
      /\ marks (events r)
         = [Log INFO (MsgProcessing 1 2); Log INFO (MsgWaiting 2);
            Log INFO (MsgProcessing 2 2)]).
Proof.
  split; [reflexivity |]. split; [reflexivity |].
  split; [intros n; reflexivity |]. split; [first [reflexivity | simpl; lia] |].
  apply (undisturbed_run_pauses_between_items Demo.third_time_lucky Demo.job
           Demo.settings (start init)).
  - reflexivity.
  - reflexivity.
  - intros n. reflexivity.
  - first [reflexivity | simpl; lia].
Defined.

(** The settings of the concrete runs, but for a retry count of -1. *)
Definition no_attempt_settings : Settings :=
  {| download_folder := "downloads"; selector := "button.download-btn";
     max_retries := -1; delay := 2; headless := false;
     page_timeout := 30; download_timeout := 60;
     browser_type := "Chromium"; custom_browser_path := "" |}.

Lemma negative_retry_count_means_no_attempt_witness :
  mkdir (session Demo.third_time_lucky) = None
  /\ max_retries no_attempt_settings < 0
  /\ (let r := run Demo.third_time_lucky Demo.job no_attempt_settings (start init) in
      let l := locals (after r) in
      entries (events r) = 0%nat
      /\ outcome r = Ok (0%nat, failed l)
      /\ (0 <= delay no_attempt_settings -> failed l = processed (events r))).
Proof.
  split; [reflexivity |]. split; [simpl; lia |].
  apply (negative_retry_count_means_no_attempt Demo.third_time_lucky Demo.job
           no_attempt_settings (start init)).
  - reflexivity.
  - simpl. lia.
Defined.

(** * The success lines *)

(** The line "Complete" that [download_file] logs before it returns
    [True]. *)
Definition is_complete (ev : Event) : bool :=
  match ev with
  | Log _ (MsgComplete _ _) => true
  | _ => false
  end.

(** A line logged at the level SUCCESS. *)
Definition is_success_line (ev : Event) : bool :=
  match ev with
  | Log SUCCESS _ => true
  | _ => false
  end.

(** The counter [successful] has grown by the number of "Complete"
    lines. *)
Definition scored (w : World) (t : list Event) (w' : World) : Prop :=
  successful (locals w') = (successful (locals w) + tally is_complete t)%nat.

Lemma scored_refl w : scored w [] w.
Proof. unfold scored, tally. cbn. lia. Qed.

Lemma scored_trans a t1 b t2 c :
  scored a t1 b -> scored b t2 c -> scored a (t1 ++ t2) c.
Proof. unfold scored. rewrite tally_app. lia. Qed.

(** What is neither counted nor a "Complete" line keeps the score. *)
Lemma quiet_scored A (m : M A) (P : Event -> bool) :
  respects steady m -> respects (emits P) m ->
  (forall ev, P ev = true -> is_complete ev = false) ->
  respects scored m.
Proof.
  intros S E H w. unfold scored. rewrite (S w).
  rewrite (tally_none is_complete P _ (E w) H). lia.
Qed.

Lemma wait_event_not_complete ev : wait_event ev = true -> is_complete ev = false.
Proof. destruct ev as [[] [] | [] | [] [] | u a]; cbn; congruence. Qed.

Lemma pause_event_not_complete ev : pause_event ev = true -> is_complete ev = false.
Proof. destruct ev as [[] [] | [] | [] [] | u a]; cbn; congruence. Qed.

Lemma outer_event_not_complete ev : outer_event ev = true -> is_complete ev = false.
Proof. destruct ev as [l [] | [] | [] [] | u a]; cbn; congruence. Qed.

Lemma summary_event_not_complete ev :
  summary_event ev = true -> is_complete ev = false.
Proof. destruct ev as [[] [] | [] | [] [] | u a]; cbn; congruence. Qed.

(** An attempt logs "Complete" once when it succeeds, and not at all when
    it fails. *)
Lemma download_file_complete env url download_path selector attempt
    max_retries page_timeout download_timeout w :
  tally is_complete
    (events (download_file env url download_path selector attempt
               max_retries page_timeout download_timeout w))
  = if succeeds (page_script env (attempts w)) then 1%nat else 0%nat.
Proof.
  unfold download_file, succeeds, tally. unfold_monad. cbn.
  destruct (page_script env (attempts w)) as [g wt c cl d sa sv gs].
  split_answers; reflexivity.
Qed.

Section Scored.

Variable env : Env.
Variable settings : Settings.

(** The retry loop leaves the counters alone and logs "Complete" once
    exactly when it ends with [success] true. *)
Definition completes (w : World) (r : Result bool) : Prop :=
  locals (after r) = locals w
  /\ tally is_complete (events r)
     = match outcome r with
       | Ok true => 1%nat
       | _ => 0%nat
       end.

Lemma retry_complete url : forall todo w,
  completes w (retry env settings url todo false w).
Proof.
  induction todo as [| attempt rest IH]; intros w.
  - split; reflexivity.
  - cbn [retry]. unfold bind at 1. unfold read_should_stop at 1. cbn.
    destruct (should_stop (engine (interleave env w))) eqn:F.
    { cbn. split; reflexivity. }
    unfold bind at 1.
    pose proof (download_file_spec env url (download_folder settings)
                  (selector settings) attempt (max_retries settings)
                  (page_timeout settings * 1000)
                  (download_timeout settings * 1000) (interleave env w))
      as (O & _ & L & _).
    pose proof (download_file_complete env url (download_folder settings)
                  (selector settings) attempt (max_retries settings)
                  (page_timeout settings * 1000)
                  (download_timeout settings * 1000) (interleave env w))
      as C.
    destruct (download_file _ _ _ _ _ _ _ _ _) as [o w1 t1].
    cbn [outcome after events] in O, L, C. subst o.
    destruct (succeeds _).
    { split; cbn -[tally]; [exact L |]. rewrite ?app_nil_r.
      change (Poll AtAttempt false :: t1) with ([Poll AtAttempt false] ++ t1).
      rewrite tally_app, C. reflexivity. }
    unfold bind at 1.
    pose proof (wait_before_retry_steady env settings attempt w1) as S2.
    pose proof (wait_before_retry_emits env settings attempt w1) as E2.
    unfold steady, emits in S2, E2.
    pose proof (tally_none is_complete wait_event _ E2
                  wait_event_not_complete) as C2.
    destruct (wait_before_retry env settings attempt w1) as [[[] | e] w2 t2];
      cbn [outcome after events] in S2, C2.
    + destruct (IH w2) as (L3 & C3).
      destruct (retry env settings url rest false w2) as [o3 w3 t3].
      cbn [outcome after events] in *.
      split; cbn -[tally]; [rewrite L3, S2, L; reflexivity |].
      change (Poll AtAttempt false :: ?x) with ([Poll AtAttempt false] ++ x).
      rewrite !tally_app, C, C2, C3. reflexivity.
    + split; cbn -[tally]; [rewrite S2, L; reflexivity |].
      change (Poll AtAttempt false :: ?x) with ([Poll AtAttempt false] ++ x).
      rewrite !tally_app, C, C2. reflexivity.
Qed.

Lemma pause_after_item_scored total index :
  respects scored (pause_after_item env settings total index).
Proof.
  apply (@quiet_scored _ _ pause_event).
  - apply pause_after_item_steady.
  - intro w. apply (pause_events (pause_after_item_spec env settings total index w)).
  - apply pause_event_not_complete.
Qed.

Lemma item_scored total index url :
  respects scored (item env settings total index url).
Proof.
  intro w. set (w0 := interleave env (interleave env w)).
  destruct (retry_complete url (range 1 (max_retries settings + 2)) w0)
    as (L & C).
  assert (L0 : locals w0 = locals w) by reflexivity.
  assert (E : exists t w',
             events (item env settings total index url w)
             = [Log INFO (MsgRule "-" 40); Log INFO (MsgProcessing index total)]
               ++ events (retry env settings url
                            (range 1 (max_retries settings + 2)) false w0)
               ++ t
             /\ after (item env settings total index url w) = w'
             /\ tally is_complete t = 0%nat
             /\ successful (locals w')
                = match outcome (retry env settings url
                                   (range 1 (max_retries settings + 2)) false w0)
                  with
                  | Ok true => S (successful (locals w))
                  | _ => successful (locals w)
                  end).
  { unfold item. unfold_monad. cbn -[tally]. fold w0.
    destruct (retry env settings url (range 1 (max_retries settings + 2)) false w0)
      as [[b | e] w1 t1]; cbn [outcome after events] in *.
    - pose proof (pause_events
                    (pause_after_item_spec env settings total index
                       (with_locals (if b then count_success
                                     else count_failure url) w1))) as Q.
      pose proof (pause_after_item_steady env settings total index
                    (with_locals (if b then count_success
                                  else count_failure url) w1)) as S2.
      unfold steady in S2.
      destruct (pause_after_item env settings total index _) as [o2 w2 t2].
      cbn [outcome after events] in *.
      exists t2, w2. split; [reflexivity |]. split; [reflexivity |].
      split; [apply (tally_none is_complete pause_event _ Q
                       pause_event_not_complete) |].
      rewrite S2. autorewrite with world. destruct b; cbn; now rewrite L, L0.
    - exists [], w1. rewrite app_nil_r. repeat split. now rewrite L, L0. }
  destruct E as (t & w' & Ev & Ea & Ct & Cs).
  unfold scored. rewrite Ev, Ea, !tally_app, C, Ct, Cs.
  destruct (outcome _) as [[] | e]; unfold tally; cbn; lia.
Qed.

Lemma read_should_stop_scored place :
  respects scored (read_should_stop env place).
Proof.
  intro w. unfold scored, tally. cbn. autorewrite with world. lia.
Qed.

Lemma emit_scored ev : is_complete ev = false -> respects scored (emit env ev).
Proof.
  intros H w. unfold scored, tally. cbn. rewrite H. cbn.
  autorewrite with world. lia.
Qed.

Lemma ret_scored A (a : A) : respects scored (ret a).
Proof. intro w. apply scored_refl. Qed.

Lemma raise_scored A (e : Fault) : respects scored (@raise A e).
Proof. intro w. apply scored_refl. Qed.

Hint Resolve read_should_stop_scored emit_scored ret_scored raise_scored
  : keeps.

Lemma process_scored total urls : forall index,
  respects scored (process env settings total index urls).
Proof.
  induction urls as [| url rest IH]; intros index; cbn [process].
  - apply ret_scored.
  - specialize (IH (S index)).
    pose proof (item_scored total index url) as I.
    keeps_all scored_refl scored_trans.
Qed.

Lemma browse_guarded_scored urls :
  respects scored (browse_guarded env urls settings).
Proof.
  pose proof (process_scored (List.length urls) urls 1) as P.
  unfold browse_guarded, browse, open_browser, close_browser_session.
  keeps_all scored_refl scored_trans.
Qed.

End Scored.

Lemma expected_success_line settings urls ev :
  expected settings urls ev = true -> is_success_line ev = is_complete ev.
Proof.
  destruct ev as [l m | c | p b | u a]; try reflexivity.
  cbn [expected]. intros H. apply andb_true_iff in H as [H _].
  apply Level_eqb_eq in H. subst l. now destruct m.
Qed.

Lemma tally_alike p q (P : Event -> bool) t :
  forallb P t = true -> (forall ev, P ev = true -> p ev = q ev) ->
  tally p t = tally q t.
Proof.
  intros F H. unfold tally. induction t as [| ev t IH]; [reflexivity |].
  cbn in *. apply andb_true_iff in F as [Fe Ft].
  rewrite (H ev Fe). destruct (q ev); cbn; now rewrite (IH Ft).
Qed.

(** The log tells how many files were downloaded: the number of lines
    logged at the level SUCCESS during a run, which are its "Complete"
    lines, is the success count that [run] returns, whatever stops or
    breaks the run on its way. *)
Theorem complete_lines_are_the_successes (env : Env) (urls : list string)
    (settings : Settings) (w : World) :
  let r := run env urls settings w in
  tally is_success_line (events r) = tally is_complete (events r)
  /\ match outcome r with
     | Ok (done, _) =>
         tally is_complete (events r) = done
         /\ successful (locals (after r)) = done
     | Raised _ => tally is_complete (events r) = 0%nat
     end.
Proof.
  cbn zeta. split.
  { destruct (run_expected env settings urls w) as (t & -> & F & _).
    change (Do (Mkdir (download_folder settings)) :: t)
      with ([Do (Mkdir (download_folder settings))] ++ t).
    rewrite !tally_app. f_equal.
    apply (tally_alike _ _ (expected settings urls) t F).
    intros ev. apply expected_success_line. }
  destruct (mkdir (session env)) as [e |] eqn:Hm.
  - rewrite (run_aborted env urls settings w Hm). reflexivity.
  - destruct (run_parts env urls settings w Hm) as (O & A & E).
    rewrite O, E.
    pose proof (announce_emits env urls settings (prepared env w)) as EA.
    pose proof (announce_steady env urls settings (prepared env w)) as SA.
    pose proof (browse_guarded_scored env settings urls
                  (after (announce env urls settings (prepared env w)))) as B.
    unfold emits, steady, scored in *.
    rewrite SA, (locals_prepared env w) in B. cbn [zero successful] in B.
    change (Do (Mkdir (download_folder settings)) :: ?x)
      with ([Do (Mkdir (download_folder settings))] ++ x).
    rewrite !tally_app.
    rewrite (tally_none is_complete outer_event _ EA outer_event_not_complete).
    rewrite (tally_none is_complete summary_event _
               (summary_events _ _) summary_event_not_complete).
    split; [rewrite B; unfold tally at 1; cbn; lia |].
    rewrite A.
    destruct (summarise_spec env urls
                (after (browse_guarded env urls settings
                          (after (announce env urls settings (prepared env w))))))
      as (_ & _ & ->).
    reflexivity.
Qed.

(** * One attempt, call by call *)

(** The calls of a trace, in order. *)
Definition calls (t : list Event) : list Call :=
  flat_map (fun ev => match ev with
                      | Do c => [c]
                      | _ => []
                      end) t.

(** The calls of a whole attempt, in the order of the source:
    [page.expect_download] is entered (line 71) before the button is
    clicked (line 72); the path is that of the file the download
    suggests. *)
Definition attempt_calls (env : Env) (url download_path selector : string)
    (page_timeout download_timeout : Z) (p : PageScript) : list Call :=
  let save_path :=
    path_join env download_path
      match download p with
      | inr filename => filename
      | inl _ => EmptyString
      end in
  [Goto url page_timeout; WaitForTimeout 1000; Count selector;
   ExpectDownload download_timeout; Click selector; SaveAs save_path;
   Exists save_path; GetSize save_path].

(** A line above the level INFO. *)
Definition is_verdict (ev : Event) : bool :=
  match ev with
  | Log INFO _ => false
  | Log _ _ => true
  | _ => false
  end.

Ltac split_all_answers :=
  repeat (cbn;
          match goal with
          | |- context [match ?x with _ => _ end] => is_var x; destruct x
          | |- context [(?n =? 0)%nat] => is_var n; destruct n
          end).

(** An attempt makes its calls in one fixed order and stops at the first
    that fails: the calls made are the first [n] of the eight, with
    [n >= 1].  The wait for a download is set up and the button clicked
    only when the selector matches something ([n = 3] otherwise), nothing
    is saved when the click fails or no download comes of it (at most the
    first five calls are made), and the attempt returns [True] only after all eight calls, the last
    being the read of the size of the saved file. *)
Theorem attempt_calls_in_order (env : Env) (url download_path selector : string)
    (attempt max_retries page_timeout download_timeout : Z) (w : World) :
  let p := page_script env (attempts w) in
  let r := download_file env url download_path selector attempt max_retries
             page_timeout download_timeout w in
  exists n,
    calls (events r)
    = firstn n (attempt_calls env url download_path selector page_timeout
                  download_timeout p)
    /\ (1 <= n <= 8)%nat
    /\ (outcome r = Ok true -> n = 8%nat)
    /\ (goto p = None -> wait_for_timeout p = None -> count p = inr 0%nat ->
        n = 3%nat)
    /\ (forall e, download p = inl e -> (n <= 5)%nat)
    /\ (forall e, click p = Some e -> (n <= 5)%nat).
Proof.
  cbn zeta. unfold download_file, attempt_calls, calls. unfold_monad. cbn.
  destruct (page_script env (attempts w)) as [g wt c cl d sa sv gs].
  split_all_answers;
    first [ exists 1%nat; split; [reflexivity |]
          | exists 2%nat; split; [reflexivity |]
          | exists 3%nat; split; [reflexivity |]
          | exists 4%nat; split; [reflexivity |]
          | exists 5%nat; split; [reflexivity |]
          | exists 6%nat; split; [reflexivity |]
          | exists 7%nat; split; [reflexivity |]
          | exists 8%nat; split; [reflexivity |] ];
    repeat split; intros; try lia; try discriminate; try congruence.
Qed.

(** The last line an attempt logs is its verdict, and its only line above
    INFO: a SUCCESS line when it returns [True], a WARNING or ERROR line
    when it returns [False].  An attempt never raises. *)
Theorem attempt_ends_with_its_verdict (env : Env)
    (url download_path selector : string)
    (attempt max_retries page_timeout download_timeout : Z) (w : World) :
  let r := download_file env url download_path selector attempt max_retries
             page_timeout download_timeout w in
  exists level message before,
    rev (events r) = Log level message :: before
    /\ tally is_verdict (events r) = 1%nat
    /\ level <> INFO
    /\ outcome r = Ok (Level_eqb level SUCCESS).
Proof.
  cbn zeta. unfold download_file, tally. unfold_monad. cbn.
  destruct (page_script env (attempts w)) as [g wt c cl d sa sv gs].
  split_all_answers; do 3 eexists; (split; [reflexivity |]);
    repeat split; discriminate.
Qed.

(** * The log window *)

From Stdlib Require Import DecimalString.

(** ** Texts *)

(** A Python [str] is held as the bytes of its UTF-8 encoding; [needle in
    hay] on the characters is then [contains needle hay] on the bytes. *)
Definition bytes (codes : list nat) : string :=
  string_of_list_ascii (map ascii_of_nat codes).

(** [c in s] for a single byte. *)
Fixpoint occurs (c : ascii) (s : string) : bool :=
  match s with
  | EmptyString => false
  | String d rest => Ascii.eqb c d || occurs c rest
  end.

(** No byte of [s] occurs in [needle]. *)
Fixpoint apart (needle s : string) : bool :=
  match s with
  | EmptyString => true
  | String c rest => negb (occurs c needle) && apart needle rest
  end.

Lemma apart_occurs needle s c :
  apart needle s = true -> occurs c s = true -> occurs c needle = false.
Proof.
  induction s as [| d rest IH]; cbn; [discriminate |].
  intros H Hc. apply andb_true_iff in H as [Hd Hr].
  apply orb_true_iff in Hc as [Hc | Hc].
  - apply Ascii.eqb_eq in Hc. subst. now apply negb_true_iff.
  - auto.
Qed.

Lemma apart_app needle a b :
  apart needle (a ++ b) = apart needle a && apart needle b.
Proof.
  induction a as [| c a IH]; cbn; [reflexivity |].
  now rewrite IH, andb_assoc.
Qed.

Lemma prefix_head needle c rest :
  truthy needle = true -> occurs c needle = false ->
  prefix needle (String c rest) = false.
Proof.
  destruct needle as [| d n]; [discriminate |]. cbn. intros _ H.
  apply orb_false_iff in H as [H _].
  destruct (ascii_dec d c) as [-> | _]; [| reflexivity].
  now rewrite Ascii.eqb_refl in H.
Qed.

Lemma occurs_tail c d n : occurs c (String d n) = false -> occurs c n = false.
Proof. cbn. intros H. now apply orb_false_iff in H. Qed.

Lemma prefix_sep needle : forall a c b,
  occurs c needle = false ->
  prefix needle (a ++ String c b) = prefix needle a.
Proof.
  induction needle as [| d n IH]; intros a c b H.
  - now destruct a.
  - destruct a as [| x a]; cbn [append].
    + now rewrite (prefix_head (String d n) c b eq_refl H).
    + cbn [prefix]. destruct (ascii_dec d x); [| reflexivity].
      apply IH. now apply occurs_tail in H.
Qed.

(** A byte that does not occur in the needle separates what is searched. *)
Lemma contains_sep needle a c b :
  occurs c needle = false ->
  contains needle (a ++ String c b) = contains needle a || contains needle b.
Proof.
  intros H. induction a as [| x a IH]; cbn [append contains].
  - change (String c b) with ("" ++ String c b)%string.
    rewrite (prefix_sep needle "" c b H). cbn [append].
    now rewrite orb_false_r.
  - change (String x (a ++ String c b)) with (String x a ++ String c b)%string.
    rewrite (prefix_sep needle (String x a) c b H), IH.
    now rewrite orb_assoc.
Qed.

Lemma contains_apart needle s :
  truthy needle = true -> apart needle s = true -> contains needle s = false.
Proof.
  intros Hn. induction s as [| c rest IH]; cbn [apart contains].
  - destruct needle; [discriminate | reflexivity].
  - intros H. apply andb_true_iff in H as [Hc Hr].
    apply negb_true_iff in Hc.
    now rewrite (prefix_head needle c rest Hn Hc), (IH Hr).
Qed.

Lemma contains_apart_left needle a b :
  truthy needle = true -> apart needle a = true ->
  contains needle (a ++ b) = contains needle b.
Proof.
  intros Hn. induction a as [| c a IH]; cbn [apart append contains].
  - reflexivity.
  - intros H. apply andb_true_iff in H as [Hc Ha].
    apply negb_true_iff in Hc.
    now rewrite (prefix_head needle c (a ++ b) Hn Hc), (IH Ha).
Qed.

Lemma prefix_apart_right needle : forall a b,
  truthy needle = true -> apart needle b = true ->
  prefix needle (a ++ b) = prefix needle a.
Proof.
  induction needle as [| d n IH]; intros a b Hn Hb; [discriminate |].
  destruct a as [| x a]; cbn [append].
  - destruct b as [| c b]; [reflexivity |].
    cbn [apart] in Hb. apply andb_true_iff in Hb as [Hc _].
    apply negb_true_iff in Hc.
    now rewrite (prefix_head (String d n) c b Hn Hc).
  - cbn [prefix]. destruct (ascii_dec d x) as [_ | _]; [| reflexivity].
    destruct n as [| d' n']; [now destruct a, b |].
    apply IH; [reflexivity |].
    clear - Hb. induction b as [| c b IHb]; [reflexivity |].
    cbn [apart] in *. apply andb_true_iff in Hb as [Hc Hr].
    rewrite (IHb Hr), andb_true_r.
    apply negb_true_iff in Hc. apply negb_true_iff.
    now apply occurs_tail in Hc.
Qed.

Lemma contains_apart_right needle a b :
  truthy needle = true -> apart needle b = true ->
  contains needle (a ++ b) = contains needle a.
Proof.
  intros Hn Hb. induction a as [| x a IH]; cbn [append].
  - rewrite (contains_apart needle b Hn Hb).
    destruct needle; [discriminate | reflexivity].
  - cbn [contains].
    change (String x (a ++ b)) with (String x a ++ b)%string.
    now rewrite (prefix_apart_right needle (String x a) b Hn Hb), IH.
Qed.

(** ** The line [DownloaderEngine.log] builds *)

(** The name of a level, as it is interpolated into the line. *)
Definition level_name (l : Level) : string :=
  match l with
  | INFO => "INFO"
  | SUCCESS => "SUCCESS"
  | WARNING => "WARNING"
  | ERROR => "ERROR"
  end.

(** The time of day [datetime.now()] reads. *)
Record Clock := { hour : nat; minute : nat; second : nat }.

Definition digit (n : nat) : ascii := ascii_of_nat (48 + n mod 10).

(** A number below 100 on two digits, as [%H], [%M] and [%S] print it. *)
Definition two_digits (n : nat) : string :=
  String (digit (n / 10)) (String (digit n) EmptyString).

(** [now.strftime("%H:%M:%S")] *)
Definition strftime (now : Clock) : string :=
  (two_digits (hour now) ++ ":" ++ two_digits (minute now) ++ ":"
   ++ two_digits (second now))%string.

(** [f"[{timestamp}] {level}: {message}"], what [log] hands to
    [gui_callback]. *)
Definition log_line (now : Clock) (level : Level) (message : string)
  : string :=
  ("[" ++ strftime now ++ "] " ++ level_name level ++ ": " ++ message)%string.

(** ** The tag [DownloaderGUI.log_message] chooses *)

(** The check mark U+2713 and the ballot cross U+2717. *)
Definition check_mark : string := Eval cbv in bytes [226; 156; 147]%nat.
Definition cross_mark : string := Eval cbv in bytes [226; 156; 151]%nat.

(** The tag under which [log_message] inserts a line into the log. *)
Definition tag (message : string) : Level :=
  if contains "SUCCESS" message || contains check_mark message then SUCCESS
  else if contains "ERROR" message || contains cross_mark message then ERROR
  else if contains "WARNING" message then WARNING
  else INFO.

(** The log widget: the lines inserted, each with its tag. *)
Definition log_message (message : string) (log_text : list (string * Level))
  : list (string * Level) :=
  log_text ++ [((message ++ String (ascii_of_nat 10) "")%string, tag message)].

(** The texts that decide the tag. *)
Definition markers : list string :=
  ["SUCCESS"%string; check_mark; "ERROR"%string; cross_mark; "WARNING"%string].

(** The order in which the tags win over each other. *)
Definition rank (l : Level) : nat :=
  match l with
  | INFO => 0
  | WARNING => 1
  | ERROR => 2
  | SUCCESS => 3
  end.

Definition stronger (a b : Level) : Level :=
  if (rank a <? rank b)%nat then b else a.

Lemma digit_is_digit n : occurs (digit n) "0123456789" = true.
Proof.
  unfold digit. pose proof (Nat.mod_upper_bound n 10) as H.
  destruct (n mod 10)%nat as [| [| [| [| [| [| [| [| [| [| k]]]]]]]]]];
    try reflexivity.
  lia.
Qed.

Lemma strftime_apart needle now :
  apart needle "0123456789:" = true -> apart needle (strftime now) = true.
Proof.
  intros H.
  assert (D : forall n, occurs (digit n) needle = false).
  { intros n. apply (apart_occurs needle "0123456789:" _ H).
    pose proof (digit_is_digit n) as Hd. cbn in *.
    repeat (apply orb_true_iff in Hd as [Hd | Hd]; [rewrite Hd; cbn;
      rewrite ?orb_true_r; reflexivity |]).
    discriminate. }
  assert (C : occurs ":" needle = false).
  { apply (apart_occurs needle "0123456789:" _ H). reflexivity. }
  unfold strftime, two_digits. cbn [append apart]. now rewrite !D, !C.
Qed.

(** Where a marker can be in a line: in the name of the level or in the
    message, not in the time or the punctuation. *)
Lemma line_contains needle now level message :
  truthy needle = true ->
  apart needle "0123456789:[] " = true ->
  contains needle (log_line now level message)
  = contains needle (level_name level) || contains needle message.
Proof.
  intros Hn H.
  assert (O : forall c, occurs c "0123456789:[] " = true ->
                        occurs c needle = false).
  { intros c. apply apart_occurs, H. }
  assert (T : apart needle (strftime now) = true).
  { apply strftime_apart.
    change "0123456789:[] "%string with ("0123456789:" ++ "[] ")%string in H.
    rewrite apart_app in H. now apply andb_true_iff in H as [H _]. }
  assert (E : contains needle "" = false) by (now destruct needle).
  unfold log_line.
  change ("[" ++ ?x)%string with ("" ++ String "[" x)%string.
  rewrite contains_sep, E by (apply O; reflexivity). cbn [orb].
  change ("] " ++ ?x)%string with (String "]" ("" ++ String " " x))%string.
  rewrite contains_sep, (contains_apart needle _ Hn T) by (apply O; reflexivity).
  cbn [orb].
  rewrite contains_sep, E by (apply O; reflexivity). cbn [orb].
  change (": " ++ ?x)%string with (String ":" ("" ++ String " " x))%string.
  rewrite contains_sep by (apply O; reflexivity).
  rewrite contains_sep, E by (apply O; reflexivity). reflexivity.
Qed.

Lemma tag_of_line now level message :
  tag (log_line now level message) = stronger level (tag message).
Proof.
  unfold tag.
  rewrite !line_contains by reflexivity.
  destruct level; cbn [level_name];
    destruct (contains "SUCCESS" message), (contains check_mark message),
      (contains "ERROR" message), (contains cross_mark message),
      (contains "WARNING" message); reflexivity.
Qed.

(** The tag of a line the engine logs is the stronger of two: the level it
    was logged at, and the tag its message would get on its own, "SUCCESS"
    or the check mark winning over "ERROR" or the cross, and these over
    "WARNING".  So a line keeps the tag of its level exactly when its
    message carries no marker of a stronger one, and a line logged at
    INFO is tagged by whatever marker its message happens to carry; the
    time of day never matters. *)
Theorem tag_is_the_stronger_of_level_and_text (now : Clock) (level : Level)
    (message : string) :
  tag (log_line now level message) = stronger level (tag message)
  /\ (tag (log_line now level message) = level
      <-> (rank (tag message) <= rank level)%nat)
  /\ tag (log_line now INFO message) = tag message
  /\ tag (log_line now SUCCESS message) = SUCCESS.
Proof.
  rewrite !tag_of_line. split; [reflexivity |]. split; [| split].
  - unfold stronger.
    destruct (Nat.ltb_spec (rank level) (rank (tag message))) as [H | H].
    + split; [| lia]. intros E. rewrite E in H. lia.
    + split; [intros _; exact H | reflexivity].
  - now destruct (tag message).
  - now destruct (tag message).
Qed.

(** ** The texts of the engine's lines *)

(** [str(n)] for a count. *)
Definition decimal (n : nat) : string :=
  NilZero.string_of_uint (Nat.to_uint n).

(** [str(z)] for an integer of the settings. *)
Definition decimal_Z (z : Z) : string :=
  NilZero.string_of_int (Z.to_int z).

(** A comma after every third digit, the digits being given from the last
    to the first. *)
Fixpoint commas (digits : list ascii) : list ascii :=
  match digits with
  | a :: b :: c :: rest =>
      match rest with
      | [] => digits
      | _ :: _ => a :: b :: c :: ","%char :: commas rest
      end
  | _ => digits
  end.

(** [f"{n:,}"] *)
Definition thousands (n : nat) : string :=
  string_of_list_ascii (rev (commas (rev (list_ascii_of_string (decimal n))))).

(** [c * n] *)
Fixpoint times (c : ascii) (n : nat) : string :=
  match n with
  | O => EmptyString
  | S k => String c (times c k)
  end.

(** The text of each line, as the f-strings of the source build it. *)
Definition render (m : Message) : string :=
  match m with
  | MsgRule c n => times c n
  | MsgStarting => "Starting downloads..."
  | MsgUrlsToProcess n => "URLs to process: " ++ decimal n
  | MsgDownloadFolder path => "Download folder: " ++ path
  | MsgButtonSelector s => "Button selector: " ++ s
  | MsgBrowser browser_type custom =>
      "Browser: " ++ browser_type
      ++ (if truthy custom then " (" ++ custom ++ ")" else "")
  | MsgLaunching => "Launching browser..."
  | MsgUsingCustom path => "Using custom browser: " ++ path
  | MsgStoppedByUser => "Download stopped by user"
  | MsgProcessing index total =>
      "Processing URL " ++ decimal index ++ "/" ++ decimal total
  | MsgOpening attempt total url =>
      "[Attempt " ++ decimal_Z attempt ++ "/" ++ decimal_Z total
      ++ "] Opening: " ++ url
  | MsgPageLoaded => "Page loaded successfully"
  | MsgNotFound s => "Download button not found: " ++ s
  | MsgFound => "Found download button, initiating download..."
  | MsgDownloading filename => "Downloading: " ++ filename
  | MsgComplete filename size =>
      check_mark ++ " Complete: " ++ filename ++ " (" ++ thousands size
      ++ " bytes)"
  | MsgNotSaved filename => cross_mark ++ " File not saved: " ++ filename
  | MsgTimeout e => cross_mark ++ " Timeout: " ++ e
  | MsgError e => cross_mark ++ " Error: " ++ e
  | MsgRetrying d => "Retrying in " ++ decimal_Z d ++ " seconds..."
  | MsgWaiting d => "Waiting " ++ decimal_Z d ++ " seconds..."
  | MsgClosing => "Closing browser..."
  | MsgBrowserError e => "Browser error: " ++ e
  | MsgSummary => "DOWNLOAD SUMMARY"
  | MsgTotals total successful failed =>
      "Total: " ++ decimal total ++ " | Success: " ++ decimal successful
      ++ " | Failed: " ++ decimal failed
  | MsgFailedHeader => "Failed URLs:"
  | MsgFailedUrl url => "  - " ++ url
  | MsgDone => "Done!"
  end%string.

(** The values interpolated into a line that come from outside: addresses,
    the selector, paths, names of files, texts of exceptions. *)
Definition fields (m : Message) : list string :=
  match m with
  | MsgDownloadFolder s | MsgButtonSelector s | MsgUsingCustom s
  | MsgNotFound s | MsgDownloading s | MsgNotSaved s | MsgTimeout s
  | MsgError s | MsgBrowserError s | MsgFailedUrl s => [s]
  | MsgOpening _ _ s | MsgComplete s _ => [s]
  | MsgBrowser browser_type custom => [browser_type; custom]
  | _ => []
  end.

(** A text that carries none of the markers. *)
Definition unmarked (s : string) : bool :=
  negb (existsb (fun k => contains k s) markers).

(** The rules are made of "=" or of "-". *)
Definition ruled (m : Message) : bool :=
  match m with
  | MsgRule c _ => Ascii.eqb c "=" || Ascii.eqb c "-"
  | _ => true
  end.

Example thousands_groups :
  map thousands [0; 12; 999; 1000; 4321]%nat
  = ["0"; "12"; "999"; "1,000"; "4,321"]%string.
Proof. reflexivity. Qed.

(** No byte of [l] occurs in [needle]. *)
Definition clear_of (needle : string) (l : list ascii) : bool :=
  forallb (fun c => negb (occurs c needle)) l.

Lemma apart_clear_of needle s :
  apart needle s = clear_of needle (list_ascii_of_string s).
Proof. induction s as [| c s IH]; cbn; [reflexivity | now rewrite IH]. Qed.

Lemma clear_of_string needle l :
  apart needle (string_of_list_ascii l) = clear_of needle l.
Proof.
  now rewrite apart_clear_of, list_ascii_of_string_of_list_ascii.
Qed.

Lemma clear_of_rev needle l : clear_of needle (rev l) = clear_of needle l.
Proof.
  unfold clear_of. induction l as [| c l IH]; cbn; [reflexivity |].
  rewrite forallb_app, IH. cbn. now rewrite andb_true_r, andb_comm.
Qed.

Lemma clear_of_commas needle n : forall l,
  (List.length l <= n)%nat ->
  occurs "," needle = false ->
  clear_of needle l = true -> clear_of needle (commas l) = true.
Proof.
  induction n as [| n IH]; intros l Hl Hc H.
  - destruct l; [exact H | cbn in Hl; lia].
  - destruct l as [| a [| b [| c [| d rest]]]]; try exact H.
    change (commas (a :: b :: c :: d :: rest))
      with (a :: b :: c :: ","%char :: commas (d :: rest)).
    unfold clear_of in *. cbn [forallb] in *.
    repeat (apply andb_true_iff in H as [? H]).
    rewrite Hc. cbn [negb andb].
    repeat (apply andb_true_iff; split; [assumption |]).
    apply IH; [cbn in *; lia | exact Hc |].
    cbn [forallb]. now apply andb_true_iff.
Qed.

Lemma uint_apart needle d :
  apart needle "0123456789" = true ->
  apart needle (NilEmpty.string_of_uint d) = true.
Proof.
  intros H.
  assert (O : forall c, occurs c "0123456789" = true -> occurs c needle = false).
  { intros c. apply apart_occurs, H. }
  induction d; cbn [NilEmpty.string_of_uint apart]; try reflexivity;
    rewrite IHd, O; reflexivity.
Qed.

Lemma decimal_apart needle n :
  apart needle "0123456789" = true -> apart needle (decimal n) = true.
Proof.
  intros H. unfold decimal, NilZero.string_of_uint.
  pose proof (uint_apart needle (Nat.to_uint n) H) as U.
  destruct (Nat.to_uint n); try exact U.
  cbn. rewrite (apart_occurs needle "0123456789" _ H); reflexivity.
Qed.

Lemma decimal_Z_apart needle z :
  apart needle "0123456789-" = true -> apart needle (decimal_Z z) = true.
Proof.
  intros H.
  change "0123456789-"%string with ("0123456789" ++ "-")%string in H.
  rewrite apart_app in H. apply andb_true_iff in H as [Hd Hm].
  assert (U : forall d, apart needle (NilZero.string_of_uint d) = true).
  { intros d. unfold NilZero.string_of_uint.
    pose proof (uint_apart needle d Hd) as U.
    destruct d; try exact U.
    cbn. rewrite (apart_occurs needle "0123456789" _ Hd); reflexivity. }
  unfold decimal_Z, NilZero.string_of_int.
  destruct (Z.to_int z); [apply U |].
  cbn [apart] in *. rewrite U. apply andb_true_iff in Hm as [-> _]. reflexivity.
Qed.

Lemma thousands_apart needle n :
  apart needle "0123456789," = true -> apart needle (thousands n) = true.
Proof.
  intros H.
  change "0123456789,"%string with ("0123456789" ++ ",")%string in H.
  rewrite apart_app in H. apply andb_true_iff in H as [Hd Hc].
  unfold thousands. rewrite clear_of_string, clear_of_rev.
  apply (clear_of_commas needle (n := List.length (rev (list_ascii_of_string (decimal n)))));
    [lia | | ].
  - cbn in Hc. apply andb_true_iff in Hc as [Hc _]. now apply negb_true_iff.
  - rewrite clear_of_rev, <- apart_clear_of. now apply decimal_apart.
Qed.

Lemma times_apart needle c n :
  occurs c needle = false -> apart needle (times c n) = true.
Proof. intros H. induction n as [| n IH]; cbn; [reflexivity | now rewrite H, IH]. Qed.

Arguments decimal : simpl never.
Arguments decimal_Z : simpl never.
Arguments thousands : simpl never.

(** A marker is not in a number, and a number splits what is searched. *)
Lemma contains_decimal needle n rest :
  truthy needle = true -> apart needle "0123456789" = true ->
  contains needle (decimal n ++ rest) = contains needle rest.
Proof. intros Hn H. apply contains_apart_left, decimal_apart; assumption. Qed.

Lemma contains_decimal_Z needle z rest :
  truthy needle = true -> apart needle "0123456789-" = true ->
  contains needle (decimal_Z z ++ rest) = contains needle rest.
Proof. intros Hn H. apply contains_apart_left, decimal_Z_apart; assumption. Qed.

Lemma contains_thousands needle n rest :
  truthy needle = true -> apart needle "0123456789," = true ->
  contains needle (thousands n ++ rest) = contains needle rest.
Proof. intros Hn H. apply contains_apart_left, thousands_apart; assumption. Qed.

Lemma contains_last_decimal needle n :
  truthy needle = true -> apart needle "0123456789" = true ->
  contains needle (decimal n) = false.
Proof. intros Hn H. apply contains_apart, decimal_apart; assumption. Qed.

Lemma unmarked_contains s k :
  unmarked s = true -> In k markers -> contains k s = false.
Proof.
  unfold unmarked. intros H Hk. apply negb_true_iff in H.
  destruct (contains k s) eqn:E; [| reflexivity].
  rewrite <- H. symmetry. apply existsb_exists. eauto.
Qed.

(** The tag the text of a line gets on its own when the values
    interpolated into it carry no marker: that of the mark the source
    puts in front of it, if any. *)
Definition own_tag (m : Message) : Level :=
  match m with
  | MsgComplete _ _ => SUCCESS
  | MsgNotSaved _ | MsgTimeout _ | MsgError _ => ERROR
  | _ => INFO
  end.

(** Goes through the text of a line looking for the markers. *)
Ltac scan :=
  repeat first
    [ rewrite contains_decimal by reflexivity
    | rewrite contains_decimal_Z by reflexivity
    | rewrite contains_thousands by reflexivity
    | rewrite contains_last_decimal by reflexivity
    | rewrite contains_sep by reflexivity
    | progress cbn ].

Lemma append_empty s : (s ++ "")%string = s.
Proof. induction s as [| c s IH]; cbn; [reflexivity | now rewrite IH]. Qed.

Lemma render_tag m :
  ruled m = true ->
  forallb unmarked (fields m) = true ->
  tag (render m) = own_tag m.
Proof.
  intros Hr Hf.
  assert (F : forall s, In s (fields m) ->
                contains "SUCCESS" s = false /\ contains check_mark s = false
                /\ contains "ERROR" s = false /\ contains cross_mark s = false
                /\ contains "WARNING" s = false).
  { intros s Hs. rewrite forallb_forall in Hf. specialize (Hf s Hs).
    repeat split; apply (unmarked_contains s Hf); cbn; auto 6. }
  unfold tag.
  destruct m; cbn [fields In] in F;
    repeat match goal with
           | H : forall s, ?x = s \/ _ -> _ |- _ =>
               let H1 := fresh in
               pose proof (H x (or_introl eq_refl)) as H1;
               destruct H1 as (? & ? & ? & ? & ?);
               specialize (fun s K => H s (or_intror K))
           end;
    clear F.
  all: try (scan;
            repeat match goal with
                   | H : contains _ _ = false |- _ => rewrite H
                   end;
            reflexivity).
  - cbn in Hr.
    assert (A : forall k, occurs "=" k = false -> occurs "-" k = false ->
                          truthy k = true -> contains k (times c n) = false).
    { intros k H1 H2 Hk. apply contains_apart, times_apart; [exact Hk |].
      apply orb_true_iff in Hr as [E | E]; apply Ascii.eqb_eq in E; now subst. }
    cbn [render]. now rewrite !A.
  - cbn [render]. destruct (truthy custom).
    + scan.
      repeat match goal with
             | H : contains _ _ = false |- _ => rewrite H
             end.
      reflexivity.
    + rewrite append_empty. scan.
      repeat match goal with
             | H : contains _ _ = false |- _ => rewrite H
             end.
      reflexivity.
Qed.

Lemma expected_line_ruled settings urls m :
  expected_line settings urls m = true -> ruled m = true.
Proof.
  destruct m; try reflexivity. cbn. intros H.
  apply orb_true_iff in H as [H | H]; apply andb_true_iff in H as [-> _];
    now rewrite ?orb_true_r.
Qed.

(** Every line a run logs is inserted into the log under the tag of the
    level the engine logged it at (success lines under SUCCESS, error
    lines under ERROR, warnings under WARNING, the others under INFO),
    provided the values interpolated into it (addresses, selector, paths,
    file names, texts of exceptions) contain none of the markers
    "SUCCESS", "ERROR", "WARNING", check mark and cross. *)
Theorem engine_lines_keep_their_level (env : Env) (urls : list string)
    (settings : Settings) (w : World) (now : Clock) (l : Level)
    (m : Message) :
  In (Log l m) (events (run env urls settings w)) ->
  forallb unmarked (fields m) = true ->
  l = level_of m
  /\ tag (log_line now l (render m)) = l
  /\ log_message (log_line now l (render m)) []
     = [((log_line now l (render m) ++ String (ascii_of_nat 10) "")%string, l)].
Proof.
  intros Hin Hf.
  destruct (run_expected env settings urls w) as (t & E & F & _).
  rewrite E in Hin. destruct Hin as [Hin | Hin]; [discriminate |].
  rewrite forallb_forall in F. specialize (F _ Hin). cbn in F.
  apply andb_true_iff in F as [Hl He].
  apply Level_eqb_eq in Hl. apply expected_line_ruled in He.
  assert (T : tag (log_line now l (render m)) = l).
  { rewrite tag_of_line, (render_tag m He Hf). subst l. now destruct m. }
  split; [exact Hl |]. split; [exact T |].
  unfold log_message. now rewrite T.
Qed.

(** ** The worker thread *)

(** The callbacks the worker schedules on the main thread. *)
Inductive Callback := DownloadComplete.

(** What [run_download_thread] does besides running the engine. *)
Inductive Notice :=
| LogMessage (message : string)         (* [self.log_message(message)] *)
| After (ms : nat) (callback : Callback). (* [self.root.after(ms, callback)] *)

(** [DownloaderGUI.run_download_thread]: the run, the line shown should it
    raise, and the call scheduled in the [finally] clause.  Nothing is
    raised to the thread's caller. *)
Definition run_download_thread (env : Env) (urls : list string)
    (settings : Settings) (w : World) : Result unit * list Notice :=
  let r := run env urls settings w in
  ({| outcome := Ok tt; after := after r; events := events r |},
   match outcome r with
   | Ok _ => []
   | Raised e => [LogMessage ("Error: " ++ str e)]
   end ++ [After 0 DownloadComplete]).

Lemma tag_of_error_line text : tag ("Error: " ++ text) = tag text.
Proof. unfold tag. scan. reflexivity. Qed.

(** The worker thread always ends by scheduling [download_complete].  It
    hands a line of its own to [log_message] exactly when the download
    folder could not be made, the only way for [run] to raise: the line
    is "Error: " followed by the text of the exception, nothing else is
    shown for that run, and as "Error:" is not one of the markers the line
    is tagged as the text of the exception alone would be, INFO unless
    that text carries a marker. *)
Theorem thread_reports_a_failed_folder (env : Env) (urls : list string)
    (settings : Settings) (w : World) :
  let (r, notices) := run_download_thread env urls settings w in
  outcome r = Ok tt
  /\ match mkdir (session env) with
     | None => notices = [After 0 DownloadComplete]
     | Some e =>
         notices = [LogMessage ("Error: " ++ str e); After 0 DownloadComplete]
         /\ tally is_log (events r) = 0%nat
         /\ tag ("Error: " ++ str e) = tag (str e)
         /\ (unmarked (str e) = true -> tag ("Error: " ++ str e) = INFO)
     end.
Proof.
  unfold run_download_thread. split; [reflexivity |].
  destruct (mkdir (session env)) as [e |] eqn:Hm.
  - rewrite (run_aborted env urls settings w Hm). cbn [outcome events app].
    split; [reflexivity |]. split; [reflexivity |].
    rewrite tag_of_error_line. split; [reflexivity |].
    intros U. unfold tag.
    rewrite !(unmarked_contains (str e) U); cbn; auto 6.
  - destruct (run_parts env urls settings w Hm) as (-> & _). reflexivity.
Qed.

Lemma engine_lines_keep_their_level_witness :
  let r := run Demo.third_time_lucky Demo.job Demo.settings (start init) in
  let now := {| hour := 9; minute := 5; second := 0 |} in
  In (Log SUCCESS (MsgComplete "file.bin" 1234)) (events r)
  /\ forallb unmarked (fields (MsgComplete "file.bin" 1234)) = true
  /\ SUCCESS = level_of (MsgComplete "file.bin" 1234)
  /\ tag (log_line now SUCCESS (render (MsgComplete "file.bin" 1234))) = SUCCESS.
Proof.
  assert (H : In (Log SUCCESS (MsgComplete "file.bin" 1234))
                 (events (run Demo.third_time_lucky Demo.job Demo.settings
                            (start init)))).
  { vm_compute. repeat first [left; reflexivity | right]. }
  split; [exact H |]. split; [reflexivity |].
  destruct (@engine_lines_keep_their_level Demo.third_time_lucky Demo.job
              Demo.settings (start init)
              {| hour := 9; minute := 5; second := 0 |}
              SUCCESS (MsgComplete "file.bin" 1234) H eq_refl)
    as (Hl & Ht & _).
  split; assumption.
Defined.

(** * The list of addresses *)

(** ** Stripping white space *)

(** The characters for which [str.isspace()] holds, in UTF-8: U+0009 to
    U+000D, U+001C to U+0020, U+0085, U+00A0, U+1680, U+2000 to U+200A,
    U+2028, U+2029, U+202F, U+205F and U+3000. *)
Definition whitespace : list string :=
  Eval cbv in
    map bytes
      ([[9]; [10]; [11]; [12]; [13]; [28]; [29]; [30]; [31]; [32];
        [194; 133]; [194; 160]; [225; 154; 128]]
       ++ map (fun k => [226; 128; 128 + k]) (seq 0 11)
       ++ [[226; 128; 168]; [226; 128; 169]; [226; 128; 175];
           [226; 129; 159]; [227; 128; 128]])%nat.

(** [s] without the string [p] it starts with, if it does. *)
Fixpoint without_prefix (p s : string) : option string :=
  match p, s with
  | EmptyString, _ => Some s
  | String a p', String b s' =>
      if Ascii.eqb a b then without_prefix p' s' else None
  | String _ _, EmptyString => None
  end.

(** [s] without the one of the [patterns] it starts with, if any. *)
Fixpoint skip_one (patterns : list string) (s : string) : option string :=
  match patterns with
  | [] => None
  | p :: rest =>
      match without_prefix p s with
      | Some r => Some r
      | None => skip_one rest s
      end
  end.

(** [s] without the patterns it starts with, one after the other. *)
Fixpoint skip_all (fuel : nat) (patterns : list string) (s : string)
  : string :=
  match fuel with
  | O => s
  | S n =>
      match skip_one patterns s with
      | Some r => skip_all n patterns r
      | None => s
      end
  end.

(** [s.lstrip()] *)
Definition lstrip (s : string) : string :=
  skip_all (String.length s) whitespace s.

(** [s] is made of white space only. *)
Definition blank (s : string) : bool :=
  match lstrip s with
  | EmptyString => true
  | String _ _ => false
  end.

(** [s.rstrip()]: [s] up to the white space it ends with. *)
Fixpoint rstrip (s : string) : string :=
  match s with
  | EmptyString => EmptyString
  | String c rest => if blank s then EmptyString else String c (rstrip rest)
  end.

(** [s.strip()].  On the bytes of a text the encodings of the white-space
    characters are taken off the two ends; this is what [str.strip] does
    on the characters, as such an encoding found where a character starts
    is that character, and none of them ends inside another character. *)
Definition strip (s : string) : string := rstrip (lstrip s).

(** Every byte of [s] satisfies [f]. *)
Fixpoint every (f : ascii -> bool) (s : string) : bool :=
  match s with
  | EmptyString => true
  | String c rest => f c && every f rest
  end.

(** Facts about strings. *)

Lemma append_assoc' (a b c : string) : ((a ++ b) ++ c = a ++ (b ++ c))%string.
Proof. induction a as [| x a IH]; cbn; [reflexivity | now rewrite IH]. Qed.

Lemma length_append' (a b : string) :
  String.length (a ++ b) = (String.length a + String.length b)%nat.
Proof. induction a as [| x a IH]; cbn; [reflexivity | now rewrite IH]. Qed.

Lemma every_app f a b : every f (a ++ b) = every f a && every f b.
Proof.
  induction a as [| x a IH]; cbn; [reflexivity | now rewrite IH, andb_assoc].
Qed.

Lemma append_cancel (p a b : string) : (p ++ a = p ++ b)%string -> a = b.
Proof. induction p as [| x p IH]; cbn; [auto |]. intros H. injection H. auto. Qed.

(** Two ways of cutting one string. *)
Lemma app_compare : forall a x p r : string,
  (a ++ x = p ++ r)%string ->
  (exists a', a = (p ++ a')%string /\ r = (a' ++ x)%string)
  \/ (exists y, y <> EmptyString /\ p = (a ++ y)%string /\ x = (y ++ r)%string).
Proof.
  induction a as [| c a IH]; intros x p r H.
  - destruct p as [| d p].
    + left. exists EmptyString. cbn in *. auto.
    + right. exists (String d p). cbn in *. repeat split; auto. discriminate.
  - destruct p as [| d p].
    + left. exists (String c a). cbn in *. auto.
    + cbn in H. injection H as <- H.
      destruct (IH x p r H) as [(a' & -> & ->) | (y & Hy & -> & ->)].
      * left. exists a'. auto.
      * right. exists y. auto.
Qed.

Lemma without_prefix_some p : forall s r,
  without_prefix p s = Some r -> s = (p ++ r)%string.
Proof.
  induction p as [| a p IH]; intros s r H; cbn in *.
  - now injection H.
  - destruct s as [| b s]; [discriminate |].
    destruct (Ascii.eqb_spec a b) as [<- |]; [| discriminate].
    now rewrite (IH s r H).
Qed.

Lemma skip_one_some ps : forall s r,
  skip_one ps s = Some r -> exists p, In p ps /\ s = (p ++ r)%string.
Proof.
  induction ps as [| p ps IH]; intros s r H; cbn in H; [discriminate |].
  destruct (without_prefix p s) as [r' |] eqn:E.
  - injection H as <-. exists p. split; [now left |].
    now apply without_prefix_some.
  - destruct (IH s r H) as (q & Hq & ->). exists q. split; [now right | reflexivity].
Qed.

Section Skipping.

(** The patterns skipped: none is empty, a pattern is found at the head
    of whatever begins with it, and the first bytes of the patterns are
    found nowhere else in them. *)
Variable ps : list string.

Definition leads (c : ascii) : bool :=
  existsb (fun p => match p with
                    | String d _ => Ascii.eqb d c
                    | EmptyString => false
                    end) ps.

Definition well_cut (p : string) : bool :=
  match p with
  | EmptyString => false
  | String _ tail => every (fun d => negb (leads d)) tail
  end.

Hypothesis cut : forallb well_cut ps = true.
Hypothesis found : Forall (fun p => forall r, skip_one ps (p ++ r) = Some r) ps.

Lemma pattern_shape p :
  In p ps ->
  exists c tail, p = String c tail /\ leads c = true
                 /\ every (fun d => negb (leads d)) tail = true.
Proof.
  intros Hp. rewrite forallb_forall in cut. specialize (cut p Hp).
  destruct p as [| c tail]; [discriminate |].
  exists c, tail. repeat split; [| exact cut].
  unfold leads. apply existsb_exists. exists (String c tail).
  split; [exact Hp | apply Ascii.eqb_refl].
Qed.

Lemma skip_one_found p r : In p ps -> skip_one ps (p ++ r) = Some r.
Proof. intros Hp. rewrite Forall_forall in found. now apply found. Qed.

Lemma skip_one_empty : skip_one ps EmptyString = None.
Proof.
  destruct (skip_one ps EmptyString) as [r |] eqn:E; [| reflexivity].
  apply skip_one_some in E as (p & Hp & E).
  destruct (@pattern_shape p Hp) as (c & tail & -> & _). discriminate.
Qed.

(** A string made of patterns. *)
Inductive Blank : string -> Prop :=
| Blank_nil : Blank EmptyString
| Blank_cons p r : In p ps -> Blank r -> Blank (p ++ r).

Lemma Blank_app a b : Blank a -> Blank b -> Blank (a ++ b).
Proof.
  induction 1 as [| p r Hp Hr IH]; intros Hb; [exact Hb |].
  rewrite append_assoc'. apply Blank_cons; auto.
Qed.

Lemma Blank_one p : In p ps -> Blank p.
Proof.
  intros Hp. rewrite <- (append_empty p). apply Blank_cons; [exact Hp | constructor].
Qed.

Lemma Blank_first c t : Blank (String c t) -> leads c = true.
Proof.
  intros H. remember (String c t) as s eqn:E.
  destruct H as [| p r Hp Hr]; [discriminate |].
  destruct (@pattern_shape p Hp) as (d & tail & -> & Hd & _).
  cbn in E. now injection E as ->.
Qed.

Lemma Blank_every f s :
  (forall p, In p ps -> every f p = true) -> Blank s -> every f s = true.
Proof.
  intros Hf. induction 1 as [| p r Hp Hr IH]; [reflexivity |].
  now rewrite every_app, (Hf p Hp), IH.
Qed.

(** What begins in the middle of a pattern does not begin with a byte
    that leads one. *)
Lemma inside_pattern p a y :
  In p ps -> p = (a ++ y)%string -> a <> EmptyString ->
  match y with
  | EmptyString => True
  | String e _ => leads e = false
  end.
Proof.
  intros Hp E Ha. destruct (@pattern_shape p Hp) as (c & tail & -> & _ & Ht).
  destruct a as [| d a]; [congruence |]. cbn in E. injection E as _ ->.
  rewrite every_app in Ht. apply andb_true_iff in Ht as [_ Ht].
  destruct y as [| e y]; [exact I |]. cbn in Ht.
  apply andb_true_iff in Ht as [Ht _]. now apply negb_true_iff.
Qed.

(** A string that begins with no pattern still does so when lengthened
    by one that begins with a leading byte. *)
Lemma bare_extend s x :
  skip_one ps s = None -> s <> EmptyString ->
  match x with
  | EmptyString => True
  | String e _ => leads e = true
  end ->
  skip_one ps (s ++ x) = None.
Proof.
  intros Hs Hne Hx.
  destruct (skip_one ps (s ++ x)) as [r |] eqn:E; [| reflexivity].
  apply skip_one_some in E as (p & Hp & E).
  apply app_compare in E as [(a' & -> & _) | (y & Hy & Ep & ->)].
  - now rewrite (@skip_one_found p a' Hp) in Hs.
  - pose proof (@inside_pattern p s y Hp Ep Hne) as Hin.
    destruct y as [| e y]; [congruence |]. cbn in Hx. congruence.
Qed.

Lemma skip_all_spec : forall fuel s,
  (String.length s <= fuel)%nat ->
  exists a, Blank a /\ s = (a ++ skip_all fuel ps s)%string
            /\ skip_one ps (skip_all fuel ps s) = None.
Proof.
  induction fuel as [| n IH]; intros s Hl.
  - destruct s; [| cbn in Hl; lia]. exists EmptyString.
    repeat split; [constructor | apply skip_one_empty].
  - cbn [skip_all]. destruct (skip_one ps s) as [r |] eqn:E.
    + apply skip_one_some in E as (p & Hp & ->).
      destruct (@pattern_shape p Hp) as (c & tail & -> & _).
      destruct (IH r) as (a & Ha & Er & Hn).
      { rewrite length_append' in Hl. cbn in Hl. lia. }
      exists (String c tail ++ a)%string. repeat split.
      * now apply Blank_cons.
      * now rewrite append_assoc', <- Er.
      * exact Hn.
    + exists EmptyString. repeat split; [constructor | exact E].
Qed.

Lemma skip_all_unique a c :
  Blank a -> skip_one ps c = None ->
  forall fuel, (String.length (a ++ c) <= fuel)%nat ->
               skip_all fuel ps (a ++ c) = c.
Proof.
  intros Ha Hc. induction Ha as [| p r Hp Hr IH]; intros fuel Hl.
  - destruct fuel; cbn; [reflexivity | now rewrite Hc].
  - rewrite append_assoc' in *.
    destruct (@pattern_shape p Hp) as (d & tail & -> & _).
    destruct fuel as [| n]; [cbn in Hl; lia |].
    cbn [skip_all]. rewrite (@skip_one_found _ (r ++ c)%string Hp). apply IH.
    cbn in Hl. rewrite length_append' in Hl. lia.
Qed.

(** What is left of a string made of patterns when one made of patterns
    is taken off its end is made of patterns. *)
Lemma Blank_cancel n : forall c b,
  (String.length c <= n)%nat -> Blank (c ++ b) -> Blank b -> Blank c.
Proof.
  induction n as [| n IH]; intros c b Hl Hcb Hb.
  - destruct c; [constructor | cbn in Hl; lia].
  - destruct c as [| d c']; [constructor |].
    remember (String d c' ++ b)%string as s eqn:E.
    destruct Hcb as [| p r Hp Hr]; [discriminate |].
    symmetry in E.
    apply app_compare in E as [(a' & Ea & ->) | (y & Hy & Ep & ->)].
    + rewrite Ea. apply Blank_cons; [exact Hp |].
      apply (IH a' b); auto.
      destruct (@pattern_shape p Hp) as (e & tail & -> & _).
      rewrite Ea in Hl. cbn in Hl. rewrite length_append' in Hl. lia.
    + pose proof (@inside_pattern p (String d c') y Hp Ep) as Hin.
      destruct y as [| e y]; [congruence |].
      rewrite (Blank_first Hb) in Hin. discriminate Hin. discriminate.
Qed.

(** What begins with a leading byte inside a string made of patterns is
    made of patterns. *)
Lemma Blank_rest n : forall w u,
  (String.length w <= n)%nat -> Blank (w ++ u) ->
  match u with
  | EmptyString => True
  | String e _ => leads e = true
  end ->
  Blank u.
Proof.
  induction n as [| n IH]; intros w u Hl Hwu Hu.
  - destruct w; [exact Hwu | cbn in Hl; lia].
  - destruct w as [| d w']; [exact Hwu |].
    remember (String d w' ++ u)%string as s eqn:E.
    destruct Hwu as [| p r Hp Hr]; [discriminate |].
    symmetry in E.
    apply app_compare in E as [(a' & Ea & ->) | (y & Hy & Ep & ->)].
    + apply (IH a' u); auto.
      destruct (@pattern_shape p Hp) as (e & tail & -> & _).
      rewrite Ea in Hl. cbn in Hl. rewrite length_append' in Hl. lia.
    + pose proof (@inside_pattern p (String d w') y Hp Ep) as Hin.
      destruct y as [| e y]; [congruence |].
      cbn in Hu. rewrite Hu in Hin. discriminate Hin. discriminate.
Qed.

End Skipping.

(** The white space of Python is cut as the lemmas above need it. *)
Lemma whitespace_cut : forallb (well_cut whitespace) whitespace = true.
Proof. reflexivity. Qed.

Lemma whitespace_found :
  Forall (fun p => forall r, skip_one whitespace (p ++ r) = Some r) whitespace.
Proof. repeat constructor. Qed.

(** A string made of white space only. *)
Definition Space : string -> Prop := Blank whitespace.

(** A string that neither begins nor ends with white space. *)
Definition trimmed (c : string) : Prop :=
  skip_one whitespace c = None
  /\ forall x y, c = (x ++ y)%string -> y <> EmptyString -> ~ Space y.

Lemma lstrip_spec s :
  exists a, Space a /\ s = (a ++ lstrip s)%string
            /\ skip_one whitespace (lstrip s) = None.
Proof.
  apply (@skip_all_spec whitespace whitespace_cut (String.length s) s). lia.
Qed.

Lemma lstrip_unique a c :
  Space a -> skip_one whitespace c = None -> lstrip (a ++ c) = c.
Proof.
  intros Ha Hc. unfold lstrip.
  apply (@skip_all_unique whitespace whitespace_cut whitespace_found a c Ha Hc). lia.
Qed.

Lemma blank_Space s : blank s = true <-> Space s.
Proof.
  unfold blank. split.
  - destruct (lstrip_spec s) as (a & Ha & E & _).
    destruct (lstrip s); [| discriminate]. intros _.
    rewrite E, append_empty. exact Ha.
  - intros H. rewrite <- (append_empty s).
    rewrite (@lstrip_unique s EmptyString H (@skip_one_empty whitespace whitespace_cut)). reflexivity.
Qed.

Lemma rstrip_spec s : exists b, Space b /\ s = (rstrip s ++ b)%string.
Proof.
  induction s as [| c s IH].
  - exists EmptyString. split; [constructor | reflexivity].
  - cbn [rstrip]. destruct (blank (String c s)) eqn:B.
    + exists (String c s). split; [now apply blank_Space | reflexivity].
    + destruct IH as (b & Hb & E). exists b. split; [exact Hb |].
      cbn. now rewrite <- E.
Qed.

Lemma rstrip_Space b : Space b -> rstrip b = EmptyString.
Proof.
  intros H. destruct b as [| c b]; [reflexivity |].
  cbn [rstrip]. now rewrite (proj2 (blank_Space _) H).
Qed.

Lemma rstrip_ends s :
  forall x y, rstrip s = (x ++ y)%string -> y <> EmptyString -> ~ Space y.
Proof.
  induction s as [| c s IH]; intros x y E Hy.
  - destruct x, y; cbn in E; congruence.
  - cbn [rstrip] in E. destruct (blank (String c s)) eqn:B.
    + destruct x, y; cbn in E; congruence.
    + destruct x as [| d x]; cbn in E.
      * subst y. intros Hs.
        destruct (rstrip_spec s) as (b & Hb & Es).
        assert (Space (String c s)).
        { rewrite Es.
          change (String c (rstrip s ++ b)) with (String c (rstrip s) ++ b)%string.
          now apply Blank_app. }
        apply blank_Space in H. congruence.
      * injection E as _ E. now apply (IH x y).
Qed.

Lemma rstrip_unique c b :
  (forall x y, c = (x ++ y)%string -> y <> EmptyString -> ~ Space y) ->
  Space b -> rstrip (c ++ b) = c.
Proof.
  intros Hc Hb. induction c as [| d c IH].
  - now apply rstrip_Space.
  - cbn [append rstrip].
    destruct (blank (String d (c ++ b))) eqn:B.
    + exfalso. apply blank_Space in B.
      apply (Hc EmptyString (String d c) eq_refl); [discriminate |].
      apply (@Blank_cancel whitespace whitespace_cut
               (String.length (String d c)) (String d c) b); auto.
    + rewrite IH; [reflexivity |].
      intros x y E. apply (Hc (String d x) y). cbn. now rewrite E.
Qed.

(** What [strip] does: it takes white space off both ends and leaves what
    is in between, which is trimmed. *)
Lemma strip_spec s :
  exists a b, Space a /\ Space b /\ s = (a ++ strip s ++ b)%string
              /\ trimmed (strip s).
Proof.
  unfold strip. destruct (lstrip_spec s) as (a & Ha & E & Hn).
  destruct (rstrip_spec (lstrip s)) as (b & Hb & Eb).
  exists a, b. split; [exact Ha |]. split; [exact Hb |].
  split; [now rewrite <- Eb |]. split; [| apply rstrip_ends].
  destruct (skip_one whitespace (rstrip (lstrip s))) as [r |] eqn:S;
    [| reflexivity].
  apply skip_one_some in S as (p & Hp & S).
  rewrite Eb, S, append_assoc' in Hn.
  now rewrite (@skip_one_found whitespace whitespace_found p (r ++ b) Hp) in Hn.
Qed.

Lemma strip_unique a c b :
  Space a -> Space b -> trimmed c -> strip (a ++ c ++ b) = c.
Proof.
  intros Ha Hb [Hc Hend]. unfold strip.
  destruct c as [| d c].
  - cbn [append].
    assert (E : lstrip (a ++ b) = EmptyString).
    { rewrite <- (append_empty (a ++ b)).
      apply lstrip_unique; [now apply Blank_app |].
      apply (@skip_one_empty whitespace whitespace_cut). }
    now rewrite E.
  - rewrite lstrip_unique; [now apply rstrip_unique | exact Ha |].
    apply (@bare_extend whitespace whitespace_cut whitespace_found (String d c) b); [exact Hc | discriminate |].
    destruct b as [| e b]; [exact I |].
    apply (@Blank_first whitespace whitespace_cut e b Hb).
Qed.

Lemma strip_trimmed c : trimmed c -> strip c = c.
Proof.
  intros H. rewrite <- (append_empty c) at 1.
  apply (@strip_unique EmptyString c EmptyString); [constructor | constructor | exact H].
Qed.

Lemma strip_strip s : strip (strip s) = strip s.
Proof.
  destruct (strip_spec s) as (_ & _ & _ & _ & _ & T). now apply strip_trimmed.
Qed.

Lemma strip_Space_left a s : Space a -> strip (a ++ s) = strip s.
Proof.
  intros Ha. destruct (strip_spec s) as (a' & b' & Ha' & Hb' & E & T).
  rewrite E at 1. rewrite <- append_assoc'.
  apply strip_unique; auto. now apply Blank_app.
Qed.

Lemma strip_Space_right b s : Space b -> strip (s ++ b) = strip s.
Proof.
  intros Hb. destruct (strip_spec s) as (a' & b' & Ha' & Hb' & E & T).
  rewrite E at 1. rewrite !append_assoc'.
  apply strip_unique; auto. now apply Blank_app.
Qed.

Lemma strip_Space s : Space s -> strip s = EmptyString.
Proof.
  intros H. rewrite <- (append_empty s).
  rewrite (@strip_Space_left s EmptyString H). reflexivity.
Qed.

Lemma strip_fixed s : strip s = s -> trimmed s.
Proof.
  intros E. destruct (strip_spec s) as (_ & _ & _ & _ & _ & T). now rewrite E in T.
Qed.

(** Nothing is added: the bytes of [strip s] are bytes of [s]. *)
Lemma strip_every f s : every f s = true -> every f (strip s) = true.
Proof.
  intros H. destruct (strip_spec s) as (a & b & _ & _ & E & _).
  rewrite E, !every_app in H.
  apply andb_true_iff in H as [_ H]. now apply andb_true_iff in H as [H _].
Qed.

(** ** Lines *)

Definition newline : ascii := "010".

(** [s.split(sep)] for a separator of one character: the pieces between the
    separators, of which there is always one more than separators. *)
Fixpoint split_on (sep : ascii) (s : string) : list string :=
  match s with
  | EmptyString => [EmptyString]
  | String c rest =>
      if Ascii.eqb c sep then EmptyString :: split_on sep rest
      else match split_on sep rest with
           | [] => [String c EmptyString]
           | piece :: pieces => String c piece :: pieces
           end
  end.

(** [s.startswith(p)] is [prefix p s]. *)

(** The condition of the list comprehension of [get_urls]:
    [url.strip() and not url.strip().startswith('#')]. *)
Definition wanted (url : string) : bool :=
  truthy (strip url) && negb (prefix "#" (strip url)).

(** The list comprehension of [get_urls], which [update_url_count] repeats
    to count the addresses. *)
Definition urls_of_lines (lines : list string) : list string :=
  map strip (filter wanted lines).

(** [DownloaderGUI.get_urls], of the text that [self.url_text.get(1.0,
    tk.END)] returns. *)
Definition get_urls (text : string) : list string :=
  urls_of_lines (split_on newline (strip text)).

Definition no_newline (s : string) : bool :=
  every (fun c => negb (Ascii.eqb c newline)) s.

(** An address as [get_urls] returns them. *)
Definition clean (url : string) : Prop :=
  url <> EmptyString /\ strip url = url /\ no_newline url = true
  /\ prefix "#" url = false.

Lemma split_on_some sep s : exists piece pieces, split_on sep s = piece :: pieces.
Proof.
  induction s as [| c s (p & ps & E)]; cbn.
  - eauto.
  - destruct (Ascii.eqb c sep); [eauto |]. rewrite E. eauto.
Qed.

Lemma split_on_sep sep a b :
  split_on sep (a ++ String sep b) = split_on sep a ++ split_on sep b.
Proof.
  induction a as [| c a IH]; cbn.
  - now rewrite Ascii.eqb_refl.
  - destruct (Ascii.eqb c sep); [now rewrite IH |].
    rewrite IH. destruct (split_on_some sep a) as (p & ps & ->). reflexivity.
Qed.

Lemma split_on_free sep s :
  every (fun c => negb (Ascii.eqb c sep)) s = true -> split_on sep s = [s].
Proof.
  induction s as [| c s IH]; cbn; [reflexivity |].
  intros H. apply andb_true_iff in H as [Hc Hs].
  destruct (Ascii.eqb c sep); [discriminate |]. now rewrite IH.
Qed.

Lemma split_on_pieces sep s :
  Forall (fun p => every (fun c => negb (Ascii.eqb c sep)) p = true)
         (split_on sep s).
Proof.
  induction s as [| c s IH]; cbn.
  - repeat constructor.
  - destruct (Ascii.eqb c sep) eqn:E; [constructor; [reflexivity | exact IH] |].
    destruct (split_on sep s) as [| p ps]; [repeat constructor; cbn; now rewrite E |].
    inversion IH; subst. constructor; [| assumption]. cbn. now rewrite E.
Qed.

(** The pieces of [a ++ b] are those of [a] and of [b], the last of [a]
    and the first of [b] being one piece. *)
Lemma split_on_app sep a b :
  exists front l h t,
    split_on sep a = front ++ [l] /\ split_on sep b = h :: t
    /\ split_on sep (a ++ b) = front ++ (l ++ h)%string :: t.
Proof.
  induction a as [| c a (front & l & h & t & Ea & Eb & E)].
  - destruct (split_on_some sep b) as (h & t & Eb).
    exists [], EmptyString, h, t. cbn. auto.
  - cbn [append split_on]. destruct (Ascii.eqb c sep).
    + exists (EmptyString :: front), l, h, t. rewrite Ea, E. auto.
    + rewrite Ea, E. destruct front as [| f front].
      * exists [], (String c l), h, t. auto.
      * exists (String c f :: front), l, h, t. auto.
Qed.

Lemma newline_is_space : In (String newline EmptyString) whitespace.
Proof. cbn. auto 20. Qed.

Lemma whitespace_lines :
  forallb (fun p => String.eqb p (String newline EmptyString) || no_newline p)
          whitespace = true.
Proof. reflexivity. Qed.

Lemma Space_one p : In p whitespace -> Space p.
Proof.
  intros H. rewrite <- (append_empty p). constructor; [exact H | constructor].
Qed.

Lemma split_on_free_app sep p s :
  every (fun c => negb (Ascii.eqb c sep)) p = true ->
  split_on sep (p ++ s) =
  match split_on sep s with
  | [] => []
  | h :: t => (p ++ h)%string :: t
  end.
Proof.
  induction p as [| c p IH]; cbn.
  - intros _. now destruct (split_on sep s).
  - intros H. apply andb_true_iff in H as [Hc Hs].
    destruct (Ascii.eqb c sep); [discriminate |]. rewrite (IH Hs).
    destruct (split_on_some sep s) as (h & t & ->). reflexivity.
Qed.

(** Every line of white space is white space. *)
Lemma Space_lines b : Space b -> Forall Space (split_on newline b).
Proof.
  induction 1 as [| p r Hp Hr IH].
  - repeat constructor.
  - pose proof whitespace_lines as L. rewrite forallb_forall in L.
    specialize (L p Hp). apply orb_true_iff in L as [L | L].
    + apply String.eqb_eq in L. subst p. cbn.
      constructor; [constructor | exact IH].
    + rewrite (@split_on_free_app newline p r L).
      destruct (split_on_some newline r) as (h & t & E). rewrite E in *.
      inversion IH; subst. constructor; [| assumption].
      apply Blank_app; [now apply Space_one | assumption].
Qed.

Lemma wanted_strip x y : strip x = strip y -> wanted x = wanted y.
Proof. unfold wanted. now intros ->. Qed.

Lemma urls_of_lines_app a b :
  urls_of_lines (a ++ b) = urls_of_lines a ++ urls_of_lines b.
Proof. unfold urls_of_lines. now rewrite filter_app, map_app. Qed.

Lemma urls_of_lines_alike x y t :
  strip x = strip y -> urls_of_lines (x :: t) = urls_of_lines (y :: t).
Proof.
  intros E. unfold urls_of_lines. cbn [filter].
  rewrite (@wanted_strip x y E). destruct (wanted y); cbn [map]; now rewrite ?E.
Qed.

Lemma urls_of_lines_Space ls : Forall Space ls -> urls_of_lines ls = [].
Proof.
  induction 1 as [| l ls Hl _ IH]; [reflexivity |].
  unfold urls_of_lines in *. cbn [filter]. unfold wanted at 1.
  rewrite (@strip_Space l Hl). exact IH.
Qed.

Lemma urls_skip_left a s :
  Space a ->
  urls_of_lines (split_on newline (a ++ s)) = urls_of_lines (split_on newline s).
Proof.
  intros Ha. destruct (split_on_app newline a s) as (front & l & h & t & Ea & Eb & E).
  pose proof (Space_lines Ha) as F. rewrite Ea in F.
  apply Forall_app in F as [Ff Fl]. inversion Fl; subst.
  rewrite E, Eb, urls_of_lines_app, (@urls_of_lines_Space front Ff). cbn [app].
  apply urls_of_lines_alike. now apply strip_Space_left.
Qed.

Lemma urls_skip_right s b :
  Space b ->
  urls_of_lines (split_on newline (s ++ b)) = urls_of_lines (split_on newline s).
Proof.
  intros Hb. destruct (split_on_app newline s b) as (front & l & h & t & Ea & Eb & E).
  pose proof (Space_lines Hb) as F. rewrite Eb in F. inversion F; subst.
  rewrite E, Ea, !urls_of_lines_app. f_equal.
  change ((l ++ h)%string :: t) with ([(l ++ h)%string] ++ t).
  rewrite urls_of_lines_app, (@urls_of_lines_Space t H2), app_nil_r.
  apply urls_of_lines_alike. now apply strip_Space_right.
Qed.

(** The first [strip] of [get_urls] changes nothing: the lines of the text
    as it is give the same addresses. *)
Lemma get_urls_lines text :
  get_urls text = urls_of_lines (split_on newline text).
Proof.
  unfold get_urls. destruct (strip_spec text) as (a & b & Ha & Hb & E & _).
  rewrite E at 2. rewrite (@urls_skip_left a (strip text ++ b) Ha), (@urls_skip_right (strip text) b Hb).
  reflexivity.
Qed.

Lemma no_newline_strip s : no_newline s = true -> no_newline (strip s) = true.
Proof. apply strip_every. Qed.

Lemma get_urls_one line :
  no_newline line = true ->
  get_urls line = if wanted line then [strip line] else [].
Proof.
  intros H. rewrite get_urls_lines, (@split_on_free newline line H).
  unfold urls_of_lines. cbn. now destruct (wanted line).
Qed.

Lemma get_urls_app a b :
  get_urls (a ++ String newline b) = (get_urls a ++ get_urls b)%list.
Proof.
  now rewrite !get_urls_lines, split_on_sep, urls_of_lines_app.
Qed.

Lemma clean_wanted url : clean url -> wanted url = true.
Proof.
  intros (Hne & Hs & _ & Hp). unfold wanted. rewrite Hs, Hp.
  now destruct url.
Qed.

Lemma strip_empty s : strip s = EmptyString <-> Space s.
Proof.
  split; [| apply strip_Space].
  intros E. destruct (strip_spec s) as (a & b & Ha & Hb & Es & _).
  rewrite Es, E. cbn [append]. now apply Blank_app.
Qed.

Lemma kept_line_clean line :
  no_newline line = true -> wanted line = true -> clean (strip line).
Proof.
  intros Hn Hw. unfold wanted in Hw. apply andb_true_iff in Hw as [Ht Hp].
  repeat split.
  - intros E. now rewrite E in Ht.
  - apply strip_strip.
  - now apply no_newline_strip.
  - now destruct (prefix "#" (strip line)).
Qed.

Lemma get_urls_clean text : Forall clean (get_urls text).
Proof.
  rewrite get_urls_lines. unfold urls_of_lines.
  apply Forall_forall. intros u Hu.
  apply in_map_iff in Hu as (line & <- & Hl).
  apply filter_In in Hl as (Hl & Hw).
  apply kept_line_clean; [| exact Hw].
  pose proof (split_on_pieces newline text) as F.
  rewrite Forall_forall in F. now apply F.
Qed.

(** Every address that [get_urls] returns is a line of the text with the
    white space at its ends taken off; it is not empty, has no white
    space left at either end, holds no line break and does not begin with
    [#]. *)
Theorem addresses_are_clean (text : string) :
  Forall (fun url =>
            clean url
            /\ exists line, In line (split_on newline text)
                            /\ url = strip line)
         (get_urls text).
Proof.
  rewrite get_urls_lines. unfold urls_of_lines.
  apply Forall_forall. intros u Hu.
  apply in_map_iff in Hu as (line & <- & Hl).
  apply filter_In in Hl as (Hl & Hw). split; [| eauto].
  apply kept_line_clean; [| exact Hw].
  pose proof (split_on_pieces newline text) as F.
  rewrite Forall_forall in F. now apply F.
Qed.

(** The text is read line by line: the addresses of two texts put one
    after the other with a line break between them are those of the first
    followed by those of the second, and the [strip] of the whole text
    that [get_urls] begins with makes no difference to what is returned. *)
Theorem lines_are_read_one_by_one (a b : string) :
  get_urls (a ++ String newline b) = (get_urls a ++ get_urls b)%list
  /\ get_urls (strip a) = get_urls a
  /\ get_urls (a ++ String newline EmptyString) = get_urls a.
Proof.
  split; [apply get_urls_app |]. split.
  - unfold get_urls at 1. rewrite strip_strip. reflexivity.
  - rewrite get_urls_app, app_nil_r. reflexivity.
Qed.

(** Clean addresses written one per line are read back as they are, in
    the same order. *)
Theorem clean_addresses_come_back (urls : list string) :
  Forall clean urls ->
  get_urls (fold_right (fun url text => url ++ String newline text)%string
                       EmptyString urls) = urls.
Proof.
  induction 1 as [| u urls Hu _ IH]; [reflexivity |].
  cbn [fold_right]. rewrite get_urls_app, IH.
  destruct Hu as (Hne & Hs & Hn & Hp).
  rewrite (@get_urls_one u Hn), (@clean_wanted u (conj Hne (conj Hs (conj Hn Hp)))).
  now rewrite Hs.
Qed.

(** A line of white space only, and a line whose first character after
    the white space is [#], add nothing to the addresses. *)
Theorem comments_and_blank_lines_are_skipped (line rest : string) :
  no_newline line = true ->
  Space line \/ (exists a comment, Space a /\ line = (a ++ "#" ++ comment)%string) ->
  get_urls (line ++ String newline rest) = get_urls rest.
Proof.
  intros Hn H. rewrite get_urls_app, (@get_urls_one line Hn).
  assert (W : wanted line = false); [| now rewrite W].
  unfold wanted. destruct H as [H | (a & c & Ha & ->)].
  - now rewrite (@strip_Space line H).
  - rewrite (@strip_Space_left a ("#" ++ c) Ha).
    destruct (strip_spec ("#" ++ c)) as (x & y & Hx & Hy & E & T).
    destruct x as [| e x].
    + destruct (strip ("#" ++ c)) as [| d s'] eqn:S.
      * cbn in E. subst y. exfalso.
        pose proof (@Blank_first whitespace whitespace_cut _ _ Hy) as L.
        discriminate L.
      * cbn in E. injection E as <- _. cbn. now destruct s'.
    + cbn in E. injection E as <- _.
      pose proof (@Blank_first whitespace whitespace_cut _ _ Hx) as L.
      discriminate L.
Qed.

Lemma clean_addresses_come_back_witness :
  Forall clean ["https://a.example/1"; "https://b.example/2"]%string
  /\ get_urls ("https://a.example/1" ++ String newline
                 ("https://b.example/2" ++ String newline ""))%string
     = ["https://a.example/1"; "https://b.example/2"]%string.
Proof.
  assert (F : Forall clean ["https://a.example/1"; "https://b.example/2"]%string).
  { repeat constructor; try discriminate. }
  split; [exact F |].
  exact (@clean_addresses_come_back _ F).
Defined.

Lemma comments_and_blank_lines_are_skipped_witness :
  no_newline "  # later" = true
  /\ get_urls ("  # later" ++ String newline "https://a.example/1")
     = get_urls "https://a.example/1".
Proof.
  split; [reflexivity |].
  apply (@comments_and_blank_lines_are_skipped "  # later" "https://a.example/1");
    [reflexivity |].
  right. exists "  "%string, " later"%string. split; [| reflexivity].
  apply (@Blank_cons whitespace " "%string " "%string).
  - cbn. auto 20.
  - apply Space_one. cbn. auto 20.
Defined.

(** * The window *)

(** What the widgets of the window hold when they are read: the text of
    the address box as [self.url_text.get(1.0, tk.END)] returns it, and the
    value of each Tk variable. *)
Record Form := {
  url_text : string;
  folder_var : string;
  selector_var : string;
  retries_var : Z;
  delay_var : Z;
  headless_var : bool;
  page_timeout_var : Z;
  download_timeout_var : Z;
  browser_type_var : string;
  browser_path_var : string
}.

(** [DownloaderGUI.get_settings] *)
Definition get_settings (f : Form) : Settings :=
  {| download_folder := folder_var f;
     selector := selector_var f;
     max_retries := retries_var f;
     delay := delay_var f;
     headless := headless_var f;
     page_timeout := page_timeout_var f;
     download_timeout := download_timeout_var f;
     browser_type := browser_type_var f;
     custom_browser_path := strip (browser_path_var f) |}.

Definition set_browser_path (path : string) (f : Form) : Form :=
  {| url_text := url_text f;
     folder_var := folder_var f;
     selector_var := selector_var f;
     retries_var := retries_var f;
     delay_var := delay_var f;
     headless_var := headless_var f;
     page_timeout_var := page_timeout_var f;
     download_timeout_var := download_timeout_var f;
     browser_type_var := browser_type_var f;
     browser_path_var := path |}.

Definition set_browser_type (name : string) (f : Form) : Form :=
  {| url_text := url_text f;
     folder_var := folder_var f;
     selector_var := selector_var f;
     retries_var := retries_var f;
     delay_var := delay_var f;
     headless_var := headless_var f;
     page_timeout_var := page_timeout_var f;
     download_timeout_var := download_timeout_var f;
     browser_type_var := name;
     browser_path_var := browser_path_var f |}.

(** [DownloaderGUI.browse_browser], given the path that
    [filedialog.askopenfilename] returns (empty when the dialog is
    cancelled).  None of the letters of the four names is the lower case
    of a character outside ASCII but [i], which then comes with a
    combining dot after it and so never before the next letter of a
    name: [lower] finds the names where [str.lower] does. *)
Definition browse_browser (filepath : string) (f : Form) : Form :=
  if truthy filepath then
    let f := set_browser_path filepath f in
    if contains "zen" (lower filepath) || contains "firefox" (lower filepath)
    then set_browser_type "Firefox" f
    else if contains "chrome" (lower filepath)
            || contains "chromium" (lower filepath)
    then set_browser_type "Chromium" f
    else f
  else f.

(** The state of a button. *)
Inductive ButtonState := NORMAL | DISABLED.

(** The two buttons and the progress label. *)
Record Controls := {
  start_btn : ButtonState;
  stop_btn : ButtonState;
  progress_var : string
}.

(** A message box. *)
Inductive Dialog :=
| ShowWarning (title message : string)
| ShowError (title message : string).

(** What [start_download] ends with: a message box, or the worker thread
    started on [run_download_thread] with its two arguments. *)
Inductive Started :=
| Refused (box : Dialog)
| Thread (urls : list string) (settings : Settings).

(** [DownloaderGUI.start_download]; [playwright] tells whether
    [import playwright] succeeds. *)
Definition start_download (playwright : bool) (f : Form) (c : Controls)
  : Started * Controls :=
  let urls := get_urls (url_text f) in
  if negb (match urls with [] => false | _ :: _ => true end) then
    (Refused (ShowWarning "Warning" "Please add at least one URL."), c)
  else if negb (truthy (strip (selector_var f))) then
    (Refused (ShowWarning "Warning" "Please enter a button selector."), c)
  else if negb (truthy (strip (folder_var f))) then
    (Refused (ShowWarning "Warning" "Please select a download folder."), c)
  else if negb playwright then
    (Refused (ShowError "Error"
       ("Playwright is not installed." ++ String newline (String newline
        ("Run these commands:" ++ String newline
         ("pip install playwright" ++ String newline
          "playwright install chromium"))))), c)
  else
    (Thread urls (get_settings f),
     {| start_btn := DISABLED;
        stop_btn := NORMAL;
        progress_var := "Downloading..." |}).

(** [DownloaderGUI.download_complete] *)
Definition download_complete (c : Controls) : Controls :=
  {| start_btn := NORMAL; stop_btn := DISABLED; progress_var := "Ready" |}.

(** [DownloaderGUI.stop_download] *)
Definition stop_download (e : Engine) (c : Controls) : Engine * Controls :=
  (stop e,
   {| start_btn := start_btn c;
      stop_btn := DISABLED;
      progress_var := "Stopping..." |}).

Lemma lower_app a b : lower (a ++ b) = (lower a ++ lower b)%string.
Proof. induction a as [| c a IH]; cbn; [reflexivity | now rewrite IH]. Qed.

Lemma prefix_app_right needle : forall s b,
  prefix needle s = true -> prefix needle (s ++ b) = true.
Proof.
  induction needle as [| c needle IH]; intros s b H.
  - now destruct (s ++ b)%string.
  - destruct s as [| d s]; [discriminate |]. cbn in *.
    destruct (ascii_dec c d) as [_ | _]; [now apply IH | discriminate].
Qed.

Lemma contains_app_right needle s b :
  contains needle s = true -> contains needle (s ++ b) = true.
Proof.
  induction s as [| c s IH]; intros H.
  - cbn in H. rewrite orb_false_r in H.
    destruct needle; [| discriminate].
    destruct b; cbn; [reflexivity | now destruct b].
  - cbn [contains append] in *. apply orb_true_iff in H as [H | H].
    + pose proof (@prefix_app_right needle (String c s) b H) as P.
      cbn [append] in P. rewrite P. reflexivity.
    + rewrite (IH H). apply orb_true_r.
Qed.

Lemma contains_app_left needle a s :
  contains needle s = true -> contains needle (a ++ s) = true.
Proof.
  intros H. induction a as [| c a IH]; [exact H |].
  cbn [append]. now apply contains_tail.
Qed.

(** What is found in the stripped text is found in the text. *)
Lemma contains_lower_strip needle s :
  contains needle (lower (strip s)) = true ->
  contains needle (lower s) = true.
Proof.
  intros H. destruct (strip_spec s) as (a & b & _ & _ & E & _).
  rewrite E at 1. rewrite !lower_app.
  apply contains_app_left. now apply contains_app_right.
Qed.

(** The engine that the name in the browser-type box stands for. *)
Definition family_named (name : string) : Family :=
  if String.eqb name "Firefox" then Firefox
  else if String.eqb name "WebKit" then WebKit
  else Chromium.

Lemma choose_family_named name path :
  truthy path && contains "zen" (lower path) = false ->
  choose_family name path = family_named name.
Proof.
  intros H. unfold choose_family, family_named. rewrite H, orb_false_r.
  reflexivity.
Qed.

(** Once an executable has been picked through the file dialog, the box
    shows the engine that will be launched: the name that
    [browse_browser] leaves in the browser-type box and the path it puts
    in the path box make the engine launch the family of that name, and
    that is Firefox whenever the path picked mentions zen or firefox. *)
Theorem picked_browser_is_launched (filepath : string) (f : Form) :
  truthy filepath = true ->
  let f' := browse_browser filepath f in
  let settings := get_settings f' in
  browser_path_var f' = filepath
  /\ choose_family (browser_type settings) (custom_browser_path settings)
     = family_named (browser_type_var f')
  /\ (contains "zen" (lower filepath) || contains "firefox" (lower filepath)
      = true ->
      choose_family (browser_type settings) (custom_browser_path settings)
      = Firefox).
Proof.
  intros T. unfold browse_browser. rewrite T.
  destruct (contains "zen" (lower filepath)) eqn:Z.
  - cbn. repeat split; reflexivity.
  - assert (N : forall name,
               choose_family name (strip filepath) = family_named name).
    { intros name. apply choose_family_named.
      destruct (contains "zen" (lower (strip filepath))) eqn:C;
        [| apply andb_false_r].
      apply contains_lower_strip in C. congruence. }
    cbn [orb]. destruct (contains "firefox" (lower filepath)).
    + cbn. repeat split; reflexivity.
    + destruct (contains "chrome" (lower filepath)
                || contains "chromium" (lower filepath));
        cbn; rewrite N; repeat split; try reflexivity; discriminate.
Qed.

Lemma picked_browser_is_launched_witness :
  let f := {| url_text := ""; folder_var := "downloads";
              selector_var := "button.download-btn"; retries_var := 2;
              delay_var := 2; headless_var := false; page_timeout_var := 30;
              download_timeout_var := 60; browser_type_var := "Chromium";
              browser_path_var := "" |} in
  let f' := browse_browser "C:/Apps/Zen Browser/zen.exe" f in
  truthy "C:/Apps/Zen Browser/zen.exe" = true
  /\ browser_type_var f' = "Firefox"%string
  /\ choose_family (browser_type (get_settings f'))
                   (custom_browser_path (get_settings f')) = Firefox.
Proof.
  split; [reflexivity |]. split; [reflexivity |].
  apply (@picked_browser_is_launched "C:/Apps/Zen Browser/zen.exe"
           {| url_text := ""; folder_var := "downloads";
              selector_var := "button.download-btn"; retries_var := 2;
              delay_var := 2; headless_var := false; page_timeout_var := 30;
              download_timeout_var := 60; browser_type_var := "Chromium";
              browser_path_var := "" |} eq_refl).
  reflexivity.
Defined.

(** A browser path of white space only counts as no path.  With the
    settings read from such a form the run never asks whether a path
    exists, launches the family named in the browser-type box and gives
    the launch no executable. *)
Theorem blank_browser_path_is_no_path (env : Env) (urls : list string)
    (f : Form) (w : World) :
  Space (browser_path_var f) ->
  Forall (fun ev =>
            match ev with
            | Do (PathExists _) => False
            | Do (Launch family _ executable_path) =>
                family = family_named (browser_type_var f)
                /\ executable_path = None
            | Log _ (MsgUsingCustom _) => False
            | _ => True
            end)
         (events (run env urls (get_settings f) w)).
Proof.
  intros S.
  destruct (run_expected env (get_settings f) urls w) as (t & -> & F & _).
  constructor; [exact I |].
  pose proof (@strip_Space (browser_path_var f) S) as E.
  apply Forall_forall. intros ev Hin.
  rewrite forallb_forall in F. specialize (F ev Hin).
  destruct ev as [l m | c | p b | u a]; try exact I.
  - destruct m; try exact I.
    unfold expected, expected_line in F.
    cbn [custom_browser_path get_settings] in F. rewrite E in F.
    cbn [truthy andb] in F. rewrite andb_false_r in F. discriminate F.
  - destruct c; try exact I; unfold expected, expected_call in F;
      cbn [custom_browser_path get_settings browser_type] in F;
      rewrite E in F; cbn [truthy andb] in F.
    + discriminate F.
    + apply andb_true_iff in F as [F X]. apply andb_true_iff in F as [F _].
      split.
      * rewrite (@choose_family_named (browser_type_var f) "" eq_refl) in F.
        destruct family, (family_named _); cbn in F; congruence.
      * destruct executable_path; [discriminate X | reflexivity].
Qed.

Lemma blank_browser_path_is_no_path_witness :
  let f := {| url_text := "https://a.example/1"; folder_var := "downloads";
              selector_var := "button.download-btn"; retries_var := 2;
              delay_var := 2; headless_var := false; page_timeout_var := 30;
              download_timeout_var := 60; browser_type_var := "WebKit";
              browser_path_var := "  " |} in
  Space (browser_path_var f)
  /\ In (Do (Launch WebKit false None))
        (events (run Demo.third_time_lucky (get_urls (url_text f))
                     (get_settings f) (start init))).
Proof.
  set (f := {| url_text := "https://a.example/1"; folder_var := "downloads";
               selector_var := "button.download-btn"; retries_var := 2;
               delay_var := 2; headless_var := false; page_timeout_var := 30;
               download_timeout_var := 60; browser_type_var := "WebKit";
               browser_path_var := "  " |}).
  assert (S : Space (browser_path_var f)).
  { apply (@Blank_cons whitespace " "%string " "%string).
    - cbn. auto 20.
    - apply Space_one. cbn. auto 20. }
  cbv zeta. split; [exact S |].
  pose proof (@blank_browser_path_is_no_path Demo.third_time_lucky
                (get_urls (url_text f)) f (start init) S) as F.
  rewrite Forall_forall in F.
  assert (L : exists family h exe,
             In (Do (Launch family h exe))
                (events (run Demo.third_time_lucky (get_urls (url_text f))
                             (get_settings f) (start init)))
             /\ h = false).
  { exists WebKit, false, None. split; [| reflexivity].
    vm_compute. repeat first [left; reflexivity | right]. }
  destruct L as (family & h & exe & Hin & ->).
  destruct (F _ Hin) as (-> & ->). exact Hin.
Defined.

Lemma truthy_strip s : truthy (strip s) = true -> ~ Space s.
Proof.
  intros T S. rewrite (@strip_Space s S) in T. discriminate T.
Qed.

Lemma not_truthy_strip s : truthy (strip s) = false -> Space s.
Proof.
  intros T. apply strip_empty. now destruct (strip s).
Qed.

(** [start_download] starts the worker thread only when there is
    something to do: at least one address, all of them clean, a selector
    and a download folder that are not white space only, and Playwright
    installed.  The thread is given the addresses of the address box and
    the settings of the form, and the controls are switched to the
    running state.  Otherwise a message box is shown, the first of the
    four whose condition fails, and the controls are left alone. *)
Theorem nothing_starts_without_input (playwright : bool) (f : Form)
    (c : Controls) :
  match start_download playwright f c with
  | (Thread urls settings, c') =>
      urls = get_urls (url_text f) /\ urls <> [] /\ Forall clean urls
      /\ settings = get_settings f
      /\ ~ Space (selector settings) /\ ~ Space (download_folder settings)
      /\ playwright = true
      /\ c' = {| start_btn := DISABLED; stop_btn := NORMAL;
                 progress_var := "Downloading..." |}
  | (Refused box, c') =>
      c' = c
      /\ match box with
         | ShowWarning _ message =>
             (message = "Please add at least one URL."%string
              /\ get_urls (url_text f) = [])
             \/ (message = "Please enter a button selector."%string
                 /\ get_urls (url_text f) <> []
                 /\ Space (selector_var f))
             \/ (message = "Please select a download folder."%string
                 /\ get_urls (url_text f) <> []
                 /\ ~ Space (selector_var f)
                 /\ Space (folder_var f))
         | ShowError _ _ =>
             get_urls (url_text f) <> []
             /\ ~ Space (selector_var f) /\ ~ Space (folder_var f)
             /\ playwright = false
         end
  end.
Proof.
  unfold start_download.
  pose proof (get_urls_clean (url_text f)) as C.
  destruct (get_urls (url_text f)) as [| u urls] eqn:U; cbn [negb].
  - split; [reflexivity |]. left. split; reflexivity.
  - destruct (truthy (strip (selector_var f))) eqn:Ts; cbn [negb].
    2:{ split; [reflexivity |]. right; left.
        repeat split; [discriminate | now apply not_truthy_strip]. }
    apply truthy_strip in Ts.
    destruct (truthy (strip (folder_var f))) eqn:Tf; cbn [negb].
    2:{ split; [reflexivity |]. right; right.
        repeat split; [discriminate | exact Ts | now apply not_truthy_strip]. }
    apply truthy_strip in Tf.
    destruct playwright; cbn [negb].
    + repeat split; try assumption; discriminate.
    + repeat split; try assumption; discriminate.
Qed.
